(** * studiotoolkit colour engine: a shallow embedding and its properties

    The development follows the TypeScript sources of the
    [color-palette-generator] package file by file:

    - [Select]      select60-30-10.ts   (60/30/10 role selection)
    - [Radium]      RadiumGenerator.ts  (semantic-token remapping)
    - [Image]       ImageGenerator.ts   (pixel clustering)
    - [Algorithmic] AlgorithmicGenerator.ts (seeded generators)
    - [Contrast]    ContrastGenerator.ts (WCAG-targeted searches)

    Number model.  A JavaScript [number] is modelled as an exact rational
    ([Q]); every arithmetic operation keeps its result in lowest terms.
    Rounding error, NaN and the infinities are outside the model.  The
    functions of the host's [Math] object that leave the rationals
    ([sqrt], [cbrt], [pow], [cos], [sin], [atan2]) are the fields of the
    class [MathLib]; every general theorem holds for every instance, and
    [RefMath] is a fixed-point instance used to evaluate examples.

    Strings are sequences of code units below 256. *)

From Stdlib Require Import ZArith QArith Qround Qabs List String Ascii Bool Lia
  Permutation.
Import ListNotations.

Set Implicit Arguments.
Set Warnings "-register-all,-abstract-large-number".

(* ================================================================== *)
(** * Numbers *)
(* ================================================================== *)

Module Num.

Definition num := Q.

Definition add (x y : num) : num := Qred (x + y).
Definition sub (x y : num) : num := Qred (x - y).
Definition mul (x y : num) : num := Qred (x * y).
Definition div (x y : num) : num := Qred (x / y).
Definition neg (x : num) : num := Qred (- x).

Definition leb (x y : num) : bool := Qle_bool x y.
Definition ltb (x y : num) : bool := negb (Qle_bool y x).
Definition geb (x y : num) : bool := Qle_bool y x.
Definition gtb (x y : num) : bool := negb (Qle_bool x y).
Definition eqb (x y : num) : bool := Qeq_bool x y.

Definition ofZ (z : Z) : num := inject_Z z.
Definition ofNat (n : nat) : num := inject_Z (Z.of_nat n).

(** [Math.max], [Math.min], [Math.abs], [Math.floor], [Math.ceil],
    [Math.round] (halves go up) as integers, and the [%] operator
    (the remainder takes the sign of the dividend). *)
Definition max (x y : num) : num := if leb x y then y else x.
Definition min (x y : num) : num := if leb x y then x else y.
Definition abs (x : num) : num := if ltb x 0 then neg x else x.
Definition floorZ (x : num) : Z := Qfloor x.
Definition ceilZ (x : num) : Z := Qceiling x.
Definition roundZ (x : num) : Z := Qfloor (x + (1 # 2)).
Definition truncZ (x : num) : Z := if ltb x 0 then Qceiling x else Qfloor x.
Definition rem (x y : num) : num := sub x (mul y (ofZ (truncZ (div x y)))).

(** [Math.PI]: the double nearest to pi, as the rational it denotes. *)
Definition PI : num := 884279719003555 # 281474976710656.

End Num.

Export Num(num).

Declare Scope js_scope.
Delimit Scope js_scope with js.
Notation "x + y" := (Num.add x y) : js_scope.
Notation "x - y" := (Num.sub x y) : js_scope.
Notation "x * y" := (Num.mul x y) : js_scope.
Notation "x / y" := (Num.div x y) : js_scope.
Notation "- x" := (Num.neg x) : js_scope.
Notation "x <=? y" := (Num.leb x y) : js_scope.
Notation "x <? y" := (Num.ltb x y) : js_scope.
Notation "x >=? y" := (Num.geb x y) (at level 70) : js_scope.
Notation "x >? y" := (Num.gtb x y) (at level 70) : js_scope.
Notation "x =? y" := (Num.eqb x y) : js_scope.
Notation "x 'mod' y" := (Num.rem x y) : js_scope.

(* ================================================================== *)
(** * Values, exceptions, host functions *)
(* ================================================================== *)

(** The JavaScript values a caller can put into a palette. *)
Inductive jsval : Type :=
| JUndefined
| JNull
| JBool (b : bool)
| JNum (n : num)
| JStr (s : string)
| JArr (l : list jsval)
| JObj (fields : list (string * jsval)).

Definition typeof (v : jsval) : string :=
  match v with
  | JUndefined => "undefined"
  | JNull => "object"
  | JBool _ => "boolean"
  | JNum _ => "number"
  | JStr _ => "string"
  | JArr _ => "object"
  | JObj _ => "object"
  end.

Inductive exn : Type :=
| TypeError (msg : string)
| RangeError (msg : string).

(** The outcome of a call: a value, or a thrown exception. *)
Inductive completion (A : Type) : Type :=
| Return (a : A)
| Throw (e : exn).

Arguments Return {A} a.
Arguments Throw {A} e.

Definition bind {A B} (c : completion A) (k : A -> completion B) : completion B :=
  match c with
  | Return a => k a
  | Throw e => Throw e
  end.

Notation "'let*' x ':=' c 'in' k" := (bind c (fun x => k))
  (at level 10, x pattern, c at level 200, k at level 200).

Fixpoint mapM {A B} (f : A -> completion B) (l : list A) : completion (list B) :=
  match l with
  | [] => Return []
  | x :: xs => let* y := f x in let* ys := mapM f xs in Return (y :: ys)
  end.

(** The host functions the sources call and do not define. *)
Class MathLib : Type := {
  Math_sqrt : num -> num;
  Math_cbrt : num -> num;
  Math_pow : num -> num -> num;
  Math_cos : num -> num;
  Math_sin : num -> num;
  Math_atan2 : num -> num -> num;
  JSON_stringify : jsval -> string
}.

(* ================================================================== *)
(** * Strings *)
(* ================================================================== *)

Module Str.

Open Scope string_scope.

Definition code (c : ascii) : nat := nat_of_ascii c.

Definition between (lo hi : nat) (c : ascii) : bool :=
  (lo <=? code c)%nat && (code c <=? hi)%nat.

Definition isDigit (c : ascii) : bool := between 48 57 c.
Definition isLowerHexLetter (c : ascii) : bool := between 97 102 c.
Definition isUpperHexLetter (c : ascii) : bool := between 65 70 c.
Definition isLowerHex (c : ascii) : bool := isDigit c || isLowerHexLetter c.
Definition isAnyHex (c : ascii) : bool := isLowerHex c || isUpperHexLetter c.
Definition isLowerAlpha (c : ascii) : bool := between 97 122 c.

(** White space of [String.prototype.trim] among the code units below 256. *)
Definition isWhiteSpace (c : ascii) : bool :=
  between 9 13 c || (code c =? 32)%nat || (code c =? 160)%nat.

Definition lowerChar (c : ascii) : ascii :=
  if between 65 90 c || (between 192 222 c && negb (code c =? 215)%nat)
  then ascii_of_nat (code c + 32) else c.

Fixpoint toLowerCase (s : string) : string :=
  match s with
  | EmptyString => EmptyString
  | String c r => String (lowerChar c) (toLowerCase r)
  end.

Fixpoint trimStart (s : string) : string :=
  match s with
  | String c r => if isWhiteSpace c then trimStart r else s
  | EmptyString => EmptyString
  end.

Fixpoint allChars (p : ascii -> bool) (s : string) : bool :=
  match s with
  | EmptyString => true
  | String c r => p c && allChars p r
  end.

(** Dropping trailing white space: a suffix made of white space only goes. *)
Fixpoint trimEnd (s : string) : string :=
  match s with
  | EmptyString => EmptyString
  | String c r => if allChars isWhiteSpace s then EmptyString else String c (trimEnd r)
  end.

Definition trim (s : string) : string := trimEnd (trimStart s).

(** [s.replace(/^#/, "")] *)
Definition stripHash (s : string) : string :=
  match s with
  | String "#" r => r
  | _ => s
  end.

Fixpoint filterChars (p : ascii -> bool) (s : string) : string :=
  match s with
  | EmptyString => EmptyString
  | String c r => if p c then String c (filterChars p r) else filterChars p r
  end.

(** [s.slice(i, j)] for [0 <= i <= j]. *)
Definition slice (i j : nat) (s : string) : string := substring i (j - i) s.

Fixpoint isPrefixOf (p s : string) : bool :=
  match p, s with
  | EmptyString, _ => true
  | String a p', String b s' => Ascii.eqb a b && isPrefixOf p' s'
  | String _ _, EmptyString => false
  end.

Definition startsWith (s p : string) : bool := isPrefixOf p s.

Fixpoint includes (s p : string) : bool :=
  isPrefixOf p s ||
  match s with
  | EmptyString => false
  | String _ r => includes r p
  end.

Definition endsWith (s p : string) : bool :=
  (String.length p <=? String.length s)%nat &&
  String.eqb (substring (String.length s - String.length p) (String.length p) s) p.

Definition quote : string := String (ascii_of_nat 34) EmptyString.
(** U+2014, as its three UTF-8 bytes. *)
Definition emDash : string :=
  String (ascii_of_nat 226) (String (ascii_of_nat 128) (String (ascii_of_nat 148) EmptyString)).

(** Value of a hexadecimal digit of either case. *)
Definition hexVal (c : ascii) : option Z :=
  if isDigit c then Some (Z.of_nat (code c - 48))
  else if isLowerHexLetter c then Some (Z.of_nat (code c - 87))
  else if isUpperHexLetter c then Some (Z.of_nat (code c - 55))
  else None.

Fixpoint hexDigits (acc : Z) (s : string) : Z :=
  match s with
  | EmptyString => acc
  | String c r =>
      match hexVal c with
      | Some d => hexDigits (16 * acc + d) r
      | None => acc
      end
  end.

(** The digits of [parseInt(s, 16)] after white space, sign and [0x]. *)
Definition hexRun (s : string) : option Z :=
  match s with
  | String c _ =>
      match hexVal c with
      | Some _ => Some (hexDigits 0 s)
      | None => None
      end
  | EmptyString => None
  end.

Definition strip0x (s : string) : string :=
  match s with
  | String "0" (String "x" r) => r
  | String "0" (String "X" r) => r
  | _ => s
  end.

(** [parseInt(s, 16)]: leading white space, an optional sign, an optional
    [0x], then the longest run of hexadecimal digits; [None] stands for NaN
    (no digit). *)
Definition parseInt16 (s : string) : option Z :=
  match trimStart s with
  | String "-" r => option_map Z.opp (hexRun (strip0x r))
  | String "+" r => hexRun (strip0x r)
  | t => hexRun (strip0x t)
  end.

Definition hexChar (d : Z) : ascii :=
  if (d <? 10)%Z then ascii_of_nat (Z.to_nat d + 48) else ascii_of_nat (Z.to_nat d + 87).

Fixpoint toHexPos (fuel : nat) (z : Z) (acc : string) : string :=
  match fuel with
  | O => acc
  | S f =>
      let acc' := String (hexChar (z mod 16)) acc in
      if (z / 16 =? 0)%Z then acc' else toHexPos f (z / 16) acc'
  end.

(** [z.toString(16)] for an integer [z]. *)
Definition toString16 (z : Z) : string :=
  if (z <? 0)%Z then "-" ++ toHexPos (S (Z.to_nat (Z.log2 (- z)))) (- z) ""
  else toHexPos (S (Z.to_nat (Z.log2 z))) z "".

(** [s.padStart(2, "0")] *)
Definition padStart2 (s : string) : string :=
  match s with
  | EmptyString => "00"
  | String c EmptyString => String "0" s
  | _ => s
  end.

End Str.

(* ================================================================== *)
(** * A reference instance of the host functions *)
(* ================================================================== *)

(** Fixed-point evaluation with 64 fractional bits; used to run the
    definitions on concrete inputs. *)
Module RefMath.

Open Scope Z_scope.

Definition scale : Z := 2 ^ 64.

Definition toFix (q : Q) : Z := Qfloor (q * inject_Z scale)%Q.
Definition ofFix (z : Z) : Q := Qred (z # Z.to_pos scale).

(** Newton's iteration for the largest [r] with [r ^ k <= n], from a
    starting point above the root. *)
Fixpoint rootLoop (fuel : nat) (k n r : Z) : Z :=
  match fuel with
  | O => r
  | S f =>
      let r' := ((k - 1) * r + n / r ^ (k - 1)) / k in
      if r' <? r then rootLoop f k n r' else r
  end.

Definition iroot (k n : Z) : Z :=
  if n <=? 0 then 0 else rootLoop 200 k n (2 ^ (Z.log2 n / k + 1)).

(** The [k]-th root of a non-negative rational. *)
Definition rootQ (k : Z) (q : Q) : Q :=
  ofFix (iroot k (Qfloor (q * inject_Z (scale ^ k))%Q)).

Definition sqrt (x : Q) : Q := if Qle_bool x 0 then 0%Q else rootQ 2 x.

Definition cbrt (x : Q) : Q :=
  if Qle_bool x 0 then Qred (- rootQ 3 (- x))%Q else rootQ 3 x.

Definition fix_round (q : Q) : Q := ofFix (toFix q).

(** [x ^ (p / q)] as the [p]-th power of the [q]-th root. *)
Definition pow (x y : Q) : Q :=
  let y' := Qred y in
  let p := Qnum y' in
  let q := Zpos (Qden y') in
  if p =? 0 then 1%Q
  else if Qle_bool x 0 then
    (if q =? 1 then fix_round (Qpower x p) else 0%Q)
  else fix_round (Qpower (rootQ q x) p).

Definition PIhi : Q := 3.1415926535897932384626433832795028841971%Q.

(** Sum of [t - t*y2/(2*3) + ...]: the Taylor series of sine ([i = 2]) and
    cosine ([i = 1]) on fixed-point numbers. *)
Fixpoint trigSeries (n : nat) (i : Z) (y2 term acc : Z) : Z :=
  match n with
  | O => acc
  | S m =>
      let term' := - (term * y2 / scale) / (i * (i + 1)) in
      trigSeries m (i + 2) y2 term' (acc + term')
  end.

(** The argument brought into (-pi, pi]. *)
Definition reduceAngle (x : Q) : Q :=
  let twoPi := (2 * PIhi)%Q in
  let y := (x - inject_Z (Qfloor (x / twoPi)) * twoPi)%Q in
  if Qle_bool y PIhi then y else (y - twoPi)%Q.

Definition sin (x : Q) : Q :=
  let y := toFix (reduceAngle x) in
  ofFix (trigSeries 30 2 (y * y / scale) y y).

Definition cos (x : Q) : Q :=
  let y := toFix (reduceAngle x) in
  ofFix (trigSeries 30 1 (y * y / scale) scale scale).

Fixpoint atanSeries (n : nat) (i : Z) (t2 pw acc : Z) : Z :=
  match n with
  | O => acc
  | S m =>
      let pw' := - (pw * t2 / scale) in
      atanSeries m (i + 2) t2 pw' (acc + pw' / i)
  end.

(** [t / (1 + sqrt (1 + t^2))]: the tangent of half the angle. *)
Definition halfTan (t : Q) : Q := (t / (1 + sqrt (1 + t * t)))%Q.

(** Arc tangent for [|t| <= 1]. *)
Definition atanSmall (t : Q) : Q :=
  let u := toFix (halfTan (halfTan (halfTan t))) in
  (8 * ofFix (atanSeries 20 3 (u * u / scale) u u))%Q.

Definition atan (t : Q) : Q :=
  if Qle_bool (Qabs t) 1 then atanSmall t
  else if Qle_bool 0 t then (PIhi / 2 - atanSmall (1 / t))%Q
  else (- (PIhi / 2) - atanSmall (1 / t))%Q.

Definition atan2 (y x : Q) : Q :=
  fix_round
    (if Qeq_bool x 0 then
       (if Qeq_bool y 0 then 0 else if Qle_bool 0 y then PIhi / 2 else - (PIhi / 2))%Q
     else if Qle_bool 0 x then atan (y / x)
     else if Qle_bool 0 y then (atan (y / x) + PIhi)%Q
     else (atan (y / x) - PIhi)%Q).

(** [JSON.stringify] on the values of the examples: strings are quoted,
    [null] is printed, anything else is left blank. *)
Definition stringify (v : jsval) : string :=
  match v with
  | JStr s => (Str.quote ++ s ++ Str.quote)%string
  | JNull => "null"%string
  | JBool true => "true"%string
  | JBool false => "false"%string
  | JUndefined => "undefined"%string
  | _ => ""%string
  end.

End RefMath.

#[export] Instance refMath : MathLib := {|
  Math_sqrt := RefMath.sqrt;
  Math_cbrt := RefMath.cbrt;
  Math_pow := RefMath.pow;
  Math_cos := RefMath.cos;
  Math_sin := RefMath.sin;
  Math_atan2 := RefMath.atan2;
  JSON_stringify := RefMath.stringify
|}.

(* ================================================================== *)
(** * Stable sorting with a comparator *)
(* ================================================================== *)

(** [Array.prototype.sort(cmp)] on a copy: a stable sort; [cmp a b <= 0]
    keeps [a] before [b]. *)
Section Sorting.
Variable A : Type.
Variable cmp : A -> A -> num.

Fixpoint insertBy (x : A) (l : list A) : list A :=
  match l with
  | [] => [x]
  | y :: r => if (cmp x y <=? 0)%js then x :: l else y :: insertBy x r
  end.

Fixpoint sortBy (l : list A) : list A :=
  match l with
  | [] => []
  | x :: r => insertBy x (sortBy r)
  end.
End Sorting.

(* ================================================================== *)
(** * select60-30-10.ts *)
(* ================================================================== *)

Module Select.

Open Scope string_scope.
Open Scope Q_scope.
Open Scope js_scope.

Record LCH : Type := mkLCH { L : num; C : num; H : num }.
Record Lab : Type := mkLab { labL : num; laba : num; labb : num }.
Record RGB : Type := mkRGB { r : num; g : num; b : num }.

Record ColorRole : Type := mkColorRole {
  hex : string;
  role : string;
  label : string;
  weight : string;
  lch : LCH;
  derived : bool;
  textColor : string;
  contrast : num
}.

Record RuleResult : Type := mkRuleResult {
  neutralLight : ColorRole;
  neutralDark : ColorRole;
  mainColor : ColorRole;
  mainColorShade : ColorRole;
  accentColor : ColorRole
}.

Record SelectOptions : Type := mkSelectOptions {
  neutralChromaMax : option num;
  mainLightnessMin : option num;
  mainLightnessMax : option num;
  shadeHueTolerance : option num;
  accentHueMin : option num;
  derivedDarkL : option num;
  derivedDarkC : option num
}.

Definition noOptions : SelectOptions :=
  mkSelectOptions None None None None None None None.

Record Config : Type := mkConfig {
  cfg_neutralChromaMax : num;
  cfg_mainLightnessMin : num;
  cfg_mainLightnessMax : num;
  cfg_shadeHueTolerance : num;
  cfg_accentHueMin : num;
  cfg_derivedDarkL : num;
  cfg_derivedDarkC : num
}.

Record InternalColor : Type := mkInternalColor { ic_hex : string; ic_lch : LCH }.

(** [a ?? d] *)
Definition orElse {A} (o : option A) (d : A) : A :=
  match o with Some a => a | None => d end.

Section WithMath.
Context {M : MathLib}.

Definition _lin (c : num) : num :=
  if c <=? 0.04045 then c / 12.92 else Math_pow ((c + 0.055) / 1.055) 2.4.

Definition _delin (c : num) : num :=
  if c <=? 0.0031308 then 12.92 * c else 1.055 * Math_pow c (1 / 2.4) - 0.055.

Definition _clamp (v : num) : num := if v <? 0 then 0 else if v >? 1 then 1 else v.

Definition _rgbToOklab (r g b : num) : Lab :=
  let lr := _lin r in
  let lg := _lin g in
  let lb := _lin b in
  let l := Math_cbrt (0.4122214708 * lr + 0.5363325363 * lg + 0.0514459929 * lb) in
  let m := Math_cbrt (0.2119034982 * lr + 0.6806995451 * lg + 0.1073969566 * lb) in
  let s := Math_cbrt (0.0883024619 * lr + 0.2817188376 * lg + 0.6299787005 * lb) in
  {| labL := 0.2104542553 * l + 0.793617785 * m - 0.0040720468 * s;
     laba := 1.9779984951 * l - 2.428592205 * m + 0.4505937099 * s;
     labb := 0.0259040371 * l + 0.7827717662 * m - 0.808675766 * s |}.

Definition _oklabToRgb (L a b : num) : RGB :=
  let l := L + 0.3963377774 * a + 0.2158037573 * b in
  let m := L - 0.1055613458 * a - 0.0638541728 * b in
  let s := L - 0.0894841775 * a - 1.291485548 * b in
  let l3 := l * l * l in
  let m3 := m * m * m in
  let s3 := s * s * s in
  {| r := _clamp (_delin (4.0767416621 * l3 - 3.3077115913 * m3 + 0.2309699292 * s3));
     g := _clamp (_delin (-1.2684380046 * l3 + 2.6097574011 * m3 - 0.3413193965 * s3));
     b := _clamp (_delin (-0.0041960863 * l3 - 0.7034186147 * m3 + 1.707614701 * s3)) |}.

Definition is3hex (h : string) : bool :=
  (String.length h =? 3)%nat && Str.allChars Str.isLowerHex h.
Definition is6hex (h : string) : bool :=
  (String.length h =? 6)%nat && Str.allChars Str.isLowerHex h.

Definition expand3 (h : string) : string :=
  match h with
  | String c0 (String c1 (String c2 _)) =>
      String "#" (String c0 (String c0 (String c1 (String c1 (String c2 (String c2 EmptyString))))))
  | _ => "#"
  end.

Definition _normaliseHex (raw : jsval) : completion string :=
  match raw with
  | JStr s =>
      let h := Str.toLowerCase (Str.stripHash (Str.trim s)) in
      if is3hex h then Return (expand3 h)
      else if is6hex h then Return ("#" ++ h)
      else Throw (RangeError ("Invalid hex color: " ++ Str.quote ++ s ++ Str.quote ++ " "
                              ++ Str.emDash ++ " expected " ++ Str.quote ++ "#rgb" ++ Str.quote
                              ++ " or " ++ Str.quote ++ "#rrggbb" ++ Str.quote))
  | _ => Throw (TypeError ("Color must be a string, got " ++ typeof raw ++ ": "
                           ++ JSON_stringify raw))
  end.

(** [parseInt(...) / 255]; a slice without a leading digit (NaN in the
    source) reads as 0 here, and no caller passes one. *)
Definition hexByte (i : nat) (hex : string) : num :=
  match Str.parseInt16 (Str.slice i (i + 2) hex) with
  | Some z => Num.ofZ z / 255
  | None => 0
  end.

Definition _hexToRgb (hex : string) : RGB :=
  {| r := hexByte 1 hex; g := hexByte 3 hex; b := hexByte 5 hex |}.

Definition _rgbToHex (r g b : num) : string :=
  let f := fun c => Str.padStart2 (Str.toString16 (Num.roundZ (_clamp c * 255))) in
  "#" ++ f r ++ f g ++ f b.

Definition _hexToLch (hex : string) : LCH :=
  let c := _hexToRgb hex in
  let lab := _rgbToOklab (r c) (g c) (b c) in
  {| L := labL lab;
     C := Math_sqrt (laba lab * laba lab + labb lab * labb lab);
     H := (Math_atan2 (labb lab) (laba lab) * 180 / Num.PI + 360) mod 360 |}.

Definition _lchToHex (L C H : num) : string :=
  let rad := H * Num.PI / 180 in
  let c := _oklabToRgb L (C * Math_cos rad) (C * Math_sin rad) in
  _rgbToHex (r c) (g c) (b c).

Definition _hueDist (h1 h2 : num) : num :=
  let d := Num.abs (h1 - h2) mod 360 in
  if d >? 180 then 360 - d else d.

Definition wcagY (hex : jsval) : completion num :=
  let* n := _normaliseHex hex in
  let c := _hexToRgb n in
  Return (0.2126 * _lin (r c) + 0.7152 * _lin (g c) + 0.0722 * _lin (b c)).

Definition wcagContrast (hexA hexB : jsval) : completion num :=
  let* ya := wcagY hexA in
  let* yb := wcagY hexB in
  Return ((Num.max ya yb + 0.05) / (Num.min ya yb + 0.05)).

Definition bestTextOn (bgHex : jsval) : completion string :=
  let* w := wcagContrast bgHex (JStr "#ffffff") in
  let* d := wcagContrast bgHex (JStr "#111111") in
  Return (if w >=? d then "#ffffff" else "#111111").

(** [parseFloat(x.toFixed(2))]: the nearest multiple of 1/100, halves up. *)
Definition toFixed2 (x : num) : num := Num.ofZ (Num.roundZ (x * 100)) / 100.

(** [a.slice().sort(cmp)[0]]; reading a field of the missing first element
    of an empty array is the host's TypeError. *)
Definition first {A} (l : list A) : completion A :=
  match l with
  | x :: _ => Return x
  | [] => Throw (TypeError "Cannot read properties of undefined")
  end.

Definition byLdesc (a b : InternalColor) : num := L (ic_lch b) - L (ic_lch a).
Definition byLasc (a b : InternalColor) : num := L (ic_lch a) - L (ic_lch b).
Definition byCdesc (a b : InternalColor) : num := C (ic_lch b) - C (ic_lch a).

Definition hasHex (hs : list string) (c : InternalColor) : bool :=
  existsb (String.eqb (ic_hex c)) hs.

Definition resolve (opts : SelectOptions) : Config :=
  {| cfg_neutralChromaMax := orElse (neutralChromaMax opts) 0.06;
     cfg_mainLightnessMin := orElse (mainLightnessMin opts) 0.4;
     cfg_mainLightnessMax := orElse (mainLightnessMax opts) 0.72;
     cfg_shadeHueTolerance := orElse (shadeHueTolerance opts) 30;
     cfg_accentHueMin := orElse (accentHueMin opts) 100;
     cfg_derivedDarkL := orElse (derivedDarkL opts) 0.2;
     cfg_derivedDarkC := orElse (derivedDarkC opts) 0.035 |}.

Definition toInternal (raw : jsval) : completion InternalColor :=
  let* hex := _normaliseHex raw in
  Return {| ic_hex := hex; ic_lch := _hexToLch hex |}.

Definition mkRole (nl : string) (role label weight hex : string) (derived : bool)
  : completion ColorRole :=
  let* tc := bestTextOn (JStr hex) in
  let* ct := wcagContrast (JStr hex) (JStr nl) in
  Return {| hex := hex; role := role; label := label; weight := weight;
            derived := derived; lch := _hexToLch hex; textColor := tc;
            contrast := toFixed2 ct |}.

(** Step 3: the darkest qualifying near-neutral, else a synthesised one. *)
Definition pickNeutralDark (cfg : Config) (nearNeutrals : list InternalColor)
  (nlSrc mainSrc : InternalColor) : completion (string * bool) :=
  let darkNeutrals :=
    filter (fun c => (L (ic_lch c) <? 0.35) && negb (String.eqb (ic_hex c) (ic_hex nlSrc)))
           nearNeutrals in
  if (0 <? List.length darkNeutrals)%nat then
    let* d := first (sortBy byLasc darkNeutrals) in
    Return (ic_hex d, false)
  else
    Return (_lchToHex (cfg_derivedDarkL cfg) (cfg_derivedDarkC cfg) (H (ic_lch mainSrc)), true).

(** Step 4: the darker twin of the main colour. *)
Definition pickShade (cfg : Config) (px : list InternalColor)
  (nlSrc mainSrc : InternalColor) : completion (string * bool) :=
  let rem12 := filter (fun c => negb (hasHex [ic_hex nlSrc; ic_hex mainSrc] c)) px in
  if (0 <? List.length rem12)%nat then
    let sameHue :=
      filter (fun c => (_hueDist (H (ic_lch c)) (H (ic_lch mainSrc)) <? cfg_shadeHueTolerance cfg)
                       && (C (ic_lch c) >? 0.1)) rem12 in
    let* s := first (sortBy byCdesc (if (0 <? List.length sameHue)%nat then sameHue else rem12)) in
    Return (ic_hex s, false)
  else
    Return (_lchToHex (Num.max 0.05 (L (ic_lch mainSrc) - 0.08))
                      (C (ic_lch mainSrc) * 0.92) (H (ic_lch mainSrc)), true).

(** Step 5: the accent. *)
Definition pickAccent (cfg : Config) (px : list InternalColor)
  (nlSrc mainSrc : InternalColor) (shadeHex : string) : completion (string * bool) :=
  let rem123 :=
    filter (fun c => negb (hasHex [ic_hex nlSrc; ic_hex mainSrc; shadeHex] c)) px in
  if (0 <? List.length rem123)%nat then
    let farHue :=
      filter (fun c => _hueDist (H (ic_lch c)) (H (ic_lch mainSrc)) >=? cfg_accentHueMin cfg)
             rem123 in
    let* a := first (sortBy byCdesc (if (0 <? List.length farHue)%nat then farHue else rem123)) in
    Return (ic_hex a, false)
  else
    Return (_lchToHex 0.72 (Num.min (C (ic_lch mainSrc)) 0.18)
                      ((H (ic_lch mainSrc) + 150) mod 360), true).

Definition select60_30_10 (palette : jsval) (opts : SelectOptions)
  : completion RuleResult :=
  match palette with
  | JArr (p0 :: ps) =>
      let cfg := resolve opts in
      let* px := mapM toInternal (p0 :: ps) in
      (* Step 1: neutralLight *)
      let nearNeutrals := filter (fun c => C (ic_lch c) <? cfg_neutralChromaMax cfg) px in
      let* nlSrc :=
        first (sortBy byLdesc (if (0 <? List.length nearNeutrals)%nat then nearNeutrals else px)) in
      (* Step 2: mainColor *)
      let midBand :=
        filter (fun c => (L (ic_lch c) >=? cfg_mainLightnessMin cfg)
                         && (L (ic_lch c) <=? cfg_mainLightnessMax cfg)) px in
      let* mainSrc :=
        first (sortBy byCdesc (if (0 <? List.length midBand)%nat then midBand else px)) in
      let* nd := pickNeutralDark cfg nearNeutrals nlSrc mainSrc in
      let* sh := pickShade cfg px nlSrc mainSrc in
      let* ac := pickAccent cfg px nlSrc mainSrc (fst sh) in
      let nl := ic_hex nlSrc in
      let* r1 := mkRole nl "neutralLight" "Neutral Light" "60%" nl false in
      let* r2 := mkRole nl "neutralDark" "Neutral Dark" Str.emDash (fst nd) (snd nd) in
      let* r3 := mkRole nl "mainColor" "Main Color" "30%" (ic_hex mainSrc) false in
      let* r4 := mkRole nl "mainColorShade" "Main Color Shade" Str.emDash (fst sh) (snd sh) in
      let* r5 := mkRole nl "accentColor" "Accent Color" "10%" (fst ac) (snd ac) in
      Return {| neutralLight := r1; neutralDark := r2; mainColor := r3;
                mainColorShade := r4; accentColor := r5 |}
  | _ => Throw (TypeError "palette must be a non-empty array of hex color strings")
  end.


End WithMath.
End Select.

(** ** Vocabulary used to state the properties of [Select] *)

Module SelectSpec.

Open Scope string_scope.



(** The normalised form: [#] and six lower-case hexadecimal digits. *)
Definition isNormalised (s : string) : bool :=
  match s with
  | String "#" h => Select.is6hex h
  | _ => false
  end.

Definition paletteMessage : string :=
  "palette must be a non-empty array of hex color strings".


Definition rangeMessage (s : string) : string :=
  "Invalid hex color: " ++ Str.quote ++ s ++ Str.quote ++ " " ++ Str.emDash
  ++ " expected " ++ Str.quote ++ "#rgb" ++ Str.quote ++ " or " ++ Str.quote
  ++ "#rrggbb" ++ Str.quote.

Definition roles (res : Select.RuleResult) : list Select.ColorRole :=
  [Select.neutralLight res; Select.neutralDark res; Select.mainColor res;
   Select.mainColorShade res; Select.accentColor res].



End SelectSpec.

(* ================================================================== *)
(** * RadiumGenerator.ts *)
(* ================================================================== *)

Module Radium.

Open Scope string_scope.
Open Scope Q_scope.
Open Scope js_scope.

Record RGB : Type := mkRGB { r : num; g : num; b : num }.
Record Lab : Type := mkLab { labL : num; laba : num; labb : num }.
Record LCH : Type := mkLCH { L : num; C : num; H : num }.

(** [{ ...lch, C: c }], [{ ...lch, L: l }] and [{ ...lch, H: h }] *)
Definition withC (lch : LCH) (c : num) : LCH := {| L := L lch; C := c; H := H lch |}.
Definition withL (lch : LCH) (l : num) : LCH := {| L := l; C := C lch; H := H lch |}.
Definition withH (lch : LCH) (h : num) : LCH := {| L := L lch; C := C lch; H := h |}.

Definition RadiumInput := list (string * list string).
Definition RadiumOutput := list (string * list string).

Section WithMath.
Context {M : MathLib}.

Definition linearize (c : num) : num :=
  if c <=? 0.04045 then c / 12.92 else Math_pow ((c + 0.055) / 1.055) 2.4.

Definition delinearize (c : num) : num :=
  if c <=? 0.0031308 then 12.92 * c else 1.055 * Math_pow c (1 / 2.4) - 0.055.

Definition clamp01 (v : num) : num := Num.max 0 (Num.min 1 v).
Definition lerp (a b t : num) : num := a + (b - a) * t.

(** [parseInt(...) / 255]; a slice without a leading digit (NaN in the
    source) reads as 0 here, and no caller passes one. *)
Definition hexByte (i : nat) (hex : string) : num :=
  match Str.parseInt16 (Str.slice i (i + 2) hex) with
  | Some z => Num.ofZ z / 255
  | None => 0
  end.

Definition hexToRgb01 (hex : string) : RGB :=
  {| r := hexByte 1 hex; g := hexByte 3 hex; b := hexByte 5 hex |}.

Definition rgbToHex (c : RGB) : string :=
  let f := fun c => Str.padStart2 (Str.toString16 (Num.roundZ (clamp01 c * 255))) in
  "#" ++ f (r c) ++ f (g c) ++ f (b c).

Definition rgbToOklab (c : RGB) : Lab :=
  let lr := linearize (r c) in
  let lg := linearize (g c) in
  let lb := linearize (b c) in
  let l := Math_cbrt (0.4122214708 * lr + 0.5363325363 * lg + 0.0514459929 * lb) in
  let m := Math_cbrt (0.2119034982 * lr + 0.6806995451 * lg + 0.1073969566 * lb) in
  let s := Math_cbrt (0.0883024619 * lr + 0.2817188376 * lg + 0.6299787005 * lb) in
  {| labL := 0.2104542553 * l + 0.793617785 * m - 0.0040720468 * s;
     laba := 1.9779984951 * l - 2.428592205 * m + 0.4505937099 * s;
     labb := 0.0259040371 * l + 0.7827717662 * m - 0.808675766 * s |}.

(** OKLab to sRGB, unclipped. *)
Definition oklabToRgbRaw (lab : Lab) : RGB :=
  let l := labL lab + 0.3963377774 * laba lab + 0.2158037573 * labb lab in
  let m := labL lab - 0.1055613458 * laba lab - 0.0638541728 * labb lab in
  let s := labL lab - 0.0894841775 * laba lab - 1.291485548 * labb lab in
  let l3 := l * l * l in
  let m3 := m * m * m in
  let s3 := s * s * s in
  {| r := delinearize (4.0767416621 * l3 - 3.3077115913 * m3 + 0.2309699292 * s3);
     g := delinearize (-1.2684380046 * l3 + 2.6097574011 * m3 - 0.3413193965 * s3);
     b := delinearize (-0.0041960863 * l3 - 0.7034186147 * m3 + 1.707614701 * s3) |}.

Definition oklabToRgb (lab : Lab) : RGB :=
  let c := oklabToRgbRaw lab in
  {| r := clamp01 (r c); g := clamp01 (g c); b := clamp01 (b c) |}.

Definition oklabToOklch (lab : Lab) : LCH :=
  {| L := labL lab;
     C := Math_sqrt (laba lab * laba lab + labb lab * labb lab);
     H := (Math_atan2 (labb lab) (laba lab) * 180 / Num.PI + 360) mod 360 |}.

Definition oklchToOklab (lch : LCH) : Lab :=
  {| labL := L lch;
     laba := C lch * Math_cos (H lch * Num.PI / 180);
     labb := C lch * Math_sin (H lch * Num.PI / 180) |}.

Definition hexToLch (hex : string) : LCH := oklabToOklch (rgbToOklab (hexToRgb01 hex)).

Definition inGamut (c : RGB) : bool :=
  (r c >=? -0.001) && (r c <=? 1.001) &&
  (g c >=? -0.001) && (g c <=? 1.001) &&
  (b c >=? -0.001) && (b c <=? 1.001).

(** The gamut test of one chroma, on unclipped channels. *)
Definition chromaFits (lch : LCH) (c : num) : bool :=
  inGamut (oklabToRgbRaw (oklchToOklab (withC lch c))).

(** The body of the [for] loop of [lchToHexSafe], run [n] times. *)
Fixpoint chromaSearch (n : nat) (lch : LCH) (lo hi : num) : num * num :=
  match n with
  | O => (lo, hi)
  | S n' =>
      let mid := (lo + hi) / 2 in
      if chromaFits lch mid then chromaSearch n' lch mid hi
      else chromaSearch n' lch lo mid
  end.

Definition lchToHexSafe (lch : LCH) : string :=
  let direct := oklabToRgbRaw (oklchToOklab lch) in
  if inGamut direct then rgbToHex (oklabToRgb (oklchToOklab lch))
  else
    let lo := fst (chromaSearch 24 lch 0 (C lch)) in
    rgbToHex (oklabToRgb (oklchToOklab (withC lch lo))).

(** The table's own keys; a key that only names an inherited property of the
    host object is not looked up here. *)
Definition HARMONY_OFFSETS : list (string * list num) :=
  [ ("harmonypalette", [0; 150; 210]);
    ("analogous", [-30; 0; 30]);
    ("complementary", [0; 180]);
    ("splitcomplementary", [0; 150; 210]);
    ("triadic", [0; 120; 240]);
    ("tetradic", [0; 60; 180; 240]);
    ("square", [0; 90; 180; 270]);
    ("accentedanalogous", [-30; 0; 30; 180]);
    ("doublesplitcomplementary", [0; 30; 150; 180; 210; 330]);
    ("ambiguous", [15; 135; 255]) ].

Fixpoint lookup {A} (k : string) (t : list (string * A)) : option A :=
  match t with
  | [] => None
  | (k', v) :: rest => if String.eqb k k' then Some v else lookup k rest
  end.

Definition SEMANTIC_TRANSFORMS : list ((string -> bool) * (LCH -> LCH)) :=
  [ (fun k => Str.includes k "neutrallight"
              || (Str.includes k "neutral" && Str.includes k "light"),
     fun lch => {| L := 0.93; C := Num.min (C lch * 0.08) 0.015; H := H lch |});
    (fun k => Str.includes k "neutraldark"
              || (Str.includes k "neutral" && Str.includes k "dark"),
     fun lch => {| L := 0.1; C := Num.min (C lch * 0.08) 0.015; H := H lch |});
    (fun k => Str.includes k "neutral",
     fun lch => {| L := 0.55; C := Num.min (C lch * 0.06) 0.012; H := H lch |});
    (fun k => Str.endsWith k "shade" || Str.includes k "colorshade",
     fun lch => {| L := 0.3; C := C lch; H := H lch |});
    (fun k => Str.endsWith k "dark",
     fun lch => {| L := 0.22; C := C lch; H := H lch |});
    (fun k => Str.endsWith k "light" || Str.endsWith k "tint",
     fun lch => {| L := 0.88; C := C lch * 0.5; H := H lch |});
    (fun k => Str.startsWith k "accent",
     fun lch => {| L := 0.62; C := Num.max (C lch) 0.22; H := H lch |});
    (fun k => Str.startsWith k "main" || Str.startsWith k "primary"
              || Str.startsWith k "brand",
     fun lch => {| L := 0.52; C := Num.max (C lch) 0.22; H := H lch |});
    (fun k => Str.startsWith k "background" || Str.startsWith k "bg",
     fun lch => {| L := 0.97; C := Num.min (C lch * 0.08) 0.012; H := H lch |});
    (fun k => Str.startsWith k "surface",
     fun lch => {| L := 0.91; C := Num.min (C lch * 0.18) 0.025; H := H lch |});
    (fun k => Str.startsWith k "foreground" || Str.startsWith k "text"
              || Str.startsWith k "on",
     fun lch => {| L := 0.18; C := Num.min (C lch * 0.12) 0.02; H := H lch |}) ].

(** [Array.from({ length: n }, (_, i) => f i)] *)
Definition arrayFrom {A} (n : nat) (f : nat -> A) : list A := map f (seq 0 n).

Definition buildFromOffsets (lch : LCH) (offsets : list num) (n : nat) : list string :=
  arrayFrom n (fun i =>
    let deg := nth (i mod List.length offsets) offsets 0 in
    let extraShift := Num.ofNat (i / List.length offsets) * 0.08 in
    lchToHexSafe {| L := clamp01 (L lch - extraShift);
                    C := C lch;
                    H := (H lch + deg + 360) mod 360 |}).

Definition buildEvenlySpaced (lch : LCH) (n : nat) : list string :=
  arrayFrom n (fun i =>
    lchToHexSafe (withH lch ((H lch + (360 / Num.ofNat n) * Num.ofNat i) mod 360))).

Definition buildMonochromaticRamp (lch : LCH) (n : nat) : list string :=
  arrayFrom n (fun i =>
    let t := Num.ofNat i / Num.max (Num.ofNat n - 1) 1 in
    let l := lerp 0.12 0.94 t in
    let c := C lch * clamp01 (1 - Math_pow (Num.abs (t - 0.45)) 2.5) in
    lchToHexSafe {| L := l; C := c; H := H lch |}).

Definition buildTintShadeRamp (lch : LCH) (n : nat) : list string :=
  arrayFrom n (fun i =>
    let t := Num.ofNat i / Num.max (Num.ofNat n - 1) 1 in
    let tCurved :=
      if t <? 0.5 then 0.5 * Math_pow (t * 2) 1.6
      else 1 - 0.5 * Math_pow ((1 - t) * 2) 1.4 in
    let l := lerp 0.1 0.96 tCurved in
    let c := C lch * clamp01 (1 - Math_pow ((t - 0.4) / 0.7) 2 * 0.6) in
    lchToHexSafe {| L := l; C := c; H := H lch |}).

(** The first entry of [SEMANTIC_TRANSFORMS] whose predicate holds. *)
Fixpoint firstTransform (k : string) (t : list ((string -> bool) * (LCH -> LCH)))
  : option (LCH -> LCH) :=
  match t with
  | [] => None
  | (matches, apply) :: rest => if matches k then Some apply else firstTransform k rest
  end.

Definition generatePalette (key : string) (lch : LCH) (n : nat) : list string :=
  let k := Str.filterChars Str.isLowerAlpha (Str.toLowerCase key) in
  if (1 <? n)%nat then
    if Str.includes k "tintshade" then buildTintShadeRamp lch n
    else if Str.includes k "monochromatic" then buildMonochromaticRamp lch n
    else if Str.includes k "tint" || Str.includes k "shade" then buildTintShadeRamp lch n
    else
      match lookup k HARMONY_OFFSETS with
      | Some offsets => buildFromOffsets lch offsets n
      | None => buildEvenlySpaced lch n
      end
  else
    match firstTransform k SEMANTIC_TRANSFORMS with
    | Some apply => [lchToHexSafe (apply lch)]
    | None => [lchToHexSafe {| L := 0.55; C := Num.max (C lch) 0.18; H := H lch |}]
    end.

(** [HEX_RE = /^#[0-9a-fA-F]{6}$/] *)
Definition HEX_RE_test (s : string) : bool :=
  match s with
  | String "#" h => (String.length h =? 6)%nat && Str.allChars Str.isAnyHex h
  | _ => false
  end.

Fixpoint extractColorFromArray (colors : list string) : string :=
  match colors with
  | [] => "#ff0000"
  | color :: rest => if HEX_RE_test color then color else extractColorFromArray rest
  end.

(** [Object.fromEntries(Object.entries(input).map(...))]; the input is the
    list of its entries. *)
Definition generateRadiumColors (input : RadiumInput) : RadiumOutput :=
  map (fun entry =>
         let '(key, colors) := entry in
         let base := extractColorFromArray colors in
         let lch := hexToLch base in
         (key, generatePalette key lch (List.length colors)))
      input.

(** ** Exported colour utilities *)

(** The channels of [hexToRgb], integers in 0..255. *)
Record RGB255 : Type := mkRGB255 { r255 : Z; g255 : Z; b255 : Z }.

Definition hexToRgb (hex : string) : RGB255 :=
  let c := hexToRgb01 hex in
  {| r255 := Num.roundZ (r c * 255);
     g255 := Num.roundZ (g c * 255);
     b255 := Num.roundZ (b c * 255) |}.

Definition getLuminance (hex : string) : num :=
  let c := hexToRgb01 hex in
  0.2126 * linearize (r c) + 0.7152 * linearize (g c) + 0.0722 * linearize (b c).

Definition getContrastRatio (hex1 hex2 : string) : num :=
  let l1 := getLuminance hex1 in
  let l2 := getLuminance hex2 in
  (Num.max l1 l2 + 0.05) / (Num.min l1 l2 + 0.05).

Definition getReadableTextColor (bg : string) : string :=
  if getLuminance bg >? 0.179 then "#000000" else "#ffffff".

(** The round trip of the specification: OKLCH to clamped sRGB and back. *)
Definition toRgb (lch : LCH) : RGB := oklabToRgb (oklchToOklab lch).
Definition toOklch (c : RGB) : LCH := oklabToOklch (rgbToOklab c).

End WithMath.

(** Shortest distance between two hue angles, in degrees. *)
Definition hueDistance (h1 h2 : num) : num :=
  let d := Num.abs (h1 - h2) mod 360 in
  if d >? 180 then 360 - d else d.

End Radium.

(* ================================================================== *)
(** * ImageGenerator.ts *)
(* ================================================================== *)

(** [Math.random()]: the stream of the values the host hands out, read at
    a position that every call advances. *)
Definition Rand : Type := nat -> num.

Module Image.

Open Scope string_scope.
Open Scope Q_scope.
Open Scope js_scope.

Record RGB : Type := mkRGB { r : num; g : num; b : num }.
Record Lab : Type := mkLab { L : num; a : num; b' : num }.

Record PixelSample : Type := mkPixelSample { rgbs : list RGB; labs : list Lab }.

Record ImageGeneratorInput : Type := mkInput { square : option (list string) }.

Record ImageGeneratorOutput : Type := mkOutput {
  kmeans : list string;
  medianCut : list string;
  dominant : list string;
  vibrant : list string;
  muted : list string;
  octree : list string;
  colorMoments : list string;
  neuralQuant : list string;
  histogram : list string;
  deltaE : list string
}.

Section WithMath.
Context {M : MathLib}.

Definition linearize (c : num) : num :=
  if c <=? 0.04045 then c / 12.92 else Math_pow ((c + 0.055) / 1.055) 2.4.

Definition delinearize (c : num) : num :=
  if c <=? 0.0031308 then 12.92 * c else 1.055 * Math_pow c (1 / 2.4) - 0.055.

Definition clamp01 (v : num) : num := Num.max 0 (Num.min 1 v).

Definition rgbToOklab (c : RGB) : Lab :=
  let lr := linearize (r c) in
  let lg := linearize (g c) in
  let lb := linearize (b c) in
  let l := Math_cbrt (0.4122214708 * lr + 0.5363325363 * lg + 0.0514459929 * lb) in
  let m := Math_cbrt (0.2119034982 * lr + 0.6806995451 * lg + 0.1073969566 * lb) in
  let s := Math_cbrt (0.0883024619 * lr + 0.2817188376 * lg + 0.6299787005 * lb) in
  {| L := 0.2104542553 * l + 0.793617785 * m - 0.0040720468 * s;
     a := 1.9779984951 * l - 2.428592205 * m + 0.4505937099 * s;
     b' := 0.0259040371 * l + 0.7827717662 * m - 0.808675766 * s |}.

Definition oklabToRgb (lab : Lab) : RGB :=
  let l := L lab + 0.3963377774 * a lab + 0.2158037573 * b' lab in
  let m := L lab - 0.1055613458 * a lab - 0.0638541728 * b' lab in
  let s := L lab - 0.0894841775 * a lab - 1.291485548 * b' lab in
  let l3 := l * l * l in
  let m3 := m * m * m in
  let s3 := s * s * s in
  {| r := clamp01 (delinearize (4.0767416621 * l3 - 3.3077115913 * m3 + 0.2309699292 * s3));
     g := clamp01 (delinearize (-1.2684380046 * l3 + 2.6097574011 * m3 - 0.3413193965 * s3));
     b := clamp01 (delinearize (-0.0041960863 * l3 - 0.7034186147 * m3 + 1.707614701 * s3)) |}.

Definition sq (x : num) : num := x * x.

Definition labDist2 (p q : Lab) : num :=
  sq (L p - L q) + sq (a p - a q) + sq (b' p - b' q).

Definition labChroma (lab : Lab) : num := Math_sqrt (a lab * a lab + b' lab * b' lab).

Definition hexByte (i : nat) (hex : string) : num :=
  match Str.parseInt16 (Str.slice i (i + 2) hex) with
  | Some z => Num.ofZ z / 255
  | None => 0
  end.

Definition hexToRgb (hex : string) : RGB :=
  {| r := hexByte 1 hex; g := hexByte 3 hex; b := hexByte 5 hex |}.

Definition rgbToHex (c : RGB) : string :=
  let f := fun c => Str.padStart2 (Str.toString16 (Num.roundZ (c * 255))) in
  "#" ++ f (r c) ++ f (g c) ++ f (b c).

Definition labToHex (lab : Lab) : string := rgbToHex (oklabToRgb lab).

(** ** Padding to exactly [k] results *)

Definition withL (lab : Lab) (l : num) : Lab := {| L := l; a := a lab; b' := b' lab |}.

(** The [while (result.length < k)] loop of [padToK]. *)
Fixpoint padLoop (fuel : nat) (base : Lab) (k : nat) (result : list Lab) : list Lab :=
  match fuel with
  | O => result
  | S f =>
      if (List.length result <? k)%nat then
        let t := Num.ofNat (List.length result) / Num.ofNat k in
        padLoop f base k (result ++ [withL base (clamp01 (0.2 + t * 0.6))])%list
      else result
  end.

Definition padToK (labs : list Lab) (k : nat) : list Lab :=
  if (k <=? List.length labs)%nat then firstn k labs
  else
    let base := last labs {| L := 0.5; a := 0; b' := 0 |} in
    padLoop (k - List.length labs) base k labs.

Fixpoint padRgbLoop (fuel : nat) (k : nat) (result : list RGB) : list RGB :=
  match fuel with
  | O => result
  | S f =>
      if (List.length result <? k)%nat then
        let t := Num.ofNat (List.length result) / Num.ofNat k in
        padRgbLoop f k (result ++ [{| r := t; g := t; b := t |}])%list
      else result
  end.

Definition padRgbToK (rgbs : list RGB) (k : nat) : list RGB :=
  if (k <=? List.length rgbs)%nat then firstn k rgbs
  else padRgbLoop (k - List.length rgbs) k rgbs.

(** ** Pixel sampling *)

(** [data[j]] of a [Uint8ClampedArray]; [None] is [undefined]. *)
Definition at_ (data : list Z) (j : nat) : option Z := nth_error data j.

(** [data[j] / 255]; an index past the end (NaN in the source) reads as 0. *)
Definition channel (data : list Z) (j : nat) : num :=
  match at_ data j with
  | Some v => Num.ofZ v / 255
  | None => 0
  end.

(** [data[i + 3] < 128]; the comparison with [undefined] is false. *)
Definition alphaBelow128 (data : list Z) (i : nat) : bool :=
  match at_ data (i + 3) with
  | Some v => (v <? 128)%Z
  | None => false
  end.

(** The [for (i = 0; i < data.length; i += 4 * step)] loop. *)
Fixpoint sampleLoop (fuel : nat) (i stride : nat) (data : list Z) : list RGB :=
  match fuel with
  | O => []
  | S f =>
      if (i <? List.length data)%nat then
        if alphaBelow128 data i then sampleLoop f (i + stride) stride data
        else {| r := channel data i; g := channel data (i + 1); b := channel data (i + 2) |}
             :: sampleLoop f (i + stride) stride data
      else []
  end.

Definition samplePixels (data : list Z) (maxPixels : nat) : PixelSample :=
  let step := Nat.max 1 (List.length data / 4 / maxPixels) in
  let px := sampleLoop (S (List.length data)) 0 (4 * step) data in
  {| rgbs := px; labs := map rgbToOklab px |}.

(** ** Synthetic pixels from the hint colours *)

(** Storing into a [Uint8ClampedArray]: round to nearest (halves to even),
    then clamp to 0..255. *)
Definition toUint8Clamp (x : num) : Z :=
  let f := Num.floorZ x in
  let d := x - Num.ofZ f in
  let n := if d <? 0.5 then f
           else if d >? 0.5 then (f + 1)%Z
           else if Z.even f then f else (f + 1)%Z in
  Z.max 0 (Z.min 255 n).

(** One synthetic pixel: three noisy channels and an opaque alpha. *)
Definition syntheticPixel (rnd : Rand) (pos : nat) (c : RGB) : list Z :=
  let n := fun j => (rnd (pos + j)%nat - 0.5) * 30 in
  [ toUint8Clamp (Num.ofZ (Num.roundZ (clamp01 (r c) * 255 + n 0%nat)));
    toUint8Clamp (Num.ofZ (Num.roundZ (clamp01 (g c) * 255 + n 1%nat)));
    toUint8Clamp (Num.ofZ (Num.roundZ (clamp01 (b c) * 255 + n 2%nat)));
    255%Z ].

Fixpoint syntheticRun (count : nat) (rnd : Rand) (pos : nat) (c : RGB) : list Z * nat :=
  match count with
  | O => ([], pos)
  | S m =>
      let px := syntheticPixel rnd pos c in
      let '(rest, pos') := syntheticRun m rnd (pos + 3) c in
      ((px ++ rest)%list, pos')
  end.

Fixpoint syntheticPixels (rnd : Rand) (pos : nat) (colors : list string) : list Z * nat :=
  match colors with
  | [] => ([], pos)
  | hex :: rest =>
      let '(buf, pos1) := syntheticRun 800 rnd pos (hexToRgb hex) in
      let '(bufs, pos2) := syntheticPixels rnd pos1 rest in
      ((buf ++ bufs)%list, pos2)
  end.

(** ** K-Means++ *)

(** [labs.filter(lab => Math.random() <= rate(chroma))]: one draw per pixel. *)
Fixpoint subsample (rnd : Rand) (pos : nat) (labs : list Lab) : list Lab * nat :=
  match labs with
  | [] => ([], pos)
  | lab :: rest =>
      let c := labChroma lab in
      let keep := rnd pos <=? (if c <? 0.05 then 0.2 else if c <? 0.15 then 0.6 else 1.0) in
      let '(kept, pos') := subsample rnd (S pos) rest in
      (if keep then lab :: kept else kept, pos')
  end.

(** [Math.min(...xs)] of a non-empty list. *)
Definition minOf (x : num) (xs : list num) : num := fold_left Num.min xs x.

Definition distToNearest (centroids : list Lab) (p : Lab) : num :=
  match map (labDist2 p) centroids with
  | [] => 0
  | d :: ds => minOf d ds
  end.

Definition sum (xs : list num) : num := fold_left Num.add xs 0.

(** The inner loop of the seeding: the first index at which the running
    remainder drops to zero or below; 0 when it never does. *)
Fixpoint chooseIndex (rand : num) (i : nat) (dists : list num) : nat :=
  match dists with
  | [] => 0%nat
  | d :: rest =>
      let rand' := rand - d in
      if rand' <=? 0 then i else chooseIndex rand' (S i) rest
  end.

(** The seeding loop [for (ci = 1; ci < k; ci++)], run [count] times. *)
Fixpoint seedMore (count : nat) (rnd : Rand) (pos : nat) (pool centroids : list Lab)
  : completion (list Lab * nat) :=
  match count with
  | O => Return (centroids, pos)
  | S m =>
      let dists := map (distToNearest centroids) pool in
      let rand := rnd pos * sum dists in
      let chosen := chooseIndex rand 0 dists in
      match nth_error pool chosen with
      | Some p => seedMore m rnd (S pos) pool (centroids ++ [p])%list
      | None => Throw (TypeError "Cannot read properties of undefined")
      end
  end.

(** The index of the nearest of the first [k] centroids: the first strict
    minimum, 0 when there is none to compare. *)
Fixpoint nearestFrom (p : Lab) (cs : list Lab) (ci best : nat) (bd : option num) : nat :=
  match cs with
  | [] => best
  | c :: rest =>
      let d := labDist2 p c in
      let closer := match bd with None => true | Some v => d <? v end in
      if closer then nearestFrom p rest (S ci) ci (Some d)
      else nearestFrom p rest (S ci) best bd
  end.

Definition nearest (k : nat) (centroids : list Lab) (p : Lab) : nat :=
  nearestFrom p (firstn k centroids) 0 0 None.

(** The members of cluster [ci]. *)
Definition members (pool : list Lab) (assignments : list nat) (ci : nat) : list Lab :=
  map fst (filter (fun pa => (snd pa =? ci)%nat) (combine pool assignments)).

Definition mean (ps : list Lab) : Lab :=
  let n := Num.ofNat (List.length ps) in
  {| L := sum (map L ps) / n; a := sum (map a ps) / n; b' := sum (map b' ps) / n |}.

(** The centroid update: cluster [ci] moves to the mean of its members when
    it has any. *)
Definition recentre (pool : list Lab) (assignments : list nat) (centroids : list Lab)
  : list Lab :=
  map (fun cc =>
         let '(ci, c) := cc in
         match members pool assignments ci with
         | [] => c
         | ps => mean ps
         end)
      (combine (seq 0 (List.length centroids)) centroids).

Definition sameAssignments (xs ys : list nat) : bool :=
  forallb (fun xy => (fst xy =? snd xy)%nat) (combine xs ys).

(** The main loop [for (iter = 0; iter < maxIter; iter++)]. *)
Fixpoint iterate (fuel : nat) (k : nat) (pool centroids : list Lab) (assignments : list nat)
  : list Lab * list nat :=
  match fuel with
  | O => (centroids, assignments)
  | S f =>
      let best := map (nearest k centroids) pool in
      if sameAssignments assignments best then (centroids, assignments)
      else iterate f k pool (recentre pool best centroids) best
  end.

Definition byScoreDesc (x y : Lab * num) : num := snd y - snd x.

(** Everything [kMeansCore] does between its test for an empty sample and
    its final call of [padToK]: the centroids, ranked by score. *)
Definition kMeansClusters (rnd : Rand) (pos : nat) (labs : list Lab) (k : nat)
  (maxIter : nat) : completion (list Lab * nat) :=
  let '(pixels, pos1) := subsample rnd pos labs in
  let pool := if (k <=? List.length pixels)%nat then pixels else labs in
  let n := List.length pool in
  let first := Num.floorZ (rnd pos1 * Num.ofNat n) in
  match (if (first <? 0)%Z then None else nth_error pool (Z.to_nat first)) with
  | None => Throw (TypeError "Cannot read properties of undefined")
  | Some c0 =>
      let* seeded := seedMore (k - 1) rnd (S pos1) pool [c0] in
      let '(centroids0, pos2) := seeded in
      let '(centroids, assignments) :=
        iterate maxIter k pool centroids0 (repeat 0%nat n) in
      let counts := fun ci => Num.ofNat (count_occ Nat.eq_dec assignments ci) in
      let scored :=
        map (fun cc => (snd cc, counts (fst cc) * (1 + 3 * labChroma (snd cc))))
            (combine (seq 0 (List.length centroids)) centroids) in
      Return (map fst (sortBy byScoreDesc scored), pos2)
  end.

Definition kMeansCore (rnd : Rand) (pos : nat) (labs : list Lab) (k : nat) (maxIter : nat)
  : completion (list Lab * nat) :=
  match labs with
  | [] => Return ([], pos)
  | _ :: _ =>
      let* ranked := kMeansClusters rnd pos labs k maxIter in
      Return (padToK (fst ranked) k, snd ranked)
  end.

Definition vibrantAlgo (rnd : Rand) (pos : nat) (labs : list Lab) (k : nat)
  : completion (list Lab * nat) :=
  let vivid := filter (fun lab => (labChroma lab >? 0.1) && (L lab >? 0.25) && (L lab <? 0.85))
                      labs in
  kMeansCore rnd pos (if (k <=? List.length vivid)%nat then vivid else labs) k 25.

Definition mutedAlgo (rnd : Rand) (pos : nat) (labs : list Lab) (k : nat)
  : completion (list Lab * nat) :=
  let soft := filter (fun lab =>
                        let c := labChroma lab in
                        (c >=? 0.02) && (c <=? 0.09) && (L lab >? 0.2) && (L lab <? 0.9))
                     labs in
  kMeansCore rnd pos (if (k <=? List.length soft)%nat then soft else labs) k 25.

(** ** The main generator *)

(** The seven extractors that the properties below do not depend on: they
    run only after the test for an empty sample. *)
Record Extractors : Type := mkExtractors {
  medianCutAlgo : list RGB -> nat -> list RGB;
  dominantAlgo : list RGB -> nat -> list RGB;
  octreeAlgo : list RGB -> nat -> list RGB;
  colorMomentsAlgo : list Lab -> nat -> list Lab;
  neuralQuantAlgo : Rand -> nat -> list Lab -> nat -> completion (list Lab * nat);
  histogramAlgo : list Lab -> nat -> list Lab;
  deltaEAlgo : list Lab -> nat -> list Lab
}.

Variable X : Extractors.

Definition generateImagePalettes (rnd : Rand) (pos : nat) (input : ImageGeneratorInput)
  (k : nat) (data : option (list Z)) : completion (ImageGeneratorOutput * nat) :=
  let '(pixelData, pos0) :=
    match data with
    | Some d => (d, pos)
    | None => syntheticPixels rnd pos (match square input with
                                       | Some cs => cs
                                       | None => ["#888888"]
                                       end)
    end in
  let sample := samplePixels pixelData 6000 in
  if (List.length (labs sample) =? 0)%nat then
    let empty := repeat "#000000" k in
    Return ({| kmeans := empty; medianCut := empty; dominant := empty; vibrant := empty;
               muted := empty; octree := empty; colorMoments := empty;
               neuralQuant := empty; histogram := empty; deltaE := empty |}, pos0)
  else
    let* km := kMeansCore rnd pos0 (labs sample) k 25 in
    let* vi := vibrantAlgo rnd (snd km) (labs sample) k in
    let* mu := mutedAlgo rnd (snd vi) (labs sample) k in
    let* nq := neuralQuantAlgo X rnd (snd mu) (labs sample) k in
    Return ({| kmeans := map labToHex (fst km);
               medianCut := map rgbToHex (medianCutAlgo X (rgbs sample) k);
               dominant := map rgbToHex (dominantAlgo X (rgbs sample) k);
               vibrant := map labToHex (fst vi);
               muted := map labToHex (fst mu);
               octree := map rgbToHex (octreeAlgo X (rgbs sample) k);
               colorMoments := map labToHex (colorMomentsAlgo X (labs sample) k);
               neuralQuant := map labToHex (fst nq);
               histogram := map labToHex (histogramAlgo X (labs sample) k);
               deltaE := map labToHex (deltaEAlgo X (labs sample) k) |}, snd nq).

End WithMath.
End Image.

(** ** The extractors that read the sample only *)

(** [medianCutAlgo], [dominantAlgo], [colorMomentsAlgo] and [deltaEAlgo] of
    ImageGenerator.ts.  They draw no random number. *)
Module Extract.

Import Image.
Open Scope string_scope.
Open Scope Q_scope.
Open Scope js_scope.

(** A number or one of the two infinities the loops start from. *)
Inductive ext : Type :=
| NegInf
| Fin (x : num)
| PosInf.

(** [x > y] on such values. *)
Definition ext_gt (x y : ext) : bool :=
  match x, y with
  | NegInf, _ => false
  | _, PosInf => false
  | Fin a, Fin b => a >? b
  | Fin _, NegInf => true
  | PosInf, _ => true
  end.

(** [Math.min(x, y)] *)
Definition ext_min (x : ext) (y : num) : ext :=
  match x with
  | NegInf => NegInf
  | Fin a => Fin (Num.min a y)
  | PosInf => Fin y
  end.

(** [x === 0] *)
Definition ext_isZero (x : ext) : bool :=
  match x with
  | Fin a => a =? 0
  | _ => false
  end.

Section WithMath.
Context {M : MathLib}.

(** *** 2. Median cut *)

(** The six running bounds of [splitBox]. *)
Record Bounds : Type := mkBounds {
  rn : num; rx : num; gn : num; gx : num; bn : num; bx : num
}.

Definition scanBounds (pixels : list RGB) : Bounds :=
  fold_left
    (fun s p => {| rn := Num.min (rn s) (r p); rx := Num.max (rx s) (r p);
                   gn := Num.min (gn s) (g p); gx := Num.max (gx s) (g p);
                   bn := Num.min (bn s) (b p); bx := Num.max (bx s) (b p) |})
    pixels {| rn := 1; rx := 0; gn := 1; gx := 0; bn := 1; bx := 0 |}.

Inductive Axis : Type := axisR | axisG | axisB.

Definition widestAxis (s : Bounds) : Axis :=
  if (rx s - rn s >=? gx s - gn s) && (rx s - rn s >=? bx s - bn s) then axisR
  else if gx s - gn s >=? bx s - bn s then axisG
  else axisB.

(** [p[axis]] *)
Definition along (axis : Axis) (p : RGB) : num :=
  match axis with
  | axisR => r p
  | axisG => g p
  | axisB => b p
  end.

Definition byAxis (axis : Axis) (p q : RGB) : num := along axis p - along axis q.

Definition splitBox (pixels : list RGB) : list RGB * list RGB :=
  let axis := widestAxis (scanBounds pixels) in
  let sorted := sortBy (byAxis axis) pixels in
  let mid := (List.length sorted / 2)%nat in
  (firstn mid sorted, skipn mid sorted).

Definition byPixelsDesc (p q : list RGB) : num :=
  Num.ofNat (List.length q) - Num.ofNat (List.length p).

(** The loop [while (boxes.length < k)]: sort by size, stop at a largest box
    of fewer than two pixels, else replace it by its two halves. *)
Fixpoint cutLoop (fuel : nat) (k : nat) (boxes : list (list RGB))
  : completion (list (list RGB)) :=
  match fuel with
  | O => Return boxes
  | S f =>
      if (List.length boxes <? k)%nat then
        match sortBy byPixelsDesc boxes with
        | [] => Throw (TypeError "Cannot read properties of undefined")
        | box :: rest =>
            if (List.length box <? 2)%nat then Return (box :: rest)
            else
              let '(lower, upper) := splitBox box in
              cutLoop f k (rest ++ [lower; upper])%list
        end
      else Return boxes
  end.

Definition sumOf (f : RGB -> num) (pixels : list RGB) : num :=
  fold_left (fun s p => s + f p) pixels 0.

Definition boxMean (pixels : list RGB) : RGB :=
  let n := Num.ofNat (List.length pixels) in
  {| r := sumOf r pixels / n; g := sumOf g pixels / n; b := sumOf b pixels / n |}.

Definition medianCutAlgo (rgbs : list RGB) (k : nat) : completion (list RGB) :=
  match rgbs with
  | [] => Return (padRgbToK [] k)
  | _ :: _ =>
      let* boxes := cutLoop k k [rgbs] in
      Return (padRgbToK (map boxMean boxes) k)
  end.

(** *** 3. Dominant *)

(** [Math.round(x * 7) / 7] *)
Definition quantize (x : num) : num := Num.ofZ (Num.roundZ (x * 7)) / 7.

Record Entry : Type := mkEntry { e_rgb : RGB; e_count : nat }.

(** Two colours have the same key [`${r},${g},${b}`] exactly when their
    channels are the same numbers. *)
Definition sameKey (p q : RGB) : bool :=
  (r p =? r q) && (g p =? g q) && (b p =? b q).

(** [map.get(key)] followed by the increment or by [map.set]: a [Map] keeps
    its entries in the order of their first insertion. *)
Fixpoint countIn (q : RGB) (m : list Entry) : list Entry :=
  match m with
  | [] => [{| e_rgb := q; e_count := 1 |}]
  | e :: rest =>
      if sameKey q (e_rgb e) then {| e_rgb := e_rgb e; e_count := S (e_count e) |} :: rest
      else e :: countIn q rest
  end.

Definition tally (rgbs : list RGB) : list Entry :=
  fold_left
    (fun m p => countIn {| r := quantize (r p); g := quantize (g p); b := quantize (b p) |} m)
    rgbs [].

Definition byCountDesc (x y : Entry) : num :=
  Num.ofNat (e_count y) - Num.ofNat (e_count x).

Definition dominantAlgo (rgbs : list RGB) (k : nat) : list RGB :=
  padRgbToK (map e_rgb (firstn k (sortBy byCountDesc (tally rgbs)))) k.

(** *** 7. Colour moments *)

(** [labs.reduce((s, l) => s + (f(l) - m) ** e, 0) / n] *)
Definition centralMoment (f : Lab -> num) (m e : num) (labs : list Lab) (n : num) : num :=
  fold_left (fun s l => s + Math_pow (f l - m) e) labs 0 / n.

Definition meanOf (f : Lab -> num) (labs : list Lab) (n : num) : num :=
  fold_left (fun s l => s + f l) labs 0 / n.

Definition colorMomentsAlgo (labs : list Lab) (k : nat) : list Lab :=
  match labs with
  | [] => padToK [] k
  | _ :: _ =>
      let n := Num.ofNat (List.length labs) in
      let mL := meanOf L labs n in
      let mA := meanOf a labs n in
      let mB := meanOf b' labs n in
      let sL := Math_sqrt (centralMoment L mL 2 labs n) in
      let sA := Math_sqrt (centralMoment a mA 2 labs n) in
      let sB := Math_sqrt (centralMoment b' mB 2 labs n) in
      let kL := Math_cbrt (centralMoment L mL 3 labs n) in
      let kA := Math_cbrt (centralMoment a mA 3 labs n) in
      let kB := Math_cbrt (centralMoment b' mB 3 labs n) in
      map (fun i =>
             let t := if (k =? 1)%nat then 0
                      else Num.ofNat i / (Num.ofNat k - 1) * 2 - 1 in
             {| L := clamp01 (mL + t * sL + (t * t - 1 / 3) * kL * 0.3);
                a := clamp01 (mA + t * sA + (t * t - 1 / 3) * kA * 0.3);
                b' := clamp01 (mB + t * sB + (t * t - 1 / 3) * kB * 0.3) |})
          (seq 0 k)
  end.

(** *** 10. Delta-E *)

(** [labs.filter((_, i) => i % step === 0)], from index [i]. *)
Fixpoint everyNth (step i : nat) (labs : list Lab) : list Lab :=
  match labs with
  | [] => []
  | lab :: rest =>
      if (i mod step =? 0)%nat then lab :: everyNth step (S i) rest
      else everyNth step (S i) rest
  end.

(** [cands.reduce((best, lab) => labChroma(lab) > labChroma(best) ? lab : best)] *)
Definition mostChromatic (first : Lab) (rest : list Lab) : Lab :=
  fold_left (fun best lab => if labChroma lab >? labChroma best then lab else best)
            rest first.

(** [selected.reduce((min, s) => Math.min(min, labDist2(c, s)), Infinity)] *)
Definition minDist (c : Lab) (selected : list Lab) : ext :=
  fold_left (fun mn s => ext_min mn (labDist2 c s)) selected PosInf.

(** The [for (const c of cands)] scan for the candidate farthest from the
    selection. *)
Definition farthestFrom (selected cands : list Lab) (first : Lab) : Lab * ext :=
  fold_left
    (fun acc c =>
       let minD := minDist c selected in
       if ext_gt minD (snd acc) then (c, minD) else acc)
    cands (first, NegInf).

(** The loop [while (selected.length < k)]. *)
Fixpoint selectLoop (fuel : nat) (k : nat) (cands : list Lab) (first : Lab)
  (selected : list Lab) : list Lab :=
  match fuel with
  | O => selected
  | S f =>
      if (List.length selected <? k)%nat then
        let '(farthest, fd) := farthestFrom selected cands first in
        if ext_isZero fd then selected
        else selectLoop f k cands first (selected ++ [farthest])%list
      else selected
  end.

Definition deltaEAlgo (labs : list Lab) (k : nat) : completion (list Lab) :=
  match labs with
  | [] => Return (padToK [] k)
  | _ :: _ =>
      let step := Nat.max 1 (List.length labs / 2000) in
      match everyNth step 0 labs with
      | [] => Throw (TypeError "Reduce of empty array with no initial value")
      | first :: rest =>
          let seed := mostChromatic first rest in
          Return (padToK (selectLoop k k (first :: rest) first [seed]) k)
      end
  end.

End WithMath.
End Extract.

(* ================================================================== *)
(** * AlgorithmicGenerator.ts: the seeded generators *)
(* ================================================================== *)

Module Algorithmic.

Open Scope string_scope.
Open Scope Q_scope.
Open Scope js_scope.

Record RGB : Type := mkRGB { r : num; g : num; b : num }.
Record Lab : Type := mkLab { labL : num; laba : num; labb : num }.
Record LCH : Type := mkLCH { L : num; C : num; H : num }.

(** ** 32-bit integer operations *)

Definition two32 : Z := 4294967296.

(** [x >>> 0] and [x | 0] on an integer-valued number. *)
Definition toUint32 (x : Z) : Z := (x mod two32)%Z.
Definition toInt32 (x : Z) : Z :=
  let u := toUint32 x in if (u <? 2147483648)%Z then u else (u - two32)%Z.

Definition xor32 (x y : Z) : Z := toInt32 (Z.lxor (toInt32 x) (toInt32 y)).
Definition or32 (x y : Z) : Z := toInt32 (Z.lor (toInt32 x) (toInt32 y)).
Definition and32 (x y : Z) : Z := toInt32 (Z.land (toInt32 x) (toInt32 y)).
(** [x >>> n] *)
Definition ushr32 (x : Z) (n : Z) : Z := Z.shiftr (toUint32 x) n.
(** [Math.imul(x, y)] *)
Definition imul (x y : Z) : Z := toInt32 (toInt32 x * toInt32 y)%Z.

(** ** mulberry32 *)

(** The scrambling of the freshly incremented state into a result. *)
Definition prngOutput (s1 : Z) : num :=
  let z0 := s1 in
  let z1 := imul (xor32 z0 (ushr32 z0 15)) (or32 z0 1) in
  let z2 := xor32 z1 (z1 + imul (xor32 z1 (ushr32 z1 7)) (or32 z1 61))%Z in
  Num.ofZ (toUint32 (xor32 z2 (ushr32 z2 14))) / Num.ofZ two32.

(** One call of the closure that [makePrng] returns: the captured [s] goes in,
    its new value and the result come out. *)
Definition prngCall (s : Z) : Z * num :=
  let s1 := (s + 1831565813)%Z in
  (s1, prngOutput s1).

(** The state a fresh [makePrng(seed)] captures. *)
Definition makePrng (seed : Z) : Z := toUint32 seed.

Definition hexDigitAt (hex : string) (i : nat) : option Z :=
  match String.get i hex with
  | Some c => Str.parseInt16 (String c EmptyString)
  | None => None
  end.

(** One round of the hash; a character that is no digit makes the sum NaN,
    and [NaN | 0] is 0. *)
Definition hashStep (h : Z) (d : option Z) : Z :=
  match d with
  | Some v => toInt32 (imul 31 h + v)%Z
  | None => 0%Z
  end.

Definition seedFromHex (hex : string) : Z :=
  Z.abs (fold_left (fun h i => hashStep h (hexDigitAt hex i)) (seq 1 6) 0%Z).

(** [n] successive calls: the results and the state left behind. *)
Fixpoint draws (n : nat) (s : Z) : list num * Z :=
  match n with
  | O => ([], s)
  | S m =>
      let '(s1, x) := prngCall s in
      let '(xs, s2) := draws m s1 in
      (x :: xs, s2)
  end.

Section WithMath.
Context {M : MathLib}.

Definition linearize (c : num) : num :=
  if c <=? 0.04045 then c / 12.92 else Math_pow ((c + 0.055) / 1.055) 2.4.

Definition delinearize (c : num) : num :=
  if c <=? 0.0031308 then 12.92 * c else 1.055 * Math_pow c (1 / 2.4) - 0.055.

Definition clamp01 (v : num) : num := Num.max 0 (Num.min 1 v).
Definition lerp (a b t : num) : num := a + (b - a) * t.

Definition rgbToOklab (c : RGB) : Lab :=
  let lr := linearize (r c) in
  let lg := linearize (g c) in
  let lb := linearize (b c) in
  let l := Math_cbrt (0.4122214708 * lr + 0.5363325363 * lg + 0.0514459929 * lb) in
  let m := Math_cbrt (0.2119034982 * lr + 0.6806995451 * lg + 0.1073969566 * lb) in
  let s := Math_cbrt (0.0883024619 * lr + 0.2817188376 * lg + 0.6299787005 * lb) in
  {| labL := 0.2104542553 * l + 0.793617785 * m - 0.0040720468 * s;
     laba := 1.9779984951 * l - 2.428592205 * m + 0.4505937099 * s;
     labb := 0.0259040371 * l + 0.7827717662 * m - 0.808675766 * s |}.

Definition oklabToRgb (lab : Lab) : RGB :=
  let l := labL lab + 0.3963377774 * laba lab + 0.2158037573 * labb lab in
  let m := labL lab - 0.1055613458 * laba lab - 0.0638541728 * labb lab in
  let s := labL lab - 0.0894841775 * laba lab - 1.291485548 * labb lab in
  let l3 := l * l * l in
  let m3 := m * m * m in
  let s3 := s * s * s in
  {| r := clamp01 (delinearize (4.0767416621 * l3 - 3.3077115913 * m3 + 0.2309699292 * s3));
     g := clamp01 (delinearize (-1.2684380046 * l3 + 2.6097574011 * m3 - 0.3413193965 * s3));
     b := clamp01 (delinearize (-0.0041960863 * l3 - 0.7034186147 * m3 + 1.707614701 * s3)) |}.

Definition oklabToOklch (lab : Lab) : LCH :=
  {| L := labL lab;
     C := Math_sqrt (laba lab * laba lab + labb lab * labb lab);
     H := (Math_atan2 (labb lab) (laba lab) * 180 / Num.PI + 360) mod 360 |}.

Definition oklchToOklab (lch : LCH) : Lab :=
  {| labL := L lch;
     laba := C lch * Math_cos (H lch * Num.PI / 180);
     labb := C lch * Math_sin (H lch * Num.PI / 180) |}.

Definition hexByte (i : nat) (hex : string) : num :=
  match Str.parseInt16 (Str.slice i (i + 2) hex) with
  | Some z => Num.ofZ z / 255
  | None => 0
  end.

Definition hexToRgb (hex : string) : RGB :=
  {| r := hexByte 1 hex; g := hexByte 3 hex; b := hexByte 5 hex |}.

Definition rgbToHex (c : RGB) : string :=
  let f := fun c => Str.padStart2 (Str.toString16 (Num.roundZ (c * 255))) in
  "#" ++ f (r c) ++ f (g c) ++ f (b c).

Definition hexToLch (hex : string) : LCH := oklabToOklch (rgbToOklab (hexToRgb hex)).
Definition lchToHex (lch : LCH) : string := rgbToHex (oklabToRgb (oklchToOklab lch)).

(** ** random *)

(** The callback of [Array.from] in [randomPalette]: three calls of [rng], in
    the order of the fields L, C, H. *)
Definition randomSwatch (s : Z) : string * Z :=
  let '(s1, x1) := prngCall s in
  let '(s2, x2) := prngCall s1 in
  let '(s3, x3) := prngCall s2 in
  (lchToHex {| L := lerp 0.35 0.75 x1; C := lerp 0.08 0.2 x2; H := x3 * 360 |}, s3).

Fixpoint randomSwatches (n : nat) (s : Z) : list string :=
  match n with
  | O => []
  | S m => let '(hex, s') := randomSwatch s in hex :: randomSwatches m s'
  end.

Definition randomPalette (base : string) (n : nat) : list string :=
  randomSwatches n (makePrng (seedFromHex base)).

(** ** noise *)

Definition smoothstep (t : num) : num := t * t * (3 - 2 * t).

(** The table of [makeValueNoise(seed)]: 256 calls of a fresh generator. *)
Definition noiseTable (seed : Z) : list num := fst (draws 256 (makePrng seed)).

(** The function [makeValueNoise(seed)] returns; an integer and 255 is the
    integer modulo 256. *)
Definition valueNoise (table : list num) (x : num) : num :=
  let xi := (Num.floorZ x mod 256)%Z in
  let xf := x - Num.ofZ (Num.floorZ x) in
  lerp (nth (Z.to_nat xi) table 0) (nth (Z.to_nat ((xi + 1) mod 256)) table 0) (smoothstep xf).


(** ** The other nine generators

    Where a generator computes [i / (n - 1)], a call with [n = 1] divides
    zero by zero in the source; such calls are outside the number model.  *)


Definition labToHex (lab : Lab) : string := rgbToHex (oklabToRgb lab).








(** [Array.from({ length: n }, (_, i) => f i)] *)
Definition arrayFrom {A} (n : nat) (f : nat -> A) : list A := map f (seq 0 n).













(** ** The main generator *)





End WithMath.

(** The [j]-th result ([j] from 0) of a generator seeded with [seed], without
    the state: what the specification calls a generator driven by the seed. *)
Definition mulberry32 (seed : Z) (j : nat) : num :=
  prngOutput (toUint32 seed + Z.of_nat (S j) * 1831565813)%Z.

End Algorithmic.

(* ================================================================== *)
(** * ContrastGenerator.ts: the WCAG-targeted searches *)
(* ================================================================== *)

Module Contrast.

Open Scope string_scope.
Open Scope Q_scope.
Open Scope js_scope.

Record ColorRGB : Type := mkRGB { r : num; g : num; b : num }.
Record HSL : Type := mkHSL { h : num; s : num; l : num }.

Inductive Direction : Type := dark | light.

Definition white : ColorRGB := {| r := 1; g := 1; b := 1 |}.
Definition black : ColorRGB := {| r := 0; g := 0; b := 0 |}.

Definition lerp (a b t : num) : num := a + (b - a) * t.
Definition clamp (v lo hi : num) : num := Num.max lo (Num.min hi v).

Definition hexByte (i : nat) (hex : string) : num :=
  match Str.parseInt16 (Str.slice i (i + 2) hex) with
  | Some z => Num.ofZ z / 255
  | None => 0
  end.

Definition hexToRgb (hex : string) : ColorRGB :=
  {| r := hexByte 1 hex; g := hexByte 3 hex; b := hexByte 5 hex |}.

Definition rgbToHex (c : ColorRGB) : string :=
  let f := fun c =>
    Str.padStart2 (Str.toString16 (Z.max 0 (Z.min 255 (Num.roundZ (c * 255))))) in
  "#" ++ f (r c) ++ f (g c) ++ f (b c).

Definition max3 (x y z : num) : num := Num.max (Num.max x y) z.
Definition min3 (x y z : num) : num := Num.min (Num.min x y) z.

Definition rgbToHsl (c : ColorRGB) : HSL :=
  let mx := max3 (r c) (g c) (b c) in
  let mn := min3 (r c) (g c) (b c) in
  let l := (mx + mn) / 2 in
  if mx =? mn then {| h := 0; s := 0; l := l |}
  else
    let d := mx - mn in
    let s := d / (if l >? 0.5 then 2 - mx - mn else mx + mn) in
    let h :=
      if mx =? r c then (g c - b c) / d + (if g c <? b c then 6 else 0)
      else if mx =? g c then (b c - r c) / d + 2
      else (r c - g c) / d + 4 in
    {| h := h * 60; s := s; l := l |}.

Definition hslToRgb (x : HSL) : ColorRGB :=
  let c := (1 - Num.abs (2 * l x - 1)) * s x in
  let x' := c * (1 - Num.abs (((h x / 60) mod 2) - 1)) in
  let m := l x - c / 2 in
  let '(r0, g0, b0) :=
    if h x <? 60 then (c, x', 0)
    else if h x <? 120 then (x', c, 0)
    else if h x <? 180 then (0, c, x')
    else if h x <? 240 then (0, x', c)
    else if h x <? 300 then (x', 0, c)
    else (c, 0, x') in
  {| r := r0 + m; g := g0 + m; b := b0 + m |}.

Definition withL (x : HSL) (v : num) : HSL := {| h := h x; s := s x; l := v |}.

Section WithMath.
Context {M : MathLib}.

Definition linearize (c : num) : num :=
  if c <=? 0.04045 then c / 12.92 else Math_pow ((c + 0.055) / 1.055) 2.4.

Definition relativeLuminance (c : ColorRGB) : num :=
  0.2126 * linearize (r c) + 0.7152 * linearize (g c) + 0.0722 * linearize (b c).

Definition wcagContrastRatio (c1 c2 : ColorRGB) : num :=
  let l1 := relativeLuminance c1 in
  let l2 := relativeLuminance c2 in
  (Num.max l1 l2 + 0.05) / (Num.min l1 l2 + 0.05).

Definition passes (c reference : ColorRGB) (targetRatio : num) : bool :=
  wcagContrastRatio c reference >=? targetRatio.

(** The "search darker" loop: a passing midpoint becomes [best] and the new
    upper bound. *)
Fixpoint searchDarker (n : nat) (hsl : HSL) (reference : ColorRGB) (target : num)
  (lo hi : num) (best : option ColorRGB) : option ColorRGB :=
  match n with
  | O => best
  | S m =>
      let mid := (lo + hi) / 2 in
      let candidate := hslToRgb (withL hsl mid) in
      if passes candidate reference target
      then searchDarker m hsl reference target lo mid (Some candidate)
      else searchDarker m hsl reference target mid hi best
  end.

(** The "search lighter" loop: a passing midpoint becomes [best] and the new
    lower bound. *)
Fixpoint searchLighter (n : nat) (hsl : HSL) (reference : ColorRGB) (target : num)
  (lo hi : num) (best : option ColorRGB) : option ColorRGB :=
  match n with
  | O => best
  | S m =>
      let mid := (lo + hi) / 2 in
      let candidate := hslToRgb (withL hsl mid) in
      if passes candidate reference target
      then searchLighter m hsl reference target mid hi (Some candidate)
      else searchLighter m hsl reference target lo mid best
  end.

(** [best && wcagContrastRatio(best, reference) >= targetRatio] *)
Definition accepted (best : option ColorRGB) (reference : ColorRGB) (target : num) : bool :=
  match best with
  | Some c => passes c reference target
  | None => false
  end.

Definition nearestExtreme (reference : ColorRGB) : ColorRGB :=
  if wcagContrastRatio black reference >=? wcagContrastRatio white reference
  then black else white.

Definition adjustToWcagRatio (color reference : ColorRGB) (targetRatio : num)
  (maxIter : nat) : ColorRGB :=
  if passes color reference targetRatio then color
  else
    let hsl := rgbToHsl color in
    let best1 := searchDarker maxIter hsl reference targetRatio 0 (l hsl) None in
    match (if accepted best1 reference targetRatio then best1 else None) with
    | Some c => c
    | None =>
        let best2 := searchLighter maxIter hsl reference targetRatio (l hsl) 1 best1 in
        match (if accepted best2 reference targetRatio then best2 else None) with
        | Some c => c
        | None => nearestExtreme reference
        end
    end.

(** The loop of [adjustToWcagRatioFromL]: a passing midpoint moves the bound
    on the far side from [startL]. *)
Fixpoint searchFromL (n : nat) (hue sat : num) (reference : ColorRGB) (target : num)
  (direction : Direction) (lo hi : num) (best : option ColorRGB) : option ColorRGB :=
  match n with
  | O => best
  | S m =>
      let mid := (lo + hi) / 2 in
      let candidate := hslToRgb {| h := hue; s := sat; l := mid |} in
      if passes candidate reference target then
        match direction with
        | dark => searchFromL m hue sat reference target direction mid hi (Some candidate)
        | light => searchFromL m hue sat reference target direction lo mid (Some candidate)
        end
      else
        match direction with
        | dark => searchFromL m hue sat reference target direction lo mid best
        | light => searchFromL m hue sat reference target direction mid hi best
        end
  end.

Definition adjustToWcagRatioFromL (hue sat startL : num) (reference : ColorRGB)
  (targetRatio : num) (direction : Direction) (maxIter : nat) : ColorRGB :=
  let lo := match direction with dark => 0 | light => startL end in
  let hi := match direction with dark => startL | light => 1 end in
  let best := searchFromL maxIter hue sat reference targetRatio direction lo hi None in
  match (if accepted best reference targetRatio then best else None) with
  | Some c => c
  | None => nearestExtreme reference
  end.

(** ** The three WCAG-targeted blocks of [generateContrastPalettes] *)

(** [Math.ceil(x / 2)] for a count [x]. *)
Definition halfUp (x : nat) : nat := (x + 1) / 2.

(** Slot [i] of [accessible]: the candidate, its pair, and the target. *)
Definition accessibleCandidate (hsl : HSL) (x i : nat) : ColorRGB :=
  let half := Num.ofNat (halfUp x) in
  let lt :=
    if Nat.even i then lerp 0.05 0.35 (Num.ofNat i / 2 / half)
    else lerp 0.88 0.98 (Num.ofNat (i / 2) / half) in
  hslToRgb {| h := h hsl; s := s hsl * 0.6; l := lt |}.

Definition accessiblePair (hsl : HSL) (i : nat) : ColorRGB :=
  if Nat.even i then hslToRgb {| h := h hsl; s := s hsl * 0.1; l := 0.96 |}
  else hslToRgb {| h := h hsl; s := s hsl * 0.8; l := 0.15 |}.

Definition accessibleColor (hsl : HSL) (x i : nat) : ColorRGB :=
  adjustToWcagRatio (accessibleCandidate hsl x i) (accessiblePair hsl i) 4.5 48.

Definition accessible (hsl : HSL) (x : nat) : list string :=
  map (fun i => rgbToHex (accessibleColor hsl x i)) (seq 0 x).

(** The target table of [wcag]: background, ratio, starting lightness. *)
Definition wcagTargets : list (ColorRGB * num * num) :=
  [ (white, 4.5, 0.2); (white, 7, 0.1); (black, 4.5, 0.8); (black, 7, 0.9) ].

Definition wcagTarget (i : nat) : ColorRGB * num * num :=
  nth (i mod 4) wcagTargets (white, 4.5, 0.2).

Definition wcagColor (hsl : HSL) (i : nat) : ColorRGB :=
  let '(bg, ratio, startL) := wcagTarget i in
  let cycle := Num.ofNat (i / 4) in
  let sFactor := clamp (1 - cycle * 0.3) 0 1 in
  let lShift := cycle * (if startL <? 0.5 then 0.08 else -0.08) in
  let candidate :=
    hslToRgb {| h := h hsl; s := s hsl * sFactor; l := clamp (startL + lShift) 0 1 |} in
  adjustToWcagRatio candidate bg ratio 48.

Definition wcag (hsl : HSL) (x : nat) : list string :=
  map (fun i => rgbToHex (wcagColor hsl i)) (seq 0 x).

Definition highContrastColor (hsl : HSL) (x i : nat) : ColorRGB :=
  let darkSlots := halfUp x in
  let lightSlots := (x - darkSlots)%nat in
  if (i <? darkSlots)%nat then
    let t := Num.ofNat i / Num.max (Num.ofNat darkSlots - 1) 1 in
    let startL := lerp 0.05 0.28 t in
    let sat := clamp (lerp (s hsl) 0 t) 0 1 in
    adjustToWcagRatioFromL (h hsl) sat startL white 7 dark 48
  else
    let j := (i - darkSlots)%nat in
    let t := Num.ofNat j / Num.max (Num.ofNat lightSlots - 1) 1 in
    let startL := lerp 0.65 0.98 t in
    let sat := clamp (s hsl * 0.7) 0.2 0.8 in
    adjustToWcagRatioFromL (h hsl) sat startL black 7 light 48.

Definition highContrast (hsl : HSL) (x : nat) : list string :=
  map (fun i => rgbToHex (highContrastColor hsl x i)) (seq 0 x).

(** The reference colour and the target ratio of a slot. *)
Definition highContrastReference (x i : nat) : ColorRGB :=
  if (i <? halfUp x)%nat then white else black.

(** [Object.values(input).find(v => Array.isArray(v) && v.length > 0)] *)
Definition firstNonEmpty (input : list (string * list string)) : option (list string) :=
  find (fun v => (0 <? List.length v)%nat) (map snd input).

Record WcagPalettes : Type := mkWcagPalettes {
  out_accessible : list string;
  out_wcag : list string;
  out_highContrast : list string
}.

(** [generateContrastPalettes], restricted to its three WCAG-targeted
    outputs; [None] is the empty object returned for an input without
    colours. *)
Definition generateContrastPalettes (input : list (string * list string)) (x : nat)
  : option WcagPalettes :=
  match firstNonEmpty input with
  | None => None
  | Some colorsArray =>
      let base := hexToRgb (nth 0 colorsArray "") in
      let hsl := rgbToHsl base in
      Some {| out_accessible := accessible hsl x;
              out_wcag := wcag hsl x;
              out_highContrast := highContrast hsl x |}
  end.

End WithMath.
End Contrast.

(* ================================================================== *)
(** * DataVisualsGenerator.ts: interpolation in OKLCH *)
(* ================================================================== *)

Module DataVisuals.

Open Scope Q_scope.
Open Scope js_scope.

Record LCH : Type := mkLCH { L : num; C : num; H : num }.

Definition lerp (a b t : num) : num := a + (b - a) * t.

(** The two [if] statements run one after the other on the same [d]. *)
Definition lerpHue (h1 h2 t : num) : num :=
  let d0 := h2 - h1 in
  let d1 := if d0 >? 180 then d0 - 360 else d0 in
  let d2 := if d1 <? -180 then d1 + 360 else d1 in
  (h1 + d2 * t + 360) mod 360.

Definition lerpLch (a b : LCH) (t : num) : LCH :=
  {| L := lerp (L a) (L b) t;
     C := lerp (C a) (C b) t;
     H := lerpHue (H a) (H b) t |}.

End DataVisuals.

(** ** Vocabulary used to state the properties of [Image] *)

Module ImageSpec.

Open Scope string_scope.

(** A degenerate RGBA buffer: whole pixels only, every alpha below 128 (the
    empty buffer is one). *)
Definition degenerate (data : list Z) : Prop :=
  (List.length data mod 4 = 0)%nat /\
  forall j alpha, nth_error data (4 * j + 3) = Some alpha -> (alpha < 128)%Z.

Definition allBlack (k : nat) : Image.ImageGeneratorOutput :=
  let black := repeat "#000000" k in
  {| Image.kmeans := black; Image.medianCut := black; Image.dominant := black;
     Image.vibrant := black; Image.muted := black; Image.octree := black;
     Image.colorMoments := black; Image.neuralQuant := black;
     Image.histogram := black; Image.deltaE := black |}.

(** The contract of [Math.random]: every value lies in [0, 1). *)
Definition unitDraws (rnd : Rand) : Prop := forall i, (0 <= rnd i)%Q /\ (rnd i < 1)%Q.

(** What a call returned, without the position of the random stream. *)
Definition returned {A} (c : completion (A * nat)) : option A :=
  match c with
  | Return (x, _) => Some x
  | Throw _ => None
  end.

(** The colours [padToK] appends to a list of [have] colours to reach [k]. *)
Definition padding {M : MathLib} (base : Image.Lab) (k have : nat) : list Image.Lab :=
  map (fun j => Image.withL base
                  (Image.clamp01 (Num.add 0.2%Q
                     (Num.mul (Num.div (Num.ofNat j) (Num.ofNat k)) 0.6%Q))))
      (seq have (k - have)).

End ImageSpec.

Module StrFacts.
Import Str.
Open Scope string_scope.

Ltac by_ascii c :=
  destruct c as [[] [] [] [] [] [] [] []]; vm_compute; try reflexivity; try discriminate; auto.

Lemma lowerHex_lowerChar c : isLowerHex c = true -> lowerChar c = c.
Proof. by_ascii c. Qed.

Lemma lowerHex_not_space c : isLowerHex c = true -> isWhiteSpace c = false.
Proof. by_ascii c. Qed.




Lemma toLowerCase_fixed s : allChars isLowerHex s = true -> toLowerCase s = s.
Proof.
  induction s; simpl; [reflexivity|].
  intros H; apply andb_true_iff in H as [Ha Hs].
  now rewrite lowerHex_lowerChar, IHs.
Qed.

Lemma trimEnd_fixed s : allChars isLowerHex s = true -> trimEnd s = s.
Proof.
  induction s; [reflexivity|].
  intros H. pose proof H as H'. simpl in H'. apply andb_true_iff in H' as [Ha Hs].
  cbn [trimEnd allChars]. rewrite (lowerHex_not_space _ Ha). cbn. now rewrite IHs.
Qed.

Definition byteStrOk (s : string) : bool :=
  match s with
  | String c1 (String c2 EmptyString) => isLowerHex c1 && isLowerHex c2
  | _ => false
  end.

Lemma bytes_ok_table :
  forallb (fun n => byteStrOk (padStart2 (toString16 (Z.of_nat n)))) (seq 0 256) = true.
Proof. vm_compute. reflexivity. Qed.

Lemma byte_ok z : (0 <= z <= 255)%Z -> byteStrOk (padStart2 (toString16 z)) = true.
Proof.
  intros Hz.
  pose proof (proj1 (forallb_forall _ _) bytes_ok_table (Z.to_nat z)) as H.
  cbv beta in H. rewrite Z2Nat.id in H by lia. apply H. apply in_seq. lia.
Qed.

End StrFacts.

Module NumFacts.
Open Scope Q_scope.

Lemma add_eq x y : Num.add x y == x + y.
Proof. apply Qred_correct. Qed.
Lemma mul_eq x y : Num.mul x y == x * y.
Proof. apply Qred_correct. Qed.


Lemma roundZ_byte v : 0 <= v <= 1 -> (0 <= Num.roundZ (Num.mul v 255%Q) <= 255)%Z.
Proof.
  intros [H0 H1]. unfold Num.roundZ.
  assert (E : Num.mul v 255 + (1 # 2) == v * 255 + (1 # 2)) by now rewrite mul_eq.
  rewrite (Qfloor_comp _ _ E).
  split.
  - change 0%Z with (Qfloor (0 * 255 + (1 # 2))).
    apply Qfloor_resp_le. apply Qplus_le_l. apply Qmult_le_compat_r; [assumption|discriminate].
  - change 255%Z with (Qfloor (1 * 255 + (1 # 2))).
    apply Qfloor_resp_le. apply Qplus_le_l. apply Qmult_le_compat_r; [assumption|discriminate].
Qed.
End NumFacts.

Module SortFacts.
Section S.
Variable A : Type.
Variable cmp : A -> A -> num.

Lemma insertBy_perm x l : Permutation (x :: l) (insertBy cmp x l).
Proof.
  induction l as [|y r IH]; simpl; [reflexivity|].
  destruct (Num.leb (cmp x y) 0); [reflexivity|].
  rewrite perm_swap. now constructor.
Qed.

Lemma sortBy_perm l : Permutation l (sortBy cmp l).
Proof.
  induction l as [|x r IH]; simpl; [constructor|].
  rewrite <- insertBy_perm. now constructor.
Qed.

Lemma sortBy_In x l : In x (sortBy cmp l) <-> In x l.
Proof.
  split; apply Permutation_in; [symmetry|]; apply sortBy_perm.
Qed.

Lemma sortBy_length l : List.length (sortBy cmp l) = List.length l.
Proof. symmetry. apply Permutation_length, sortBy_perm. Qed.
End S.
End SortFacts.

Module SelectFacts.
Import Select SelectSpec StrFacts NumFacts SortFacts.
Open Scope string_scope.

Section WithMath.
Context {M : MathLib}.





Lemma normalised_shape s :
  isNormalised s = true ->
  exists h, s = String "#" h /\ String.length h = 6%nat /\ Str.allChars Str.isLowerHex h = true.
Proof.
  destruct s as [|c h]; [discriminate|]. cbn.
  destruct (Ascii.eqb_spec c "#"%char) as [->|N].
  - unfold is6hex. intros H. apply andb_true_iff in H as [Hl Hc].
    exists h. repeat split; auto. now apply Nat.eqb_eq.
  - intros H. exfalso.
    destruct c as [[] [] [] [] [] [] [] []]; try discriminate H. now apply N.
Qed.

Lemma normaliseHex_fixed s : isNormalised s = true -> _normaliseHex (JStr s) = Return s.
Proof.
  intros H. destruct (normalised_shape _ H) as (h & -> & Hl & Hc).
  unfold _normaliseHex, Str.trim.
  change (Str.trimStart (String "#" h)) with (String "#" h).
  change (Str.trimEnd (String "#" h)) with (String "#" (Str.trimEnd h)).
  rewrite (trimEnd_fixed _ Hc). cbn [Str.stripHash].
  rewrite (toLowerCase_fixed _ Hc).
  unfold is3hex, is6hex. rewrite Hl, Hc. reflexivity.
Qed.

Lemma expand3_normalised h : is3hex h = true -> isNormalised (expand3 h) = true.
Proof.
  unfold is3hex. intros H. apply andb_true_iff in H as [Hl Hc].
  destruct h as [|c0 [|c1 [|c2 [|]]]]; try discriminate Hl.
  cbn in Hc. cbn. unfold is6hex. cbn.
  apply andb_true_iff in Hc as [-> Hc]. apply andb_true_iff in Hc as [-> Hc].
  apply andb_true_iff in Hc as [-> _]. reflexivity.
Qed.

Lemma normaliseHex_normalised v s : _normaliseHex v = Return s -> isNormalised s = true.
Proof.
  destruct v; try discriminate. unfold _normaliseHex.
  destruct (is3hex _) eqn:E3.
  - intros [= <-]. now apply expand3_normalised.
  - destruct (is6hex _) eqn:E6; [|discriminate]. intros [= <-]. exact E6.
Qed.




Lemma nonempty_length (A : Type) (l : list A) : (0 <? List.length l)%nat = true <-> l <> [].
Proof.
  destruct l; cbn; split; intros; try congruence; try discriminate; auto.
Qed.

(** [(a.length > 0 ? a : b)] is non-empty when [b] is, and holds elements of
    [a] or of [b]. *)
Lemma choose_nonempty (A : Type) (a b : list A) :
  b <> [] -> (if (0 <? List.length a)%nat then a else b) <> [].
Proof.
  intros Hb. destruct (0 <? List.length a)%nat eqn:E; [now apply nonempty_length|assumption].
Qed.


(** *** Normalising the palette *)






(** *** Building a role *)



(** *** The three fallible picks *)








(** *** One run of the selector on a valid palette *)






End WithMath.
End SelectFacts.

Module SelectTheorems.
Import Select SelectSpec SelectFacts.
Open Scope string_scope.








End SelectTheorems.

Module RadiumFacts.
Import Radium NumFacts.
Open Scope string_scope.

Section WithMath.
Context {M : MathLib}.






Lemma arrayFrom_length (A : Type) n (f : nat -> A) : List.length (arrayFrom n f) = n.
Proof. unfold arrayFrom. now rewrite length_map, length_seq. Qed.

Lemma generatePalette_length key lch n :
  List.length (generatePalette key lch n) = Nat.max 1 n.
Proof.
  unfold generatePalette.
  destruct (1 <? n)%nat eqn:E.
  - apply Nat.ltb_lt in E.
    assert (Hn : Nat.max 1 n = n) by lia. rewrite Hn.
    repeat match goal with
           | |- context [if ?c then _ else _] => destruct c
           | |- context [match ?o with Some _ => _ | None => _ end] => destruct o
           end;
      apply arrayFrom_length.
  - apply Nat.ltb_ge in E.
    assert (Hn : Nat.max 1 n = 1%nat) by lia. rewrite Hn.
    destruct (firstTransform _ _); reflexivity.
Qed.

End WithMath.
End RadiumFacts.

Module RadiumTheorems.
Import Radium RadiumFacts.
Open Scope string_scope.


(** C2, what the code does.  The output of [generateRadiumColors] has the
    keys of the input, in the same order, and the array under a key has the
    length of the input array when that is at least 1, and length 1 when the
    input array is empty. *)
Theorem generateRadiumColors_shape (M : MathLib) (input : RadiumInput) :
  map fst (generateRadiumColors input) = map fst input /\
  Forall2 (fun i o => List.length (snd o) = Nat.max 1 (List.length (snd i)))
          input (generateRadiumColors input).
Proof.
  unfold generateRadiumColors.
  induction input as [|[key colors] rest [IHk IHl]]; cbn [map fst].
  - split; [reflexivity|constructor].
  - split; [now rewrite IHk|].
    constructor; [|assumption]. cbn [snd]. apply generatePalette_length.
Qed.

(** The array lengths are those of the input exactly when no input array is
    empty. *)
Lemma generateRadiumColors_lengths_nonempty (M : MathLib) (input : RadiumInput) :
  Forall (fun i => snd i <> []) input ->
  map (fun o => List.length (snd o)) (generateRadiumColors input)
  = map (fun i => List.length (snd i)) input.
Proof.
  unfold generateRadiumColors.
  induction 1 as [|[key colors] rest Hne HF IH]; cbn [map snd]; [reflexivity|].
  rewrite IH, generatePalette_length. f_equal.
  destruct colors; [now elim Hne|cbn; lia].
Qed.

(** An empty array comes back with one colour, for every host. *)
Lemma generateRadiumColors_empty_array (M : MathLib) :
  map (fun o => (fst o, List.length (snd o))) (generateRadiumColors [("accent", [])])
  = [("accent", 1%nat)].
Proof. reflexivity. Qed.

End RadiumTheorems.

Module ImageFacts.
Import Image ImageSpec NumFacts SortFacts.

Section WithMath.
Context {M : MathLib}.

(** *** Sampling a degenerate buffer *)

Lemma sampleLoop_degenerate data :
  degenerate data ->
  forall fuel i stride,
    (i mod 4 = 0)%nat -> (stride mod 4 = 0)%nat -> sampleLoop fuel i stride data = [].
Proof.
  intros [Hlen Halpha]. induction fuel as [|fuel IH]; intros i stride Hi Hs; [reflexivity|].
  cbn [sampleLoop]. destruct (i <? List.length data)%nat eqn:E; [|reflexivity].
  apply Nat.ltb_lt in E.
  assert (Hin : (i + 3 < List.length data)%nat).
  { apply Nat.Div0.div_exact in Hi, Hlen. lia. }
  unfold alphaBelow128, at_.
  destruct (nth_error data (i + 3)) as [alpha|] eqn:Ha.
  - assert (Hlt : (alpha < 128)%Z).
    { apply (Halpha (i / 4)%nat). rewrite <- Ha. f_equal.
      apply Nat.Div0.div_exact in Hi. lia. }
    apply Z.ltb_lt in Hlt. rewrite Hlt. apply IH; [|assumption].
    rewrite Nat.Div0.add_mod, Hi, Hs. reflexivity.
  - apply nth_error_None in Ha. lia.
Qed.

Lemma samplePixels_degenerate data maxPixels :
  degenerate data -> labs (samplePixels data maxPixels) = [].
Proof.
  intros Hd. unfold samplePixels. cbn [labs].
  rewrite (sampleLoop_degenerate Hd); [reflexivity|reflexivity|].
  rewrite Nat.mul_comm. apply Nat.Div0.mod_mul.
Qed.

(** *** Padding *)

Lemma padLoop_spec base k fuel result :
  fuel = (k - List.length result)%nat ->
  padLoop fuel base k result = (result ++ padding base k (List.length result))%list.
Proof.
  revert result. induction fuel as [|fuel IH]; intros result Hf.
  - unfold padding. rewrite <- Hf. cbn. now rewrite app_nil_r.
  - cbn [padLoop].
    assert (Hlt : (List.length result <? k)%nat = true) by (apply Nat.ltb_lt; lia).
    rewrite Hlt, IH by (rewrite length_app; cbn; lia).
    rewrite length_app, <- app_assoc. cbn [List.length app]. f_equal.
    unfold padding. rewrite <- Hf. cbn [seq map].
    replace (List.length result + 1)%nat with (S (List.length result)) by lia.
    replace (k - S (List.length result))%nat with fuel by lia. reflexivity.
Qed.

(** [padToK] truncates a long list and extends a short one with the
    lightness variants of its last colour. *)
Lemma padToK_spec labs k :
  padToK labs k =
    if (k <=? List.length labs)%nat then firstn k labs
    else (labs ++ padding (last labs {| L := 0.5%Q; a := 0%Q; b' := 0%Q |}) k
                          (List.length labs))%list.
Proof.
  unfold padToK. destruct (k <=? List.length labs)%nat; [reflexivity|].
  now apply padLoop_spec.
Qed.

Lemma padToK_length labs k : List.length (padToK labs k) = k.
Proof.
  rewrite padToK_spec. destruct (k <=? List.length labs)%nat eqn:E.
  - apply Nat.leb_le in E. rewrite length_firstn. lia.
  - apply Nat.leb_gt in E. unfold padding.
    rewrite length_app, length_map, length_seq. lia.
Qed.

Lemma padToK_exact labs k : List.length labs = k -> padToK labs k = labs.
Proof.
  intros <-. rewrite padToK_spec, Nat.leb_refl. apply firstn_all.
Qed.

(** *** K-Means++ *)

Lemma floor_index r n :
  (0 <= r)%Q -> (r < 1)%Q -> (0 < n)%nat ->
  (0 <= Num.floorZ (Num.mul r (Num.ofNat n)) < Z.of_nat n)%Z.
Proof.
  intros H0 H1 Hn. unfold Num.floorZ, Num.ofNat.
  rewrite (Qfloor_comp _ _ (mul_eq r (inject_Z (Z.of_nat n)))).
  assert (Hpos : (0 < inject_Z (Z.of_nat n))%Q).
  { change 0%Q with (inject_Z 0). rewrite <- Zlt_Qlt. lia. }
  split.
  - change 0%Z with (Qfloor 0). apply Qfloor_resp_le.
    apply Qmult_le_0_compat; [assumption|now apply Qlt_le_weak].
  - rewrite Zlt_Qlt. apply Qle_lt_trans with (1 := Qfloor_le _).
    setoid_replace (inject_Z (Z.of_nat n)) with (1 * inject_Z (Z.of_nat n))%Q at 2 by ring.
    now apply Qmult_lt_compat_r.
Qed.

Lemma chooseIndex_bound dists rand i :
  chooseIndex rand i dists = 0%nat \/
  (i <= chooseIndex rand i dists < i + List.length dists)%nat.
Proof.
  revert rand i. induction dists as [|d rest IH]; intros rand i; cbn [chooseIndex].
  - now left.
  - destruct (Num.leb _ _).
    + right. cbn [List.length]. lia.
    + destruct (IH (Num.sub rand d) (S i)) as [->|Hb]; [now left|right; cbn [List.length]; lia].
Qed.

Lemma seedMore_ok count rnd pos pool centroids :
  pool <> [] ->
  exists cs pos',
    seedMore count rnd pos pool centroids = Return (cs, pos') /\
    List.length cs = (List.length centroids + count)%nat.
Proof.
  intros Hp. revert pos centroids. induction count as [|count IH]; intros pos centroids.
  - exists centroids, pos. split; [reflexivity|lia].
  - cbn [seedMore].
    set (dists := map (distToNearest centroids) pool).
    set (rand := Num.mul (rnd pos) (sum dists)).
    assert (Hc : (chooseIndex rand 0 dists < List.length pool)%nat).
    { assert (Hl : List.length dists = List.length pool) by apply length_map.
      assert (Hn : (0 < List.length pool)%nat) by (destruct pool; [congruence|cbn; lia]).
      destruct (chooseIndex_bound dists rand 0) as [->|Hb]; lia. }
    destruct (nth_error pool (chooseIndex rand 0 dists)) as [p|] eqn:E.
    + destruct (IH (S pos) (centroids ++ [p])%list) as (cs & pos' & -> & Hlen).
      exists cs, pos'. split; [reflexivity|]. rewrite Hlen, length_app. cbn. lia.
    + apply nth_error_None in E. lia.
Qed.

Lemma recentre_length pool assignments centroids :
  List.length (recentre pool assignments centroids) = List.length centroids.
Proof.
  unfold recentre. rewrite length_map, length_combine, length_seq. lia.
Qed.

Lemma iterate_length fuel k pool centroids assignments :
  List.length (fst (iterate fuel k pool centroids assignments)) = List.length centroids.
Proof.
  revert centroids assignments. induction fuel as [|fuel IH]; intros cs asg; [reflexivity|].
  cbn [iterate]. destruct (sameAssignments asg _); [reflexivity|].
  now rewrite IH, recentre_length.
Qed.

Lemma subsample_sub rnd labs pos x :
  In x (fst (subsample rnd pos labs)) -> In x labs.
Proof.
  revert pos. induction labs as [|lab rest IH]; intros pos; cbn [subsample]; [auto|].
  destruct (subsample rnd (S pos) rest) as [kept pos'] eqn:E.
  specialize (IH (S pos)). rewrite E in IH. cbn [fst] in *.
  destruct (Num.leb _ _); cbn [In]; intuition.
Qed.

(** The ranked centroids are exactly [k]. *)
Lemma kMeansClusters_ok rnd pos labs k maxIter :
  (1 <= k)%nat -> labs <> [] -> unitDraws rnd ->
  exists ranked pos',
    kMeansClusters rnd pos labs k maxIter = Return (ranked, pos') /\
    List.length ranked = k.
Proof.
  intros Hk Hl Hr. unfold kMeansClusters.
  destruct (subsample rnd pos labs) as [pixels pos1].
  set (pool := if (k <=? List.length pixels)%nat then pixels else labs).
  assert (Hpool : pool <> []).
  { subst pool. destruct (k <=? List.length pixels)%nat eqn:E; [|assumption].
    apply Nat.leb_le in E. destruct pixels; [cbn in E; lia|discriminate]. }
  assert (Hn : (0 < List.length pool)%nat) by (destruct pool; [congruence|cbn; lia]).
  destruct (Hr pos1) as [H0 H1].
  pose proof (floor_index H0 H1 Hn) as [Hf0 Hf1].
  destruct (Num.floorZ _ <? 0)%Z eqn:E0; [apply Z.ltb_lt in E0; lia|].
  destruct (nth_error pool _) as [c0|] eqn:Ec.
  2:{ apply nth_error_None in Ec. lia. }
  destruct (@seedMore_ok (k - 1) rnd (S pos1) pool [c0] Hpool) as (cs & pos2 & -> & Hcs).
  cbn [bind].
  pose proof (iterate_length maxIter k pool cs (repeat 0%nat (List.length pool))) as Hit.
  destruct (iterate maxIter k pool cs _) as [centroids assignments]. cbn [fst] in Hit.
  eexists _, pos2. split; [reflexivity|].
  rewrite length_map, sortBy_length, length_map, length_combine, length_seq.
  rewrite Hit, Hcs. cbn. lia.
Qed.

End WithMath.
End ImageFacts.

Module ImageTheorems.
Import Image ImageSpec ImageFacts.
Open Scope string_scope.

(** C6 (as amended). For every k >= 1, every non-empty sample and every
    stream of draws in [0, 1), [kMeansCore] returns exactly k colours: the k
    ranked centroids themselves.  The seeding always produces k centroids,
    so the final [padToK] has nothing to add. *)
Theorem kMeansCore_exactly_k (M : MathLib) (rnd : Rand) (pos : nat) (labs : list Lab)
  (k maxIter : nat) :
  (1 <= k)%nat -> labs <> [] -> unitDraws rnd ->
  exists ranked pos',
    kMeansClusters rnd pos labs k maxIter = Return (ranked, pos') /\
    kMeansCore rnd pos labs k maxIter = Return (ranked, pos') /\
    List.length ranked = k.
Proof.
  intros Hk Hl Hr.
  destruct (kMeansClusters_ok pos maxIter Hk Hl Hr) as (ranked & pos' & Hc & Hlen).
  exists ranked, pos'. split; [assumption|]. split; [|assumption].
  unfold kMeansCore. destruct labs; [congruence|].
  rewrite Hc. cbn [bind fst snd]. now rewrite padToK_exact.
Qed.

(** C7. For every k, every stream of draws and every degenerate RGBA buffer
    (whole pixels, every alpha below 128; the empty buffer included),
    [generateImagePalettes] returns, and each of its ten arrays is k copies
    of "#000000". *)
Theorem generateImagePalettes_degenerate (M : MathLib) (X : Extractors) (rnd : Rand)
  (pos : nat) (input : ImageGeneratorInput) (k : nat) (data : list Z) :
  degenerate data ->
  generateImagePalettes X rnd pos input k (Some data) = Return (allBlack k, pos).
Proof.
  intros Hd. unfold generateImagePalettes.
  rewrite (samplePixels_degenerate 6000 Hd). reflexivity.
Qed.

End ImageTheorems.

Module AlgorithmicFacts.
Import Algorithmic.

Lemma map_seq_shift (A : Type) (f : nat -> A) n start :
  map f (seq (S start) n) = map (fun j => f (S j)) (seq start n).
Proof. now rewrite <- seq_shift, map_map. Qed.

(** [n] calls from state [s] give the outputs of the states [s + c],
    [s + 2c], ... and leave [s + n c]. *)
Lemma draws_closed n s :
  draws n s =
    (map (fun j => prngOutput (s + Z.of_nat (S j) * 1831565813)%Z) (seq 0 n),
     (s + Z.of_nat n * 1831565813)%Z).
Proof.
  revert s. induction n as [|n IH]; intros s.
  - cbn [draws seq map]. f_equal. lia.
  - cbn [draws]. unfold prngCall. rewrite IH. cbn [seq map].
    rewrite map_seq_shift.
    replace (s + 1831565813 + Z.of_nat n * 1831565813)%Z
      with (s + Z.of_nat (S n) * 1831565813)%Z by lia.
    replace (s + Z.of_nat 1 * 1831565813)%Z with (s + 1831565813)%Z by lia.
    do 2 f_equal. apply map_ext. intros j. f_equal. lia.
Qed.

Section WithMath.
Context {M : MathLib}.



End WithMath.
End AlgorithmicFacts.

Module AlgorithmicTheorems.
Import Algorithmic AlgorithmicFacts.


End AlgorithmicTheorems.

Module ContrastFacts.
Import Contrast.

Section WithMath.
Context {M : MathLib}.

(** What the searches promise about the colour they return, before it is
    rounded to a hex string. *)
Definition meets (c reference : ColorRGB) (target : num) : Prop :=
  passes c reference target = true \/ c = black \/ c = white.

Lemma accepted_passes best reference target c :
  (if accepted best reference target then best else None) = Some c ->
  passes c reference target = true.
Proof.
  destruct best as [b|]; cbn; [|discriminate].
  destruct (passes b reference target) eqn:E; [|discriminate]. now intros [= <-].
Qed.

Lemma nearestExtreme_meets reference target : meets (nearestExtreme reference) reference target.
Proof. unfold nearestExtreme, meets. destruct (Num.geb _ _); auto. Qed.

Lemma adjustToWcagRatio_meets color reference target maxIter :
  meets (adjustToWcagRatio color reference target maxIter) reference target.
Proof.
  unfold adjustToWcagRatio.
  destruct (passes color reference target) eqn:E; [now left|].
  destruct (if accepted (searchDarker _ _ _ _ _ _ _) _ _ then _ else _) as [c|] eqn:E1.
  - left. exact (accepted_passes _ _ _ E1).
  - destruct (if accepted (searchLighter _ _ _ _ _ _ _) _ _ then _ else _) as [c|] eqn:E2.
    + left. exact (accepted_passes _ _ _ E2).
    + apply nearestExtreme_meets.
Qed.

Lemma adjustToWcagRatioFromL_meets hue sat startL reference target direction maxIter :
  meets (adjustToWcagRatioFromL hue sat startL reference target direction maxIter)
        reference target.
Proof.
  unfold adjustToWcagRatioFromL.
  destruct (if accepted _ _ _ then _ else _) as [c|] eqn:E1.
  - left. exact (accepted_passes _ _ _ E1).
  - apply nearestExtreme_meets.
Qed.

(** Every slot of the three WCAG-targeted blocks meets its target against its
    reference, or is black or white: this holds for the colour as computed,
    not for its hex string. *)
Lemma wcag_slots_meet_target (hsl : HSL) (x i : nat) :
  meets (accessibleColor hsl x i) (accessiblePair hsl i) 4.5%Q /\
  meets (wcagColor hsl i) (fst (fst (wcagTarget i))) (snd (fst (wcagTarget i))) /\
  meets (highContrastColor hsl x i) (highContrastReference x i) 7%Q.
Proof.
  split; [apply adjustToWcagRatio_meets|split].
  - unfold wcagColor. destruct (wcagTarget i) as [[bg ratio] startL]. cbn [fst snd].
    apply adjustToWcagRatio_meets.
  - unfold highContrastColor, highContrastReference.
    destruct (i <? halfUp x)%nat; apply adjustToWcagRatioFromL_meets.
Qed.

Lemma highContrast_nth hsl x i :
  (i < x)%nat -> nth i (highContrast hsl x) ""%string = rgbToHex (highContrastColor hsl x i).
Proof.
  intros Hi. unfold highContrast.
  rewrite (nth_indep _ ""%string (rgbToHex (highContrastColor hsl x 0))) by
    (rewrite length_map, length_seq; exact Hi).
  rewrite (map_nth (fun i => rgbToHex (highContrastColor hsl x i))).
  now rewrite seq_nth.
Qed.

End WithMath.
End ContrastFacts.

(* ================================================================== *)
(** * Evaluations with the reference host *)
(* ================================================================== *)

Module SelectExamples.
Import Select SelectSpec.
Open Scope string_scope.

Definition hexesAndFlags (c : completion RuleResult) : completion (list (string * bool)) :=
  let* res := c in Return (map (fun r => (hex r, derived r)) (roles res)).

(** A singleton palette: all three synthesis tiers run. *)
Example select_singleton :
  hexesAndFlags (select60_30_10 (JArr [JStr "#3498db"]) noOptions) =
  Return [("#3498db", false); ("#061825", true); ("#3498db", false);
          ("#227fbb", true); ("#ec826d", true)].
Proof. vm_compute. reflexivity. Qed.

(** Two colours, in short and unprefixed form: once the light neutral and
    the main colour are taken nothing remains, and the other three roles are
    synthesised. *)
Example select_pair :
  hexesAndFlags (select60_30_10 (JArr [JStr "#FFF"; JStr "e74c3c"]) noOptions) =
  Return [("#ffffff", false); ("#24100c", true); ("#e74c3c", false);
          ("#c4392c", true); ("#00c7a8", true)].
Proof. vm_compute. reflexivity. Qed.

(** The three validation classes. *)
Example select_rejects_null :
  select60_30_10 JNull noOptions = Throw (TypeError paletteMessage).
Proof. reflexivity. Qed.

Example select_rejects_empty :
  select60_30_10 (JArr []) noOptions = Throw (TypeError paletteMessage).
Proof. reflexivity. Qed.

Example select_rejects_number :
  select60_30_10 (JArr [JStr "#fff"; JNull]) noOptions =
  Throw (TypeError "Color must be a string, got object: null").
Proof. reflexivity. Qed.

Example select_rejects_format :
  select60_30_10 (JArr [JStr "#fff"; JStr "#ffff"]) noOptions =
  Throw (RangeError (rangeMessage "#ffff")).
Proof. reflexivity. Qed.

End SelectExamples.

Module RadiumExamples.
Import Radium.
Open Scope string_scope.

Definition grey200 : LCH := {| L := 0.5%Q; C := 0%Q; H := 200%Q |}.
Definition darkTeal : LCH := {| L := 0.05%Q; C := 0.3%Q; H := 200%Q |}.
Definition darkOrange : LCH := {| L := 0.3%Q; C := 0.23%Q; H := 49%Q |}.



(** The encoded colour, and whether its re-decoded hue is more than [bound]
    degrees away from the hue that went in. *)
Definition driftReport (lch : LCH) (bound : num) : string * bool :=
  let hex := lchToHexSafe lch in
  (hex, Num.gtb (hueDistance (H (hexToLch hex)) (H lch)) bound).

(** The same on the search path: a dark, strongly chromatic teal is out of
    gamut, the search lands on a near-black, and its hue is more than 5
    degrees off. *)
Example lchToHexSafe_dark_teal : driftReport darkTeal 5%Q = ("#000101", true).
Proof. vm_compute. reflexivity. Qed.

(** The example of the specification: an out-of-gamut orange at low
    lightness keeps its hue within 2 degrees. *)
Example lchToHexSafe_dark_orange : driftReport darkOrange 2%Q = ("#4d1e00", false).
Proof. vm_compute. reflexivity. Qed.

(** The round trip of an in-gamut colour without chroma returns the hue of
    the grey axis, not the hue that went in. *)
Example roundtrip_grey_hue :
  inGamut (oklabToRgbRaw (oklchToOklab grey200)) = true /\
  Num.gtb (hueDistance (H (toOklch (toRgb grey200))) (H grey200)) 100%Q = true.
Proof. vm_compute. split; reflexivity. Qed.

End RadiumExamples.

Module ImageExamples.
Import Image ImageSpec.
Open Scope string_scope.

(** Extractors that return nothing, to instantiate statements that hold for
    every choice of the seven. *)
Definition idleExtractors : Extractors :=
  {| medianCutAlgo := fun _ _ => [];
     dominantAlgo := fun _ _ => [];
     octreeAlgo := fun _ _ => [];
     colorMomentsAlgo := fun _ _ => [];
     neuralQuantAlgo := fun _ pos _ _ => Return ([], pos);
     histogramAlgo := fun _ _ => [];
     deltaEAlgo := fun _ _ => [] |}.

Definition halfDraws : Rand := fun _ => (1 # 2)%Q.

(** Two transparent pixels. *)
Definition transparentBuffer : list Z := [200; 10; 10; 0; 0; 0; 255; 127]%Z.

Definition pink : Lab := {| L := 0.8%Q; a := 0.1%Q; b' := 0%Q |}.
Definition red : Lab := {| L := 0.6%Q; a := 0.2%Q; b' := 0%Q |}.

Lemma halfDraws_unit : unitDraws halfDraws.
Proof. intros i. split; [apply Qle_bool_imp_le; reflexivity|reflexivity]. Defined.

Lemma transparentBuffer_degenerate : degenerate transparentBuffer.
Proof.
  split; [reflexivity|].
  intros j alpha Hnth.
  assert (Hj : (4 * j + 3 < List.length transparentBuffer)%nat).
  { apply nth_error_Some. rewrite Hnth. discriminate. }
  destruct j as [|[|j]]; [| |cbn in Hj; lia]; cbn in Hnth; injection Hnth as <-; reflexivity.
Defined.

Lemma generateImagePalettes_degenerate_witness :
  degenerate transparentBuffer /\
  generateImagePalettes idleExtractors halfDraws 0 {| square := None |} 3
                        (Some transparentBuffer)
  = Return (allBlack 3, 0%nat).
Proof.
  split; [exact transparentBuffer_degenerate|].
  apply (@ImageTheorems.generateImagePalettes_degenerate refMath idleExtractors halfDraws 0
           {| square := None |} 3 transparentBuffer).
  exact transparentBuffer_degenerate.
Defined.

Lemma kMeansCore_exactly_k_witness :
  (1 <= 3)%nat /\ [pink] <> [] /\ unitDraws halfDraws /\
  exists ranked pos',
    kMeansClusters halfDraws 0 [pink] 3 25 = Return (ranked, pos') /\
    kMeansCore halfDraws 0 [pink] 3 25 = Return (ranked, pos') /\
    List.length ranked = 3%nat.
Proof.
  split; [repeat constructor|]. split; [discriminate|]. split; [exact halfDraws_unit|].
  apply (@ImageTheorems.kMeansCore_exactly_k refMath halfDraws 0 [pink] 3 25);
    [repeat constructor|discriminate|exact halfDraws_unit].
Defined.

(** C6, counterexample to its padding clause.  One pixel and k = 3: one
    natural cluster, two short of k.  [kMeansCore] returns three copies of
    the pixel; padding the one colour to three would have given two
    lightness variants instead. *)
Lemma kMeansCore_copies_not_variants :
  returned (kMeansCore halfDraws 0 [pink] 3 25) = Some [pink; pink; pink] /\
  padToK [pink] 3 = [pink; withL pink (2 # 5)%Q; withL pink (3 # 5)%Q].
Proof. vm_compute. split; reflexivity. Qed.


End ImageExamples.

Module AlgorithmicExamples.
Import Algorithmic.
Open Scope string_scope.

Example seedFromHex_blue : seedFromHex "#3498db" = 89857758%Z.
Proof. reflexivity. Qed.

Example randomPalette_blue : randomPalette "#3498db" 3 = ["#af6651"; "#622825"; "#de6d6a"].
Proof. vm_compute. reflexivity. Qed.

End AlgorithmicExamples.

Module ContrastExamples.
Import Contrast ContrastFacts.
Open Scope string_scope.

(** The colour of a slot, its hex string, whether the colour as computed
    passes 7:1 against black, and whether the colour read back from the hex
    string falls below 7:1. *)
Definition slotReport (base : string) (x i : nat) : string * bool * bool :=
  let c := highContrastColor (rgbToHsl (hexToRgb base)) x i in
  let hex := rgbToHex c in
  (hex, passes c black 7%Q, Num.ltb (wcagContrastRatio (hexToRgb hex) black) 7%Q).

Lemma slotReport_blue : slotReport "#0000ff" 9 5 = ("#8b8beb", true, true).
Proof. vm_compute. reflexivity. Qed.

Lemma triple_eq (A B C : Type) (a x : A) (b y : B) (c z : C) :
  (a, b, c) = (x, y, z) -> a = x /\ b = y /\ c = z.
Proof. intros E. inversion E. auto. Qed.

(** C4, at a failing input.  For the base colour #0000ff and nine slots,
    slot 5 of highContrast (target 7:1 against black) is "#8b8beb".  The
    colour the search returned passes 7:1; the colour its hex string denotes
    does not, and it is neither black nor white. *)
Theorem highContrast_hex_below_target :
  exists out,
    generateContrastPalettes [("primary", ["#0000ff"])] 9 = Some out /\
    nth 5 (out_highContrast out) "" = "#8b8beb" /\
    passes (highContrastColor (rgbToHsl (hexToRgb "#0000ff")) 9 5) black 7%Q = true /\
    Num.ltb (wcagContrastRatio (hexToRgb "#8b8beb") black) 7%Q = true.
Proof.
  destruct (triple_eq slotReport_blue) as (Rhex & Rpass & Rlow).
  exists {| out_accessible := accessible (rgbToHsl (hexToRgb "#0000ff")) 9;
            out_wcag := wcag (rgbToHsl (hexToRgb "#0000ff")) 9;
            out_highContrast := highContrast (rgbToHsl (hexToRgb "#0000ff")) 9 |}.
  split; [reflexivity|].
  change (nth 5 (highContrast (rgbToHsl (hexToRgb "#0000ff")) 9) "" = "#8b8beb" /\
          passes (highContrastColor (rgbToHsl (hexToRgb "#0000ff")) 9 5) black 7%Q = true /\
          Num.ltb (wcagContrastRatio (hexToRgb "#8b8beb") black) 7%Q = true).
  rewrite highContrast_nth by (repeat constructor).
  rewrite Rhex in Rlow. auto.
Qed.

End ContrastExamples.

(* ================================================================== *)
(** * Further properties of the code *)
(* ================================================================== *)

From Stdlib Require Import Lqa Qpower.

(** ** Arithmetic of the number model *)

Module NumLaws.
Import NumFacts.
Open Scope Q_scope.

Lemma sub_eq x y : Num.sub x y == x - y.
Proof. apply Qred_correct. Qed.
Lemma div_eq x y : Num.div x y == x / y.
Proof. apply Qred_correct. Qed.
Lemma neg_eq x : Num.neg x == - x.
Proof. apply Qred_correct. Qed.

Lemma leb_le x y : Num.leb x y = true <-> x <= y.
Proof. apply Qle_bool_iff. Qed.

Lemma leb_gt x y : Num.leb x y = false <-> y < x.
Proof.
  unfold Num.leb. split; intros H.
  - apply Qnot_le_lt. intros Hle. apply Qle_bool_iff in Hle. congruence.
  - destruct (Qle_bool x y) eqn:E; [|reflexivity].
    apply Qle_bool_iff in E. lra.
Qed.

Lemma ltb_lt x y : Num.ltb x y = true <-> x < y.
Proof. unfold Num.ltb. rewrite negb_true_iff. apply (leb_gt y x). Qed.

Lemma ltb_ge x y : Num.ltb x y = false <-> y <= x.
Proof. unfold Num.ltb. rewrite negb_false_iff. apply Qle_bool_iff. Qed.

Lemma gtb_lt x y : Num.gtb x y = true <-> y < x.
Proof. unfold Num.gtb. rewrite negb_true_iff. apply (leb_gt x y). Qed.

Lemma gtb_le x y : Num.gtb x y = false <-> x <= y.
Proof. unfold Num.gtb. rewrite negb_false_iff. apply Qle_bool_iff. Qed.

Lemma geb_le x y : Num.geb x y = true <-> y <= x.
Proof. apply Qle_bool_iff. Qed.

Lemma geb_lt x y : Num.geb x y = false <-> x < y.
Proof. apply (leb_gt y x). Qed.

Lemma max_l x y : x <= Num.max x y.
Proof. unfold Num.max. destruct (Num.leb x y) eqn:E; [now apply leb_le|lra]. Qed.

Lemma max_r x y : y <= Num.max x y.
Proof. unfold Num.max. destruct (Num.leb x y) eqn:E; [lra|apply leb_gt in E; lra]. Qed.

Lemma max_lub x y z : x <= z -> y <= z -> Num.max x y <= z.
Proof. unfold Num.max. now destruct (Num.leb x y). Qed.

Lemma min_l x y : Num.min x y <= x.
Proof. unfold Num.min. destruct (Num.leb x y) eqn:E; [lra|apply leb_gt in E; lra]. Qed.

Lemma min_r x y : Num.min x y <= y.
Proof. unfold Num.min. destruct (Num.leb x y) eqn:E; [now apply leb_le|lra]. Qed.

Lemma min_glb x y z : z <= x -> z <= y -> z <= Num.min x y.
Proof. unfold Num.min. now destruct (Num.leb x y). Qed.

(** [Math.max(lo, Math.min(hi, v))] lies between its bounds. *)
Lemma clamp_between lo hi v : lo <= hi -> lo <= Num.max lo (Num.min hi v) <= hi.
Proof.
  intros H. split; [apply max_l|].
  apply max_lub; [assumption|apply min_l].
Qed.

Lemma clamp_id lo hi v : lo <= v <= hi -> Num.max lo (Num.min hi v) == v.
Proof.
  intros [H1 H2]. unfold Num.max, Num.min.
  destruct (Num.leb hi v) eqn:E.
  - apply leb_le in E. destruct (Num.leb lo hi) eqn:E'; [lra|apply leb_gt in E'; lra].
  - destruct (Num.leb lo v) eqn:E'; [reflexivity|apply leb_gt in E'; lra].
Qed.

Lemma abs_eq x : Num.abs x == Qabs x.
Proof.
  unfold Num.abs. destruct (Num.ltb x 0) eqn:E.
  - apply ltb_lt in E. rewrite neg_eq. symmetry. apply Qabs_neg. lra.
  - apply ltb_ge in E. symmetry. now apply Qabs_pos.
Qed.

Lemma abs_nonneg x : 0 <= Num.abs x.
Proof. rewrite abs_eq. apply Qabs_nonneg. Qed.

(** The operations give equal results, as terms, on equal rationals. *)
Lemma add_comp x y x' y' : x + y == x' + y' -> Num.add x y = Num.add x' y'.
Proof. apply Qred_complete. Qed.
Lemma sub_comp x y x' y' : x - y == x' - y' -> Num.sub x y = Num.sub x' y'.
Proof. apply Qred_complete. Qed.
Lemma div_comp x y x' y' : x / y == x' / y' -> Num.div x y = Num.div x' y'.
Proof. apply Qred_complete. Qed.

Lemma ltb_comp x y x' y' : x == x' -> y == y' -> Num.ltb x y = Num.ltb x' y'.
Proof. intros E1 E2. unfold Num.ltb. now rewrite E1, E2. Qed.

Lemma leb_comp x y x' y' : x == x' -> y == y' -> Num.leb x y = Num.leb x' y'.
Proof. intros E1 E2. unfold Num.leb. now rewrite E1, E2. Qed.

Lemma truncZ_comp x x' : x == x' -> Num.truncZ x = Num.truncZ x'.
Proof.
  intros E. unfold Num.truncZ. rewrite (ltb_comp E (Qeq_refl 0)).
  destruct (Num.ltb x' 0); [unfold Qceiling; f_equal; apply Qfloor_comp; now rewrite E
                           |now apply Qfloor_comp].
Qed.

Lemma rem_comp x x' y : x == x' -> Num.rem x y = Num.rem x' y.
Proof.
  intros E. unfold Num.rem. apply sub_comp.
  assert (T : Num.truncZ (Num.div x y) = Num.truncZ (Num.div x' y)).
  { apply truncZ_comp. rewrite !div_eq. now rewrite E. }
  rewrite T, E. reflexivity.
Qed.

(** The remainder of a non-negative number by a positive one. *)
Lemma rem_eq x y :
  0 <= x -> 0 < y -> Num.rem x y == x - y * inject_Z (Qfloor (x / y)).
Proof.
  intros Hx Hy. unfold Num.rem. rewrite sub_eq, mul_eq.
  assert (Hq : 0 <= x / y).
  { apply Qle_shift_div_l; [assumption|lra]. }
  assert (T : Num.truncZ (Num.div x y) = Qfloor (x / y)).
  { unfold Num.truncZ.
    assert (F : Num.ltb (Num.div x y) 0 = false).
    { apply ltb_ge. now rewrite div_eq. }
    rewrite F. apply Qfloor_comp, div_eq. }
  rewrite T. reflexivity.
Qed.

Lemma rem_range x y : 0 <= x -> 0 < y -> 0 <= Num.rem x y /\ Num.rem x y < y.
Proof.
  intros Hx Hy. rewrite (rem_eq Hx Hy).
  pose proof (Qfloor_le (x / y)) as Hlo.
  pose proof (Qlt_floor (x / y)) as Hhi.
  rewrite inject_Z_plus in Hhi. change (inject_Z 1) with 1 in Hhi.
  set (f := inject_Z (Qfloor (x / y))) in *.
  assert (E : x == y * (x / y)) by (field; lra).
  set (q := x / y) in *.
  split.
  - assert (0 <= y * (q - f)) by (apply Qmult_le_0_compat; lra). lra.
  - assert (0 < y * (f + 1 - q)) by (apply Qmult_lt_0_compat; lra). lra.
Qed.

Lemma ofNat_nonneg n : 0 <= Num.ofNat n.
Proof. unfold Num.ofNat. change 0 with (inject_Z 0). rewrite <- Zle_Qle. lia. Qed.

Lemma ofNat_pos n : (0 < n)%nat -> 0 < Num.ofNat n.
Proof. intros H. unfold Num.ofNat. change 0 with (inject_Z 0). rewrite <- Zlt_Qlt. lia. Qed.

Lemma ofNat_lt n m : (n < m)%nat -> Num.ofNat n < Num.ofNat m.
Proof. intros H. unfold Num.ofNat. rewrite <- Zlt_Qlt. lia. Qed.

Lemma roundZ_ofZ z : Num.roundZ (inject_Z z) = z.
Proof.
  unfold Num.roundZ.
  pose proof (Qfloor_le (inject_Z z + (1 # 2))) as Hlo.
  pose proof (Qlt_floor (inject_Z z + (1 # 2))) as Hhi.
  set (f := Qfloor (inject_Z z + (1 # 2))) in *.
  rewrite inject_Z_plus in Hhi. change (inject_Z 1) with 1 in Hhi.
  assert (A : inject_Z f < inject_Z (z + 1)).
  { rewrite inject_Z_plus. change (inject_Z 1) with 1. lra. }
  assert (B : inject_Z (z - 1) < inject_Z f).
  { unfold Z.sub. rewrite inject_Z_plus, inject_Z_opp. change (inject_Z 1) with 1. lra. }
  rewrite <- Zlt_Qlt in A, B. lia.
Qed.

End NumLaws.

(** ** Two hexadecimal digits and the byte they denote *)

Module HexFacts.
Import Str StrFacts NumFacts NumLaws.
Open Scope string_scope.

Definition twoDigits (z : Z) : string :=
  String (hexChar (z / 16)) (String (hexChar (z mod 16)) EmptyString).

(** Printing a byte gives its two digits, and reading them gives it back. *)
Lemma byte_table :
  forallb (fun n => let z := Z.of_nat n in
                    String.eqb (padStart2 (toString16 z)) (twoDigits z)
                    && match parseInt16 (twoDigits z) with
                       | Some v => (v =? z)%Z
                       | None => false
                       end)
          (seq 0 256) = true.
Proof. vm_compute. reflexivity. Qed.

Lemma byte_print z : (0 <= z <= 255)%Z -> padStart2 (toString16 z) = twoDigits z.
Proof.
  intros Hz.
  pose proof (proj1 (forallb_forall _ _) byte_table (Z.to_nat z)) as H.
  cbv beta zeta in H. rewrite Z2Nat.id in H by lia.
  assert (Hin : In (Z.to_nat z) (seq 0 256)) by (apply in_seq; lia).
  apply H in Hin. apply andb_true_iff in Hin as [Hp _]. now apply String.eqb_eq.
Qed.

Lemma byte_parse z : (0 <= z <= 255)%Z -> parseInt16 (twoDigits z) = Some z.
Proof.
  intros Hz.
  pose proof (proj1 (forallb_forall _ _) byte_table (Z.to_nat z)) as H.
  cbv beta zeta in H. rewrite Z2Nat.id in H by lia.
  assert (Hin : In (Z.to_nat z) (seq 0 256)) by (apply in_seq; lia).
  apply H in Hin. apply andb_true_iff in Hin as [_ Hp].
  destruct (parseInt16 (twoDigits z)) as [v|]; [|discriminate].
  apply Z.eqb_eq in Hp. now subst.
Qed.

(** The value of a lower-case digit, and the digit of that value. *)
Definition digitOk (c : ascii) : bool :=
  match hexVal c with
  | Some d => (0 <=? d)%Z && (d <? 16)%Z && Ascii.eqb (hexChar d) c
  | None => false
  end.

Lemma lowerHex_digit c : isLowerHex c = true -> digitOk c = true.
Proof. by_ascii c. Qed.

Lemma lowerHex_value c :
  isLowerHex c = true ->
  exists d, hexVal c = Some d /\ (0 <= d < 16)%Z /\ hexChar d = c.
Proof.
  intros H. apply lowerHex_digit in H. unfold digitOk in H.
  destruct (hexVal c) as [d|]; [|discriminate].
  apply andb_true_iff in H as [H Hc]. apply andb_true_iff in H as [H0 H1].
  exists d. repeat split; [lia|lia|now apply Ascii.eqb_eq].
Qed.

(** Two lower-case digits are the two digits of a byte. *)
Lemma lowerHex_pair c1 c2 :
  isLowerHex c1 = true -> isLowerHex c2 = true ->
  exists z, (0 <= z <= 255)%Z /\ String c1 (String c2 EmptyString) = twoDigits z.
Proof.
  intros H1 H2.
  destruct (lowerHex_value _ H1) as (d1 & _ & R1 & E1).
  destruct (lowerHex_value _ H2) as (d2 & _ & R2 & E2).
  exists (16 * d1 + d2)%Z. split; [lia|].
  unfold twoDigits.
  replace ((16 * d1 + d2) / 16)%Z with d1 by (apply Z.div_unique with d2; lia).
  replace ((16 * d1 + d2) mod 16)%Z with d2 by (apply Z.mod_unique with d1; lia).
  now rewrite E1, E2.
Qed.

(** A normalised colour is a [#] and the digits of three bytes. *)
Lemma normalised_bytes s :
  SelectSpec.isNormalised s = true ->
  exists zr zg zb,
    (0 <= zr <= 255)%Z /\ (0 <= zg <= 255)%Z /\ (0 <= zb <= 255)%Z /\
    s = "#" ++ twoDigits zr ++ twoDigits zg ++ twoDigits zb.
Proof.
  intros H. destruct (SelectFacts.normalised_shape _ H) as (h & -> & Hl & Hc).
  destruct h as [|c1 [|c2 [|c3 [|c4 [|c5 [|c6 [|]]]]]]]; try discriminate Hl.
  cbn in Hc.
  repeat match type of Hc with
         | (_ && _)%bool = true => let A := fresh "A" in apply andb_true_iff in Hc as [A Hc]
         end.
  destruct (@lowerHex_pair _ _ A A0) as (zr & Rr & Er).
  destruct (@lowerHex_pair _ _ A1 A2) as (zg & Rg & Eg).
  destruct (@lowerHex_pair _ _ A3 A4) as (zb & Rb & Eb).
  exists zr, zg, zb. repeat split; try lia.
  unfold twoDigits in *.
  injection Er as -> ->. injection Eg as -> ->. injection Eb as -> ->. reflexivity.
Qed.

Lemma slices zr zg zb :
  let s := "#" ++ twoDigits zr ++ twoDigits zg ++ twoDigits zb in
  slice 1 (1 + 2) s = twoDigits zr /\ slice 3 (3 + 2) s = twoDigits zg /\
  slice 5 (5 + 2) s = twoDigits zb.
Proof. repeat split. Qed.

(** The byte as a fraction, scaled back and rounded. *)
Lemma channel_back z : Num.roundZ (Num.mul (Num.div (Num.ofZ z) 255%Q) 255%Q) = z.
Proof.
  rewrite <- (roundZ_ofZ z) at 2. unfold Num.roundZ. apply Qfloor_comp.
  rewrite mul_eq, div_eq. unfold Num.ofZ. field.
Qed.

Lemma channel_unit z :
  (0 <= z <= 255)%Z -> (0 <= Num.div (Num.ofZ z) 255%Q <= 1)%Q.
Proof.
  intros [H0 H1]. rewrite div_eq. unfold Num.ofZ.
  assert (A : (inject_Z 0 <= inject_Z z)%Q) by (rewrite <- Zle_Qle; lia).
  assert (B : (inject_Z z <= inject_Z 255)%Q) by (rewrite <- Zle_Qle; lia).
  change (inject_Z 0) with 0%Q in A. change (inject_Z 255) with 255%Q in B.
  split.
  - apply Qle_shift_div_l; [reflexivity|]. now rewrite Qmult_0_l.
  - apply Qle_shift_div_r; [reflexivity|]. now rewrite Qmult_1_l.
Qed.

End HexFacts.

(** ** The head of a sorted array *)

Module SortHead.
Import NumLaws SortFacts.
Open Scope Q_scope.

Section S.
Variable A : Type.
Variable cmp : A -> A -> num.
(** The comparator orders by a rank: [cmp a b <= 0] exactly when [a] ranks
    no later than [b]. *)
Variable rank : A -> Q.
Hypothesis cmp_rank : forall a b, Num.leb (cmp a b) 0 = true <-> rank a <= rank b.




End S.
End SortHead.

(** ** select60-30-10.ts: which colour gets which role *)

(** Vocabulary: the candidate lists of the five steps. *)
Module SelectPicks.
Import Select SelectSpec.
Open Scope string_scope.

Section WithMath.
Context {M : MathLib}.


(** [a.length > 0 ? a : b] *)
Definition orAll {A} (a b : list A) : list A :=
  if (0 <? List.length a)%nat then a else b.


Definition nearNeutrals (cfg : Config) (px : list InternalColor) : list InternalColor :=
  filter (fun c => Num.ltb (C (ic_lch c)) (cfg_neutralChromaMax cfg)) px.

Definition midBand (cfg : Config) (px : list InternalColor) : list InternalColor :=
  filter (fun c => Num.geb (L (ic_lch c)) (cfg_mainLightnessMin cfg)
                   && Num.leb (L (ic_lch c)) (cfg_mainLightnessMax cfg)) px.

Definition darkNeutrals (cfg : Config) (px : list InternalColor) (nl : InternalColor)
  : list InternalColor :=
  filter (fun c => Num.ltb (L (ic_lch c)) 0.35%Q
                   && negb (String.eqb (ic_hex c) (ic_hex nl)))
         (nearNeutrals cfg px).


Definition sameHue (cfg : Config) (main : InternalColor) (l : list InternalColor)
  : list InternalColor :=
  filter (fun c => Num.ltb (_hueDist (H (ic_lch c)) (H (ic_lch main)))
                           (cfg_shadeHueTolerance cfg)
                   && Num.gtb (C (ic_lch c)) 0.1%Q) l.

Definition farHue (cfg : Config) (main : InternalColor) (l : list InternalColor)
  : list InternalColor :=
  filter (fun c => Num.geb (_hueDist (H (ic_lch c)) (H (ic_lch main)))
                           (cfg_accentHueMin cfg)) l.








(** The host's power function keeps non-negative bases non-negative. *)
Definition powNonneg : Prop := forall x y, (0 <= x)%Q -> (0 <= Math_pow x y)%Q.

End WithMath.
End SelectPicks.

Module SelectMore.
Import Select SelectSpec SelectPicks StrFacts NumFacts NumLaws SortFacts SortHead
  SelectFacts HexFacts.
Open Scope string_scope.

Section WithMath.
Context {M : MathLib}.









Lemma orAll_nonempty (A : Type) (a b : list A) : b <> [] -> orAll a b <> [].
Proof. apply choose_nonempty. Qed.

(** *** Every step of one run *)




End WithMath.
End SelectMore.

Module SelectSteps.
Import Select SelectSpec SelectPicks StrFacts NumFacts NumLaws SortFacts SortHead
  SelectFacts HexFacts SelectMore.
Open Scope string_scope.

Section WithMath.
Context {M : MathLib}.










End WithMath.
End SelectSteps.

(** ** The reference host keeps non-negative bases non-negative *)

Module RefFacts.
Import RefMath.
Open Scope Z_scope.

Lemma rootLoop_nonneg fuel k n r :
  1 <= k -> 0 <= n -> 0 <= r -> 0 <= rootLoop fuel k n r.
Proof.
  intros Hk Hn. revert r. induction fuel as [|fuel IH]; intros r Hr; cbn [rootLoop]; [assumption|].
  destruct (_ <? r); [|assumption].
  apply IH. apply Z.div_pos; [|lia].
  assert (0 <= r ^ (k - 1)) by (apply Z.pow_nonneg; assumption).
  assert (0 <= n / r ^ (k - 1)).
  { destruct (Z.eq_dec (r ^ (k - 1)) 0) as [->|Hz]; [now rewrite Z.div_0_r|].
    apply Z.div_pos; lia. }
  nia.
Qed.

Lemma iroot_nonneg k n : 1 <= k -> 0 <= iroot k n.
Proof.
  intros Hk. unfold iroot. destruct (n <=? 0) eqn:E; [lia|].
  apply Z.leb_gt in E. apply rootLoop_nonneg; [assumption|lia|].
  apply Z.pow_nonneg. lia.
Qed.

Lemma ofFix_nonneg z : 0 <= z -> (0 <= ofFix z)%Q.
Proof.
  intros Hz. unfold ofFix. rewrite Qred_correct.
  unfold Qle. cbn. lia.
Qed.

Lemma toFix_nonneg q : (0 <= q)%Q -> 0 <= toFix q.
Proof.
  intros Hq. unfold toFix. change 0 with (Qfloor 0). apply Qfloor_resp_le.
  apply Qmult_le_0_compat; [assumption|]. unfold scale. discriminate.
Qed.

Lemma fix_round_nonneg q : (0 <= q)%Q -> (0 <= fix_round q)%Q.
Proof. intros Hq. apply ofFix_nonneg, toFix_nonneg, Hq. Qed.

Lemma pow_nonneg x y : (0 <= x)%Q -> (0 <= pow x y)%Q.
Proof.
  intros Hx. unfold pow. cbv zeta.
  destruct (Qnum (Qred y) =? 0); [discriminate|].
  destruct (Qle_bool x 0).
  - destruct (Z.pos (Qden (Qred y)) =? 1); [|apply Qle_refl].
    apply fix_round_nonneg, Qpower_0_le, Hx.
  - apply fix_round_nonneg, Qpower_0_le. unfold rootQ.
    apply ofFix_nonneg, iroot_nonneg. lia.
Qed.

End RefFacts.

(* ================================================================== *)
(** * select60-30-10.ts: further properties *)
(* ================================================================== *)

Module SelectLemmas.
Import Select SelectSpec SelectPicks StrFacts NumFacts NumLaws SelectFacts HexFacts
  SelectMore SelectSteps.
Open Scope string_scope.

Section WithMath.
Context {M : MathLib}.

Lemma hexByte_bytes zr zg zb :
  (0 <= zr <= 255)%Z -> (0 <= zg <= 255)%Z -> (0 <= zb <= 255)%Z ->
  let s := "#" ++ HexFacts.twoDigits zr ++ HexFacts.twoDigits zg ++ HexFacts.twoDigits zb in
  hexByte 1 s = Num.div (Num.ofZ zr) 255%Q /\
  hexByte 3 s = Num.div (Num.ofZ zg) 255%Q /\
  hexByte 5 s = Num.div (Num.ofZ zb) 255%Q.
Proof.
  intros Hr Hg Hb s. subst s. unfold hexByte.
  destruct (slices zr zg zb) as (-> & -> & ->).
  now rewrite !byte_parse.
Qed.

Lemma clamp_fixed v : (0 <= v <= 1)%Q -> _clamp v = v.
Proof.
  intros [H0 H1]. unfold _clamp.
  assert (A : Num.ltb v 0 = false) by now apply ltb_ge.
  assert (B : Num.gtb v 1 = false) by now apply gtb_le.
  now rewrite A, B.
Qed.

Lemma hexDigit_channel z :
  (0 <= z <= 255)%Z ->
  Str.padStart2 (Str.toString16 (Num.roundZ (Num.mul (_clamp (Num.div (Num.ofZ z) 255%Q)) 255%Q)))
  = twoDigits z.
Proof.
  intros Hz. rewrite (clamp_fixed (channel_unit Hz)), channel_back. now apply byte_print.
Qed.

Lemma lin_nonneg c : powNonneg -> (0 <= c)%Q -> (0 <= _lin c)%Q.
Proof.
  intros Hp Hc. unfold _lin. destruct (Num.leb c 0.04045%Q).
  - rewrite div_eq. apply Qle_shift_div_l; [reflexivity|]. now rewrite Qmult_0_l.
  - apply Hp. rewrite div_eq, add_eq. apply Qle_shift_div_l; [reflexivity|]. lra.
Qed.

Lemma wcagY_nonneg v y : powNonneg -> wcagY v = Return y -> (0 <= y)%Q.
Proof.
  intros Hp. unfold wcagY.
  destruct (_normaliseHex v) as [n|] eqn:E; [|discriminate].
  cbn [bind]. intros [= <-].
  destruct (normalised_bytes _ (normaliseHex_normalised _ E))
    as (zr & zg & zb & Hr & Hg & Hb & ->).
  destruct (hexByte_bytes Hr Hg Hb) as (Er & Eg & Eb).
  unfold _hexToRgb. cbn [r g b]. rewrite Er, Eg, Eb.
  pose proof (lin_nonneg Hp (proj1 (channel_unit Hr))) as Lr.
  pose proof (lin_nonneg Hp (proj1 (channel_unit Hg))) as Lg.
  pose proof (lin_nonneg Hp (proj1 (channel_unit Hb))) as Lb.
  rewrite !add_eq, !mul_eq.
  set (lr := _lin _) in *. set (lg := _lin _) in *. set (lb := _lin _) in *. lra.
Qed.

Lemma max_sym x y : (Num.max x y == Num.max y x)%Q.
Proof.
  unfold Num.max. destruct (Num.leb x y) eqn:E1, (Num.leb y x) eqn:E2;
    try reflexivity.
  - apply leb_le in E1, E2. lra.
  - apply leb_gt in E1, E2. lra.
Qed.

Lemma min_sym x y : (Num.min x y == Num.min y x)%Q.
Proof.
  unfold Num.min. destruct (Num.leb x y) eqn:E1, (Num.leb y x) eqn:E2;
    try reflexivity.
  - apply leb_le in E1, E2. lra.
  - apply leb_gt in E1, E2. lra.
Qed.

Lemma ratio_sym ya yb :
  Num.div (Num.add (Num.max ya yb) 0.05%Q) (Num.add (Num.min ya yb) 0.05%Q)
  = Num.div (Num.add (Num.max yb ya) 0.05%Q) (Num.add (Num.min yb ya) 0.05%Q).
Proof.
  apply div_comp. rewrite !add_eq. now rewrite (max_sym ya yb), (min_sym ya yb).
Qed.

Lemma ratio_ge1 ya yb :
  (0 <= ya)%Q -> (0 <= yb)%Q ->
  (1 <= Num.div (Num.add (Num.max ya yb) 0.05%Q) (Num.add (Num.min ya yb) 0.05%Q))%Q.
Proof.
  intros Ha Hb. rewrite div_eq, !add_eq.
  pose proof (max_l ya yb). pose proof (min_l ya yb).
  assert (0 <= Num.min ya yb)%Q by now apply min_glb.
  set (mx := Num.max ya yb) in *. set (mn := Num.min ya yb) in *.
  apply Qle_shift_div_l; lra.
Qed.








End WithMath.
End SelectLemmas.

Module SelectProperties.
Import Select SelectSpec SelectPicks StrFacts NumFacts NumLaws SelectFacts HexFacts
  SelectMore SelectSteps SelectLemmas.
Open Scope string_scope.

(** X1. [_normaliseHex] is idempotent: whatever it returns is in the
    canonical form ([#] and six lower-case hexadecimal digits), and it
    returns a canonical colour unchanged. *)
Theorem normaliseHex_canonical (M : MathLib) (v : jsval) (n : string) :
  _normaliseHex v = Return n ->
  isNormalised n = true /\ _normaliseHex (JStr n) = Return n.
Proof.
  intros H. pose proof (normaliseHex_normalised _ H) as Hn.
  split; [assumption|now apply normaliseHex_fixed].
Qed.

Lemma normaliseHex_canonical_witness :
  @_normaliseHex refMath (JStr "  #AbC ") = Return "#aabbcc" /\
  isNormalised "#aabbcc" = true /\
  @_normaliseHex refMath (JStr "#aabbcc") = Return "#aabbcc".
Proof.
  split; [reflexivity|].
  apply (@normaliseHex_canonical refMath (JStr "  #AbC ") "#aabbcc"). reflexivity.
Defined.

(** X2. The hue distance [_hueDist] lies between 0 and 180 degrees for all
    arguments, does not depend on their order, and is 0 between a hue and
    itself. *)
Theorem hueDist_range_symmetric (h1 h2 : num) :
  (0 <= _hueDist h1 h2 <= 180)%Q /\
  _hueDist h1 h2 = _hueDist h2 h1 /\
  _hueDist h1 h1 = 0%Q.
Proof.
  split; [|split].
  - unfold _hueDist.
    destruct (@rem_range (Num.abs (Num.sub h1 h2)) 360%Q (abs_nonneg _) eq_refl) as [Hlo Hhi].
    set (d := Num.rem _ _) in *.
    destruct (Num.gtb d 180%Q) eqn:E.
    + apply gtb_lt in E. rewrite sub_eq. split; lra.
    + apply gtb_le in E. split; assumption.
  - unfold _hueDist.
    assert (E : Num.rem (Num.abs (Num.sub h1 h2)) 360%Q
                = Num.rem (Num.abs (Num.sub h2 h1)) 360%Q).
    { apply rem_comp. rewrite !abs_eq, !sub_eq. now rewrite Qabs_Qminus. }
    now rewrite E.
  - unfold _hueDist. rewrite (@sub_comp h1 h1 0%Q 0%Q) by ring. reflexivity.
Qed.







(** X6. With a host whose power function keeps non-negative bases
    non-negative, a contrast ratio that [wcagContrast] returns is at least 1
    and is the same for both orders of the two colours. *)
Theorem wcagContrast_ratio (M : MathLib) (a b : jsval) (x : num) :
  powNonneg ->
  wcagContrast a b = Return x ->
  (1 <= x)%Q /\ wcagContrast b a = Return x.
Proof.
  intros Hp. unfold wcagContrast.
  destruct (wcagY a) as [ya|] eqn:Ea; [|discriminate].
  destruct (wcagY b) as [yb|] eqn:Eb; [|discriminate].
  cbn [bind]. intros [= <-].
  split.
  - apply ratio_ge1; [exact (wcagY_nonneg _ Hp Ea)|exact (wcagY_nonneg _ Hp Eb)].
  - f_equal. symmetry. apply ratio_sym.
Qed.

Lemma wcagContrast_ratio_witness :
  exists x,
    @wcagContrast refMath (JStr "#000") (JStr "#fff") = Return x /\
    (1 <= x)%Q /\ @wcagContrast refMath (JStr "#fff") (JStr "#000") = Return x.
Proof.
  destruct (@wcagContrast refMath (JStr "#000") (JStr "#fff")) as [x|e] eqn:E.
  - exists x. split; [reflexivity|].
    exact (@wcagContrast_ratio refMath (JStr "#000") (JStr "#fff") x
             (fun u v Hu => RefFacts.pow_nonneg v Hu) E).
  - vm_compute in E. discriminate E.
Defined.



End SelectProperties.

(* ================================================================== *)
(** * RadiumGenerator.ts: further properties *)
(* ================================================================== *)

(** Vocabulary. *)
Module RadiumSpec.
Import Radium.
Open Scope string_scope.

(** A canonical colour: [#] and six lower-case hexadecimal digits. *)
Definition canonical (s : string) : bool := SelectSpec.isNormalised s.

(** The colour from which [generateRadiumColors] derives the palette of one
    entry. *)
Definition baseOf (colors : list string) : string := extractColorFromArray colors.

(** The host computes [1 ^ 2.4] as 1. *)
Definition powOne {M : MathLib} : Prop := Math_pow 1%Q 2.4%Q = 1%Q.

End RadiumSpec.

Module RadiumMore.
Import Radium RadiumSpec RadiumFacts StrFacts NumFacts NumLaws HexFacts SelectSpec SelectPicks.
Open Scope string_scope.

Section WithMath.
Context {M : MathLib}.









Lemma extract_valid colors : HEX_RE_test (extractColorFromArray colors) = true.
Proof.
  induction colors as [|c rest IH]; [reflexivity|]. cbn [extractColorFromArray].
  destruct (HEX_RE_test c) eqn:E; assumption.
Qed.

(** The hue every entry of [SEMANTIC_TRANSFORMS] keeps, and the lightness it
    sets. *)
Definition keepsHue (t : LCH -> LCH) : Prop :=
  forall lch, H (t lch) = H lch /\ (0.1 <= L (t lch) <= 0.97)%Q /\
              ((0 <= C lch)%Q -> (0 <= C (t lch))%Q).

Lemma min_nonneg x y : (0 <= x)%Q -> (0 <= y)%Q -> (0 <= Num.min x y)%Q.
Proof. intros. now apply min_glb. Qed.

Lemma mul_nonneg x y : (0 <= x)%Q -> (0 <= y)%Q -> (0 <= Num.mul x y)%Q.
Proof. intros. rewrite mul_eq. now apply Qmult_le_0_compat. Qed.

Lemma max_nonneg_r x y : (0 <= y)%Q -> (0 <= Num.max x y)%Q.
Proof. intros Hy. apply Qle_trans with (1 := Hy). apply max_r. Qed.

Lemma table_keepsHue : Forall (fun e => keepsHue (snd e)) SEMANTIC_TRANSFORMS.
Proof.
  unfold SEMANTIC_TRANSFORMS.
  repeat (apply Forall_cons;
          [intros lch; cbn [snd L C H]; split; [reflexivity|split; [split; discriminate|]];
           intros HC;
           first [ assumption
                 | apply min_nonneg; [apply mul_nonneg; [assumption|discriminate]|discriminate]
                 | apply mul_nonneg; [assumption|discriminate]
                 | apply max_nonneg_r; discriminate ]
          |]).
  apply Forall_nil.
Qed.

Lemma firstTransform_In k t f :
  firstTransform k t = Some f -> exists p, In (p, f) t.
Proof.
  induction t as [|[p g] rest IH]; cbn [firstTransform]; [discriminate|].
  destruct (p k).
  - intros [= ->]. exists p. now left.
  - intros Hf. destruct (IH Hf) as [q Hq]. exists q. now right.
Qed.

(** Luminance, as [getLuminance] computes it from a canonical colour. *)
Lemma radiumHexByte_bytes zr zg zb :
  (0 <= zr <= 255)%Z -> (0 <= zg <= 255)%Z -> (0 <= zb <= 255)%Z ->
  let s := "#" ++ twoDigits zr ++ twoDigits zg ++ twoDigits zb in
  hexByte 1 s = Num.div (Num.ofZ zr) 255%Q /\
  hexByte 3 s = Num.div (Num.ofZ zg) 255%Q /\
  hexByte 5 s = Num.div (Num.ofZ zb) 255%Q.
Proof.
  intros Hr Hg Hb s. subst s. unfold hexByte.
  destruct (slices zr zg zb) as (-> & -> & ->).
  now rewrite !byte_parse.
Qed.

Lemma linearize_nonneg c : powNonneg -> (0 <= c)%Q -> (0 <= linearize c)%Q.
Proof.
  intros Hp Hc. unfold linearize. destruct (Num.leb c 0.04045%Q).
  - rewrite div_eq. apply Qle_shift_div_l; [reflexivity|]. now rewrite Qmult_0_l.
  - apply Hp. rewrite div_eq, add_eq. apply Qle_shift_div_l; [reflexivity|]. lra.
Qed.

Lemma getLuminance_nonneg s :
  powNonneg -> canonical s = true -> (0 <= getLuminance s)%Q.
Proof.
  intros Hp Hs.
  destruct (normalised_bytes _ Hs) as (zr & zg & zb & Hr & Hg & Hb & ->).
  destruct (radiumHexByte_bytes Hr Hg Hb) as (Er & Eg & Eb).
  unfold getLuminance, hexToRgb01. cbn [r g b]. rewrite Er, Eg, Eb.
  pose proof (linearize_nonneg Hp (proj1 (channel_unit Hr))) as Lr.
  pose proof (linearize_nonneg Hp (proj1 (channel_unit Hg))) as Lg.
  pose proof (linearize_nonneg Hp (proj1 (channel_unit Hb))) as Lb.
  rewrite !add_eq, !mul_eq.
  set (lr := linearize _) in *. set (lg := linearize _) in *. set (lb := linearize _) in *.
  lra.
Qed.

Lemma getLuminance_black : getLuminance "#000000" = 0%Q.
Proof. reflexivity. Qed.

Lemma getLuminance_white : powOne -> getLuminance "#ffffff" = 1%Q.
Proof.
  intros Hp. unfold getLuminance, hexToRgb01. cbn [r g b].
  change (hexByte 1 "#ffffff") with 1%Q. change (hexByte 3 "#ffffff") with 1%Q.
  change (hexByte 5 "#ffffff") with 1%Q.
  unfold linearize. change (Num.leb 1 0.04045%Q) with false. cbv iota.
  change (Num.div (Num.add 1 0.055%Q) 1.055%Q) with 1%Q.
  unfold powOne in Hp. rewrite Hp. reflexivity.
Qed.

End WithMath.
End RadiumMore.

Module RadiumProperties.
Import Radium RadiumSpec RadiumFacts RadiumMore StrFacts NumFacts NumLaws HexFacts
  SelectPicks.
Open Scope string_scope.


(** X9. The base colour of an entry, [extractColorFromArray], is always a
    string that [HEX_RE] accepts: the first such string of the array, or
    "#ff0000" when the array has none. *)
Theorem extractColorFromArray_first_valid (colors : list string) :
  HEX_RE_test (baseOf colors) = true /\
  ((exists pre post,
      colors = (pre ++ baseOf colors :: post)%list /\
      Forall (fun c => HEX_RE_test c = false) pre) \/
   (baseOf colors = "#ff0000" /\ Forall (fun c => HEX_RE_test c = false) colors)).
Proof.
  split; [apply extract_valid|]. unfold baseOf.
  induction colors as [|c rest IH]; cbn [extractColorFromArray].
  - right. split; [reflexivity|constructor].
  - destruct (HEX_RE_test c) eqn:E.
    + left. exists [], rest. split; [reflexivity|constructor].
    + destruct IH as [(pre & post & Hc & Hpre)|[Hd Hall]].
      * left. exists (c :: pre), post. split; [cbn; now rewrite <- Hc|now constructor].
      * right. split; [assumption|now constructor].
Qed.

(** X10. A key that gets a single swatch (an array of at most one colour)
    gets [lchToHexSafe] of a colour with the hue of the base colour, a
    lightness between 0.1 and 0.97 fixed by the key, and a chroma that is
    not negative when the base chroma is not. *)
Theorem generatePalette_single_swatch (M : MathLib) (key : string) (lch : LCH) (n : nat) :
  (n <= 1)%nat ->
  exists t,
    generatePalette key lch n = [lchToHexSafe t] /\
    H t = H lch /\ (0.1 <= L t <= 0.97)%Q /\ ((0 <= C lch)%Q -> (0 <= C t)%Q).
Proof.
  intros Hn. unfold generatePalette.
  assert (E : (1 <? n)%nat = false) by (apply Nat.ltb_ge; exact Hn). rewrite E.
  destruct (firstTransform _ SEMANTIC_TRANSFORMS) as [f|] eqn:Ef.
  - destruct (firstTransform_In _ _ Ef) as [p Hp].
    pose proof (proj1 (Forall_forall _ _) table_keepsHue _ Hp lch) as (A & B & D).
    exists (f lch). cbn [snd] in *. auto.
  - eexists. split; [reflexivity|]. cbn [H L C].
    split; [reflexivity|split; [split; discriminate|]].
    intros _. apply max_nonneg_r. discriminate.
Qed.

Lemma generatePalette_single_swatch_witness :
  (1 <= 1)%nat /\
  exists t,
    @generatePalette refMath "accentColor" {| L := 0.5%Q; C := 0.1%Q; H := 30%Q |} 1
      = [lchToHexSafe t] /\
    H t = 30%Q /\ (0.1 <= L t <= 0.97)%Q /\ ((0 <= 0.1)%Q -> (0 <= C t)%Q).
Proof.
  split; [lia|].
  apply (@generatePalette_single_swatch refMath "accentColor"
           {| L := 0.5%Q; C := 0.1%Q; H := 30%Q |} 1). lia.
Defined.

Unset Implicit Arguments.

(** X11. With a host whose power function keeps non-negative bases
    non-negative and computes [1 ^ 2.4] as 1, the text colour
    [getReadableTextColor] chooses for a canonical background has a contrast
    ratio of at least 4.5 against it (WCAG AA for normal text). *)
Theorem getReadableTextColor_contrast (M : MathLib) (bg : string) :
  powNonneg -> powOne -> canonical bg = true ->
  (4.5 <= getContrastRatio bg (getReadableTextColor bg))%Q.
Proof.
  intros Hp H1 Hbg. pose proof (getLuminance_nonneg bg Hp Hbg) as H0.
  unfold getReadableTextColor, getContrastRatio. cbv zeta.
  set (l := getLuminance bg) in *.
  destruct (Num.gtb l 0.179%Q) eqn:E.
  - apply gtb_lt in E. rewrite getLuminance_black.
    assert (Emax : Num.max l 0 = l).
    { unfold Num.max. destruct (Num.leb l 0) eqn:E'; [apply leb_le in E'; lra|reflexivity]. }
    assert (Emin : Num.min l 0 = 0%Q).
    { unfold Num.min. destruct (Num.leb l 0) eqn:E'; [apply leb_le in E'; lra|reflexivity]. }
    rewrite Emax, Emin, div_eq, !add_eq.
    apply Qle_shift_div_l; lra.
  - apply gtb_le in E. rewrite (getLuminance_white H1).
    assert (Emax : Num.max l 1 = 1%Q).
    { unfold Num.max. destruct (Num.leb l 1) eqn:E'; [reflexivity|apply leb_gt in E'; lra]. }
    assert (Emin : Num.min l 1 = l).
    { unfold Num.min. destruct (Num.leb l 1) eqn:E'; [reflexivity|apply leb_gt in E'; lra]. }
    rewrite Emax, Emin, div_eq, !add_eq.
    apply Qle_shift_div_l; lra.
Qed.

Lemma getReadableTextColor_contrast_witness :
  @powNonneg refMath /\ @powOne refMath /\ canonical "#3498db" = true /\
  (4.5 <= @getContrastRatio refMath "#3498db" (@getReadableTextColor refMath "#3498db"))%Q.
Proof.
  assert (Hp : @powNonneg refMath) by exact (fun u v Hu => RefFacts.pow_nonneg v Hu).
  assert (H1 : @powOne refMath) by (vm_compute; reflexivity).
  split; [exact Hp|]. split; [exact H1|]. split; [reflexivity|].
  apply (@getReadableTextColor_contrast refMath "#3498db" Hp H1). reflexivity.
Defined.

Set Implicit Arguments.

End RadiumProperties.

(* ================================================================== *)
(** * Hex strings and channels, in all five generators *)
(* ================================================================== *)

Module HexRoundTrip.
Import RadiumSpec StrFacts NumFacts NumLaws HexFacts.
Open Scope string_scope.

(** The three bytes of a colour written as [#] and their six digits. *)
Definition ofBytes (zr zg zb : Z) : string :=
  "#" ++ twoDigits zr ++ twoDigits zg ++ twoDigits zb.

Definition isByte (z : Z) : Prop := (0 <= z <= 255)%Z.

Lemma parse_r zr zg zb :
  isByte zr -> Str.parseInt16 (Str.slice 1 (1 + 2) (ofBytes zr zg zb)) = Some zr.
Proof. intros H. unfold ofBytes. rewrite (proj1 (slices zr zg zb)). now apply byte_parse. Qed.

Lemma parse_g zr zg zb :
  isByte zg -> Str.parseInt16 (Str.slice 3 (3 + 2) (ofBytes zr zg zb)) = Some zg.
Proof.
  intros H. unfold ofBytes. rewrite (proj1 (proj2 (slices zr zg zb))). now apply byte_parse.
Qed.

Lemma parse_b zr zg zb :
  isByte zb -> Str.parseInt16 (Str.slice 5 (5 + 2) (ofBytes zr zg zb)) = Some zb.
Proof.
  intros H. unfold ofBytes. rewrite (proj2 (proj2 (slices zr zg zb))). now apply byte_parse.
Qed.

Lemma print_plain z :
  isByte z ->
  Str.padStart2 (Str.toString16 (Num.roundZ (Num.mul (Num.div (Num.ofZ z) 255%Q) 255%Q)))
  = twoDigits z.
Proof. intros H. rewrite channel_back. now apply byte_print. Qed.

Lemma print_clamped01 z :
  isByte z ->
  Str.padStart2 (Str.toString16
    (Num.roundZ (Num.mul (Num.max 0%Q (Num.min 1%Q (Num.div (Num.ofZ z) 255%Q))) 255%Q)))
  = twoDigits z.
Proof.
  intros H.
  assert (E : Num.roundZ (Num.mul (Num.max 0%Q (Num.min 1%Q (Num.div (Num.ofZ z) 255%Q))) 255%Q)
              = z).
  { rewrite <- (channel_back z) at 2. unfold Num.roundZ. apply Qfloor_comp.
    rewrite !mul_eq. now rewrite (clamp_id (channel_unit H)). }
  rewrite E. now apply byte_print.
Qed.

Lemma print_clampedZ z :
  isByte z ->
  Str.padStart2 (Str.toString16
    (Z.max 0 (Z.min 255 (Num.roundZ (Num.mul (Num.div (Num.ofZ z) 255%Q) 255%Q)))))
  = twoDigits z.
Proof.
  intros H. rewrite channel_back.
  replace (Z.max 0 (Z.min 255 z)) with z by (unfold isByte in H; lia).
  now apply byte_print.
Qed.

Lemma select_round zr zg zb :
  isByte zr -> isByte zg -> isByte zb ->
  (let c := Select._hexToRgb (ofBytes zr zg zb) in
   Select._rgbToHex (Select.r c) (Select.g c) (Select.b c)) = ofBytes zr zg zb.
Proof.
  intros Hr Hg Hb. cbv zeta. unfold Select._hexToRgb, Select._rgbToHex, Select.hexByte.
  cbn [Select.r Select.g Select.b].
  rewrite (parse_r zg zb Hr), (parse_g zr zb Hg), (parse_b zr zg Hb).
  now rewrite !SelectLemmas.hexDigit_channel.
Qed.

Lemma radium_round zr zg zb :
  isByte zr -> isByte zg -> isByte zb ->
  Radium.rgbToHex (Radium.hexToRgb01 (ofBytes zr zg zb)) = ofBytes zr zg zb.
Proof.
  intros Hr Hg Hb. unfold Radium.hexToRgb01, Radium.rgbToHex, Radium.hexByte, Radium.clamp01.
  cbn [Radium.r Radium.g Radium.b].
  rewrite (parse_r zg zb Hr), (parse_g zr zb Hg), (parse_b zr zg Hb).
  now rewrite !print_clamped01.
Qed.

Lemma image_round zr zg zb :
  isByte zr -> isByte zg -> isByte zb ->
  Image.rgbToHex (Image.hexToRgb (ofBytes zr zg zb)) = ofBytes zr zg zb.
Proof.
  intros Hr Hg Hb. unfold Image.hexToRgb, Image.rgbToHex, Image.hexByte.
  cbn [Image.r Image.g Image.b].
  rewrite (parse_r zg zb Hr), (parse_g zr zb Hg), (parse_b zr zg Hb).
  now rewrite !print_plain.
Qed.

Lemma algorithmic_round zr zg zb :
  isByte zr -> isByte zg -> isByte zb ->
  Algorithmic.rgbToHex (Algorithmic.hexToRgb (ofBytes zr zg zb)) = ofBytes zr zg zb.
Proof.
  intros Hr Hg Hb. unfold Algorithmic.hexToRgb, Algorithmic.rgbToHex, Algorithmic.hexByte.
  cbn [Algorithmic.r Algorithmic.g Algorithmic.b].
  rewrite (parse_r zg zb Hr), (parse_g zr zb Hg), (parse_b zr zg Hb).
  now rewrite !print_plain.
Qed.

Lemma contrast_round zr zg zb :
  isByte zr -> isByte zg -> isByte zb ->
  Contrast.rgbToHex (Contrast.hexToRgb (ofBytes zr zg zb)) = ofBytes zr zg zb.
Proof.
  intros Hr Hg Hb. unfold Contrast.hexToRgb, Contrast.rgbToHex, Contrast.hexByte.
  cbn [Contrast.r Contrast.g Contrast.b].
  rewrite (parse_r zg zb Hr), (parse_g zr zb Hg), (parse_b zr zg Hb).
  now rewrite !print_clampedZ.
Qed.

Lemma radium_bytes zr zg zb :
  isByte zr -> isByte zg -> isByte zb ->
  Radium.hexToRgb (ofBytes zr zg zb)
  = {| Radium.r255 := zr; Radium.g255 := zg; Radium.b255 := zb |}.
Proof.
  intros Hr Hg Hb. unfold Radium.hexToRgb, Radium.hexToRgb01, Radium.hexByte.
  cbn [Radium.r Radium.g Radium.b].
  rewrite (parse_r zg zb Hr), (parse_g zr zb Hg), (parse_b zr zg Hb).
  now rewrite !channel_back.
Qed.

(** X12. Reading a canonical colour into channels and printing the channels
    gives the colour back, in each of the five generators; and the exported
    [hexToRgb] returns three integers between 0 and 255 whose two-digit
    prints make up the colour. *)
Theorem hex_rgb_round_trip (s : string) :
  canonical s = true ->
  (let c := Select._hexToRgb s in
   Select._rgbToHex (Select.r c) (Select.g c) (Select.b c)) = s /\
  Radium.rgbToHex (Radium.hexToRgb01 s) = s /\
  Image.rgbToHex (Image.hexToRgb s) = s /\
  Algorithmic.rgbToHex (Algorithmic.hexToRgb s) = s /\
  Contrast.rgbToHex (Contrast.hexToRgb s) = s /\
  (let c := Radium.hexToRgb s in
   isByte (Radium.r255 c) /\ isByte (Radium.g255 c) /\ isByte (Radium.b255 c) /\
   s = ofBytes (Radium.r255 c) (Radium.g255 c) (Radium.b255 c)).
Proof.
  intros Hs. destruct (normalised_bytes _ Hs) as (zr & zg & zb & Hr & Hg & Hb & ->).
  fold (ofBytes zr zg zb).
  split; [now apply select_round|]. split; [now apply radium_round|].
  split; [now apply image_round|]. split; [now apply algorithmic_round|].
  split; [now apply contrast_round|].
  cbv zeta. rewrite (radium_bytes Hr Hg Hb). cbn [Radium.r255 Radium.g255 Radium.b255].
  repeat split; try apply Hr; try apply Hg; try apply Hb.
Qed.

Lemma hex_rgb_round_trip_witness :
  canonical "#3498db" = true /\
  (let c := Select._hexToRgb "#3498db" in
   Select._rgbToHex (Select.r c) (Select.g c) (Select.b c)) = "#3498db" /\
  Radium.rgbToHex (Radium.hexToRgb01 "#3498db") = "#3498db" /\
  Image.rgbToHex (Image.hexToRgb "#3498db") = "#3498db" /\
  Algorithmic.rgbToHex (Algorithmic.hexToRgb "#3498db") = "#3498db" /\
  Contrast.rgbToHex (Contrast.hexToRgb "#3498db") = "#3498db" /\
  (let c := Radium.hexToRgb "#3498db" in
   isByte (Radium.r255 c) /\ isByte (Radium.g255 c) /\ isByte (Radium.b255 c) /\
   "#3498db" = ofBytes (Radium.r255 c) (Radium.g255 c) (Radium.b255 c)).
Proof.
  split; [reflexivity|]. apply (hex_rgb_round_trip "#3498db"). reflexivity.
Defined.

End HexRoundTrip.

(* ================================================================== *)
(** * ImageGenerator.ts: further properties *)
(* ================================================================== *)

(** Vocabulary. *)
Module ImageMoreSpec.
Import Image.
Open Scope Q_scope.

(** A number between 0 and 1. *)
Definition unit (x : num) : Prop := 0 <= x <= 1.

Definition unitRgb (c : RGB) : Prop := unit (r c) /\ unit (g c) /\ unit (b c).

(** All three OKLab coordinates between 0 and 1. *)
Definition unitLab (c : Lab) : Prop := unit (L c) /\ unit (a c) /\ unit (b' c).

(** A byte of a pixel buffer. *)
Definition isByte (z : Z) : Prop := (0 <= z <= 255)%Z.

(** The colour [padToK] varies: the last one, or mid grey. *)
Definition padBase (labs : list Lab) : Lab := last labs {| L := 0.5; a := 0; b' := 0 |}.

(** A padding colour: the base with another lightness, between 0.2 and 0.8. *)
Definition variantOf (base c : Lab) : Prop :=
  a c = a base /\ b' c = b' base /\ 0.2 <= L c <= 0.8.

(** A grey of [padRgbToK]. *)
Definition greyPad (c : RGB) : Prop := r c = g c /\ g c = b c /\ 0 <= r c < 1.

End ImageMoreSpec.

Module ImageMore.
Import Image ImageSpec ImageMoreSpec ImageFacts NumFacts NumLaws SortFacts.

Section WithMath.
Context {M : MathLib}.

Lemma clamp01_unit v : unit (clamp01 v).
Proof. unfold clamp01, unit. apply clamp_between. discriminate. Qed.

(** *** Padding *)

Lemma ratio_unit j k : (j < k)%nat -> (0 <= Num.div (Num.ofNat j) (Num.ofNat k) < 1)%Q.
Proof.
  intros H. rewrite div_eq.
  pose proof (ofNat_nonneg j) as Hj. pose proof (ofNat_lt H) as Hjk.
  assert (Hk : (0 < Num.ofNat k)%Q) by lra.
  split.
  - apply Qle_shift_div_l; [assumption|]. lra.
  - apply Qlt_shift_div_r; [assumption|]. lra.
Qed.

Lemma padding_variants base k have :
  Forall (variantOf base) (padding base k have).
Proof.
  unfold padding. apply Forall_forall. intros c Hc.
  apply in_map_iff in Hc as (j & <- & Hj). apply in_seq in Hj.
  unfold variantOf, withL. cbn [L a b'].
  split; [reflexivity|split; [reflexivity|]].
  assert (Hjk : (j < k)%nat) by lia.
  pose proof (ratio_unit Hjk) as [H0 H1].
  set (t := Num.div (Num.ofNat j) (Num.ofNat k)) in *.
  assert (Hv : (0.2 <= Num.add 0.2 (Num.mul t 0.6) <= 0.8)%Q).
  { rewrite add_eq, mul_eq. split; lra. }
  assert (E : (clamp01 (Num.add 0.2 (Num.mul t 0.6)) == Num.add 0.2 (Num.mul t 0.6))%Q).
  { unfold clamp01. apply clamp_id. lra. }
  rewrite E. exact Hv.
Qed.

Lemma padRgbLoop_spec k fuel result :
  fuel = (k - List.length result)%nat ->
  padRgbLoop fuel k result =
    (result ++ map (fun j => let t := Num.div (Num.ofNat j) (Num.ofNat k) in
                             {| r := t; g := t; b := t |})
                   (seq (List.length result) (k - List.length result)))%list.
Proof.
  revert result. induction fuel as [|fuel IH]; intros result Hf.
  - rewrite <- Hf. cbn. now rewrite app_nil_r.
  - cbn [padRgbLoop].
    assert (Hlt : (List.length result <? k)%nat = true) by (apply Nat.ltb_lt; lia).
    rewrite Hlt, IH by (rewrite length_app; cbn; lia).
    rewrite length_app, <- app_assoc. cbn [List.length app]. f_equal.
    rewrite <- Hf. cbn [seq map].
    replace (List.length result + 1)%nat with (S (List.length result)) by lia.
    replace (k - S (List.length result))%nat with fuel by lia. reflexivity.
Qed.

Lemma padRgbToK_spec rgbs k :
  padRgbToK rgbs k =
    if (k <=? List.length rgbs)%nat then firstn k rgbs
    else (rgbs ++ map (fun j => let t := Num.div (Num.ofNat j) (Num.ofNat k) in
                                {| r := t; g := t; b := t |})
                      (seq (List.length rgbs) (k - List.length rgbs)))%list.
Proof.
  unfold padRgbToK. destruct (k <=? List.length rgbs)%nat; [reflexivity|].
  now apply padRgbLoop_spec.
Qed.

Lemma padRgbToK_length rgbs k : List.length (padRgbToK rgbs k) = k.
Proof.
  rewrite padRgbToK_spec. destruct (k <=? List.length rgbs)%nat eqn:E.
  - apply Nat.leb_le in E. rewrite length_firstn. lia.
  - apply Nat.leb_gt in E. rewrite length_app, length_map, length_seq. lia.
Qed.

Lemma greys_ok k have :
  Forall greyPad (map (fun j => let t := Num.div (Num.ofNat j) (Num.ofNat k) in
                                {| r := t; g := t; b := t |})
                      (seq have (k - have))).
Proof.
  apply Forall_forall. intros c Hc.
  apply in_map_iff in Hc as (j & <- & Hj). apply in_seq in Hj.
  unfold greyPad. cbn [r g b]. split; [reflexivity|split; [reflexivity|]].
  apply ratio_unit. lia.
Qed.

Lemma greyPad_unit c : greyPad c -> unitRgb c.
Proof.
  intros (E1 & E2 & H0 & H1). unfold unitRgb, unit. rewrite <- E2, <- E1.
  repeat split; lra.
Qed.

Lemma Forall_firstn (A : Type) (P : A -> Prop) n (l : list A) :
  Forall P l -> Forall P (firstn n l).
Proof.
  intros H. apply Forall_forall. intros x Hx.
  apply (proj1 (Forall_forall _ _) H). rewrite <- (firstn_skipn n l).
  apply in_or_app. now left.
Qed.

Lemma Forall_skipn (A : Type) (P : A -> Prop) n (l : list A) :
  Forall P l -> Forall P (skipn n l).
Proof.
  intros H. apply Forall_forall. intros x Hx.
  apply (proj1 (Forall_forall _ _) H). rewrite <- (firstn_skipn n l).
  apply in_or_app. now right.
Qed.

Lemma padRgbToK_unit rgbs k : Forall unitRgb rgbs -> Forall unitRgb (padRgbToK rgbs k).
Proof.
  intros H. rewrite padRgbToK_spec. destruct (k <=? List.length rgbs)%nat.
  - now apply Forall_firstn.
  - apply Forall_app. split; [assumption|].
    eapply Forall_impl; [|apply greys_ok]. apply greyPad_unit.
Qed.

End WithMath.
End ImageMore.

Module ImagePadding.
Import Image ImageSpec ImageMoreSpec ImageFacts ImageMore NumFacts NumLaws.

(** X13. [padToK] returns exactly [k] colours.  A list of at least [k]
    colours is cut to its first [k].  A shorter list is kept as it is and
    extended: every added colour has the a and b coordinates of the last
    given colour (of mid grey when the list is empty) and a lightness between
    0.2 and 0.8.  [padRgbToK] does the same with greys whose level lies in
    [0, 1). *)
Theorem padToK_contract (labs : list Lab) (rgbs : list RGB) (k : nat) :
  List.length (padToK labs k) = k /\
  List.length (padRgbToK rgbs k) = k /\
  (exists pads,
     padToK labs k = (firstn k labs ++ pads)%list /\
     List.length pads = (k - List.length labs)%nat /\
     Forall (variantOf (padBase labs)) pads) /\
  (exists pads,
     padRgbToK rgbs k = (firstn k rgbs ++ pads)%list /\
     List.length pads = (k - List.length rgbs)%nat /\
     Forall greyPad pads).
Proof.
  split; [apply padToK_length|]. split; [apply padRgbToK_length|]. split.
  - rewrite (@padToK_spec refMath). destruct (k <=? List.length labs)%nat eqn:E.
    + apply Nat.leb_le in E. exists []. rewrite app_nil_r.
      split; [reflexivity|]. split; [cbn; lia|constructor].
    + apply Nat.leb_gt in E. eexists. split; [|split].
      * rewrite firstn_all2 by lia. reflexivity.
      * unfold padding. now rewrite length_map, length_seq.
      * apply (@padding_variants refMath).
  - rewrite padRgbToK_spec. destruct (k <=? List.length rgbs)%nat eqn:E.
    + apply Nat.leb_le in E. exists []. rewrite app_nil_r.
      split; [reflexivity|]. split; [cbn; lia|constructor].
    + apply Nat.leb_gt in E. eexists. split; [|split].
      * rewrite firstn_all2 by lia. reflexivity.
      * now rewrite length_map, length_seq.
      * apply greys_ok.
Qed.

End ImagePadding.

Module ImageSampling.
Import Image ImageSpec ImageMoreSpec ImageFacts ImageMore NumFacts NumLaws HexFacts.

Section WithMath.
Context {M : MathLib}.

(** *** The sampling loop *)







(** *** Synthetic pixels *)

Definition opaque (buf : list Z) : Prop :=
  forall j v, nth_error buf (4 * j + 3) = Some v -> v = 255%Z.

Definition wholePixels (buf : list Z) (count : nat) : Prop :=
  List.length buf = (4 * count)%nat /\ Forall isByte buf /\ opaque buf.

Lemma toUint8Clamp_byte x : isByte (toUint8Clamp x).
Proof. unfold toUint8Clamp, isByte. cbv zeta. lia. Qed.

Lemma wholePixels_app b1 b2 n1 n2 :
  wholePixels b1 n1 -> wholePixels b2 n2 -> wholePixels (b1 ++ b2) (n1 + n2).
Proof.
  intros (L1 & B1 & O1) (L2 & B2 & O2). split; [|split].
  - rewrite length_app. lia.
  - apply Forall_app. now split.
  - intros j v Hv. destruct (Nat.lt_ge_cases (4 * j + 3) (List.length b1)) as [Hlt|Hge].
    + rewrite nth_error_app1 in Hv by assumption. exact (O1 j v Hv).
    + rewrite nth_error_app2 in Hv by assumption.
      apply (O2 (j - n1)%nat v). rewrite <- Hv. f_equal. lia.
Qed.

Lemma syntheticPixel_whole rnd pos c : wholePixels (syntheticPixel rnd pos c) 1.
Proof.
  unfold syntheticPixel. cbv zeta. split; [reflexivity|split].
  - repeat constructor; try apply toUint8Clamp_byte; unfold isByte; lia.
  - intros j v Hv. destruct j as [|j].
    + cbn in Hv. now injection Hv as <-.
    + exfalso. assert (Hn : nth_error (syntheticPixel rnd pos c) (4 * S j + 3) <> None)
        by (unfold syntheticPixel; cbv zeta; rewrite Hv; discriminate).
      apply nth_error_Some in Hn. cbn [List.length syntheticPixel] in Hn.
      unfold syntheticPixel in Hn. cbn [List.length] in Hn. lia.
Qed.

Lemma syntheticRun_whole count rnd pos c :
  wholePixels (fst (syntheticRun count rnd pos c)) count /\
  snd (syntheticRun count rnd pos c) = (pos + 3 * count)%nat.
Proof.
  revert pos. induction count as [|count IH]; intros pos; cbn [syntheticRun].
  - split; [|cbn; lia]. split; [reflexivity|split; [constructor|]].
    intros j v Hv. destruct (4 * j + 3)%nat; discriminate Hv.
  - specialize (IH (pos + 3)%nat).
    destruct (syntheticRun count rnd (pos + 3) c) as [rest pos'] eqn:E.
    cbn [fst snd] in *. destruct IH as [Hw ->]. split; [|lia].
    exact (wholePixels_app (syntheticPixel_whole rnd pos c) Hw).
Qed.

Lemma syntheticPixels_whole rnd pos colors :
  wholePixels (fst (syntheticPixels rnd pos colors)) (800 * List.length colors) /\
  snd (syntheticPixels rnd pos colors) = (pos + 2400 * List.length colors)%nat.
Proof.
  revert pos. induction colors as [|hex rest IH]; intros pos; cbn [syntheticPixels].
  - split; [|cbn; lia]. split; [reflexivity|split; [constructor|]].
    intros j v Hv. destruct (4 * j + 3)%nat; discriminate Hv.
  - pose proof (syntheticRun_whole 800 rnd pos (hexToRgb hex)) as [Hw Hp].
    destruct (syntheticRun 800 rnd pos (hexToRgb hex)) as [buf pos1].
    cbn [fst snd] in Hw, Hp. specialize (IH pos1).
    destruct (syntheticPixels rnd pos1 rest) as [bufs pos2].
    cbn [fst snd] in *. destruct IH as [Hws ->]. split.
    + replace (800 * List.length (hex :: rest))%nat
        with (800 + 800 * List.length rest)%nat by (cbn [List.length]; lia).
      exact (wholePixels_app Hw Hws).
    + cbn [List.length]. lia.
Qed.

Lemma sample_nonempty buf count maxPixels :
  wholePixels buf count -> (1 <= count)%nat ->
  rgbs (samplePixels buf maxPixels) <> [].
Proof.
  intros (Hl & _ & Ho) Hc. unfold samplePixels. cbn [rgbs sampleLoop].
  assert (E : (0 <? List.length buf)%nat = true) by (apply Nat.ltb_lt; lia).
  rewrite E. unfold alphaBelow128, at_.
  destruct (nth_error buf (0 + 3)) as [v|] eqn:Ev.
  - rewrite (Ho 0%nat v Ev). cbn. discriminate.
  - discriminate.
Qed.

End WithMath.
End ImageSampling.

Module ImageSamplingProperties.
Import Image ImageSpec ImageMoreSpec ImageFacts ImageMore ImageSampling NumFacts NumLaws.



(** X15. The synthetic buffer made from the hint colours holds 800 opaque
    pixels per colour: 3200 bytes each, every value a byte, every alpha 255;
    building it takes 2400 draws per colour; and unless the list of colours
    is empty, sampling it yields a non-empty sample. *)
Theorem syntheticPixels_shape (M : MathLib) (rnd : Rand) (pos : nat)
  (colors : list string) (maxPixels : nat) :
  let buf := fst (syntheticPixels rnd pos colors) in
  List.length buf = (3200 * List.length colors)%nat /\
  snd (syntheticPixels rnd pos colors) = (pos + 2400 * List.length colors)%nat /\
  Forall isByte buf /\
  opaque buf /\
  (colors = [] \/ labs (samplePixels buf maxPixels) <> []).
Proof.
  cbv zeta. destruct (syntheticPixels_whole rnd pos colors) as [Hw Hp].
  pose proof Hw as (Hl & Hb & Ho).
  split; [lia|]. split; [assumption|]. split; [assumption|]. split; [assumption|].
  destruct colors as [|c rest]; [now left|right].
  intros Hn. apply (sample_nonempty maxPixels Hw); [cbn [List.length]; lia|].
  unfold samplePixels in *. cbn [rgbs labs] in *.
  now apply map_eq_nil in Hn.
Qed.

End ImageSamplingProperties.

(* ================================================================== *)
(** * ImageGenerator.ts: the extractors *)
(* ================================================================== *)

Module ExtractFacts.
Import Image Extract ImageSpec ImageMoreSpec ImageFacts ImageMore NumFacts NumLaws
  SortFacts.

Section WithMath.
Context {M : MathLib}.

Lemma ofNat_succ n : (Num.ofNat (S n) == Num.ofNat n + 1)%Q.
Proof.
  unfold Num.ofNat. rewrite Nat2Z.inj_succ. unfold Z.succ.
  now rewrite inject_Z_plus.
Qed.

(** *** Colour moments *)

Lemma variant_unit c : variantOf {| L := 0.5%Q; a := 0%Q; b' := 0%Q |} c -> unitLab c.
Proof.
  intros (Ea & Eb & H0 & H1). unfold unitLab, unit. rewrite Ea, Eb. cbn [a b'].
  repeat split; try discriminate; lra.
Qed.

Lemma padToK_nil_unit k : Forall unitLab (padToK [] k).
Proof.
  rewrite (@padToK_spec M). destruct (k <=? List.length (@nil Lab))%nat.
  - rewrite firstn_nil. constructor.
  - cbn [app last]. eapply Forall_impl; [|apply (@padding_variants M)]. apply variant_unit.
Qed.

(** *** Sums of channels *)

Lemma sum_bounds (A : Type) (f : A -> num) (l : list A) acc :
  Forall (fun p => unit (f p)) l ->
  (acc <= fold_left (fun s p => Num.add s (f p)) l acc
   /\ fold_left (fun s p => Num.add s (f p)) l acc <= acc + Num.ofNat (List.length l))%Q.
Proof.
  intros H. revert acc. induction H as [|p l [H0 H1] HF IH]; intros acc; cbn [fold_left List.length].
  - change (Num.ofNat 0) with 0%Q. split; lra.
  - destruct (IH (Num.add acc (f p))) as [Hlo Hhi].
    pose proof (add_eq acc (f p)) as E. pose proof (ofNat_succ (List.length l)) as En.
    set (s := Num.add acc (f p)) in *.
    set (F := fold_left _ l s) in *. unfold unit in *. split; lra.
Qed.

Lemma boxMean_unit pixels :
  pixels <> [] -> Forall unitRgb pixels -> unitRgb (boxMean pixels).
Proof.
  intros Hne H.
  assert (Hn : (0 < Num.ofNat (List.length pixels))%Q).
  { apply ofNat_pos. destruct pixels; [congruence|cbn; lia]. }
  assert (Hch : forall f : RGB -> num,
             Forall (fun p => unit (f p)) pixels ->
             unit (Num.div (sumOf f pixels) (Num.ofNat (List.length pixels)))).
  { intros f Hf. destruct (sum_bounds f 0%Q Hf) as [Hlo Hhi].
    unfold unit, sumOf. rewrite div_eq. split.
    - apply Qle_shift_div_l; [assumption|]. lra.
    - apply Qle_shift_div_r; [assumption|]. lra. }
  unfold boxMean, unitRgb. cbv zeta. cbn [r g b].
  repeat split; apply Hch; eapply Forall_impl; try exact H; cbv beta;
    intros p (A & B & C); assumption.
Qed.

(** *** Median cut *)

Definition goodBoxes (boxes : list (list RGB)) : Prop :=
  boxes <> [] /\ Forall (fun box => box <> [] /\ Forall unitRgb box) boxes.

Lemma sortBy_Forall (A : Type) (cmp : A -> A -> num) (P : A -> Prop) l :
  Forall P l -> Forall P (sortBy cmp l).
Proof.
  intros H. apply Forall_forall. intros x Hx. apply (proj1 (sortBy_In cmp x l)) in Hx.
  exact (proj1 (Forall_forall _ _) H x Hx).
Qed.

Lemma sortBy_nonempty (A : Type) (cmp : A -> A -> num) l : l <> [] -> sortBy cmp l <> [].
Proof.
  intros Hl E. apply Hl. apply length_zero_iff_nil.
  rewrite <- (sortBy_length cmp). now rewrite E.
Qed.

Lemma splitBox_good box :
  (2 <= List.length box)%nat -> Forall unitRgb box ->
  (fst (splitBox box) <> [] /\ Forall unitRgb (fst (splitBox box))) /\
  (snd (splitBox box) <> [] /\ Forall unitRgb (snd (splitBox box))).
Proof.
  intros Hl H. unfold splitBox. cbv zeta. cbn [fst snd].
  set (sorted := sortBy _ box).
  assert (Hs : List.length sorted = List.length box) by apply sortBy_length.
  assert (HF : Forall unitRgb sorted) by now apply sortBy_Forall.
  assert (Hmid : (1 <= List.length sorted / 2 < List.length sorted)%nat).
  { rewrite Hs. split.
    - apply Nat.div_le_lower_bound; lia.
    - apply Nat.div_lt; lia. }
  repeat split.
  - intros E. apply (f_equal (@List.length RGB)) in E. rewrite length_firstn in E.
    cbn [List.length] in E. lia.
  - now apply Forall_firstn.
  - intros E. apply (f_equal (@List.length RGB)) in E. rewrite length_skipn in E.
    cbn [List.length] in E. lia.
  - now apply Forall_skipn.
Qed.

Lemma cutLoop_good fuel k boxes :
  goodBoxes boxes ->
  exists boxes', cutLoop fuel k boxes = Return boxes' /\ goodBoxes boxes'.
Proof.
  revert boxes. induction fuel as [|fuel IH]; intros boxes Hg; cbn [cutLoop].
  - now exists boxes.
  - destruct (List.length boxes <? k)%nat; [|now exists boxes].
    destruct Hg as [Hne HF].
    pose proof (sortBy_nonempty byPixelsDesc Hne) as Hsne.
    pose proof (sortBy_Forall byPixelsDesc HF) as HsF.
    destruct (sortBy byPixelsDesc boxes) as [|box rest]; [congruence|].
    destruct (List.length box <? 2)%nat eqn:E2.
    + exists (box :: rest). split; [reflexivity|]. split; [discriminate|assumption].
    + apply Nat.ltb_ge in E2.
      pose proof (Forall_inv HsF) as [_ Hbox]. pose proof (Forall_inv_tail HsF) as Hrest.
      destruct (splitBox_good E2 Hbox) as [Hl Hr].
      destruct (splitBox box) as [lower upper]. cbn [fst snd] in Hl, Hr.
      apply IH. split.
      * intros E. apply (f_equal (@List.length (list RGB))) in E.
        rewrite length_app in E. cbn in E. lia.
      * apply Forall_app. split; [assumption|]. repeat constructor; tauto.
Qed.

(** *** Dominant *)

Lemma quantize_unit x : unit x -> unit (quantize x).
Proof.
  intros [H0 H1]. unfold quantize, unit. rewrite div_eq. unfold Num.ofZ.
  assert (Hr : (0 <= Num.roundZ (Num.mul x 7%Q) <= 7)%Z).
  { unfold Num.roundZ.
    assert (E : (Num.mul x 7 + (1 # 2) == x * 7 + (1 # 2))%Q) by now rewrite mul_eq.
    rewrite (Qfloor_comp _ _ E).
    assert (Lo : (Qfloor (1 # 2) <= Qfloor (x * 7 + (1 # 2)))%Z)
      by (apply Qfloor_resp_le; lra).
    assert (Hi : (Qfloor (x * 7 + (1 # 2)) <= Qfloor (15 # 2))%Z)
      by (apply Qfloor_resp_le; lra).
    change (Qfloor (1 # 2)) with 0%Z in Lo. change (Qfloor (15 # 2)) with 7%Z in Hi.
    split; assumption. }
  assert (A : (inject_Z 0 <= inject_Z (Num.roundZ (Num.mul x 7%Q)))%Q)
    by (rewrite <- Zle_Qle; lia).
  assert (B : (inject_Z (Num.roundZ (Num.mul x 7%Q)) <= inject_Z 7)%Q)
    by (rewrite <- Zle_Qle; lia).
  change (inject_Z 0) with 0%Q in A. change (inject_Z 7) with 7%Q in B.
  split.
  - apply Qle_shift_div_l; [reflexivity|]. lra.
  - apply Qle_shift_div_r; [reflexivity|]. lra.
Qed.

Definition quantized (p : RGB) : RGB :=
  {| r := quantize (r p); g := quantize (g p); b := quantize (b p) |}.

(** The keys of a tally, in the order of first appearance, are pairwise
    different. *)
Fixpoint distinctKeys (m : list Entry) : Prop :=
  match m with
  | [] => True
  | e :: rest =>
      distinctKeys rest /\
      Forall (fun e' => sameKey (e_rgb e') (e_rgb e) = false) rest
  end.

Lemma countIn_keys q m e' :
  In e' (countIn q m) -> e_rgb e' = q \/ exists e, In e m /\ e_rgb e = e_rgb e'.
Proof.
  induction m as [|e rest IH]; cbn [countIn].
  - intros [<-|[]]. now left.
  - destruct (sameKey q (e_rgb e)).
    + intros [E|Hin]; right; [exists e|exists e']; cbn [In]; [|now auto].
      split; [now left|]. now rewrite <- E.
    + intros [E|Hin]; [right; exists e; cbn [In]; split; [now left|now rewrite E]|].
      destruct (IH Hin) as [Hq|(e0 & H0 & E0)]; [now left|].
      right. exists e0. cbn [In]. auto.
Qed.

Lemma countIn_distinct q m : distinctKeys m -> distinctKeys (countIn q m).
Proof.
  induction m as [|e rest IH]; cbn [countIn distinctKeys].
  - intros _. split; [exact I|constructor].
  - intros [Hd HF]. destruct (sameKey q (e_rgb e)) eqn:E.
    + cbn [distinctKeys e_rgb]. split; assumption.
    + cbn [distinctKeys]. split; [now apply IH|].
      apply Forall_forall. intros e' Hin.
      destruct (countIn_keys _ _ _ Hin) as [Hq|(e0 & H0 & E0)].
      * now rewrite Hq.
      * rewrite <- E0. exact (proj1 (Forall_forall _ _) HF e0 H0).
Qed.

Lemma sameKey_refl p : sameKey p p = true.
Proof.
  unfold sameKey, Num.eqb. rewrite !(proj2 (Qeq_bool_iff _ _) (Qeq_refl _)). reflexivity.
Qed.

Lemma distinct_NoDup m : distinctKeys m -> NoDup (map e_rgb m).
Proof.
  induction m as [|e rest IH]; cbn [distinctKeys map]; [constructor|].
  intros [Hd HF]. constructor; [|now apply IH].
  intros Hin. apply in_map_iff in Hin as (e' & E' & Hin').
  pose proof (proj1 (Forall_forall _ _) HF e' Hin') as Hk. cbv beta in Hk.
  rewrite E', sameKey_refl in Hk. discriminate.
Qed.

Lemma fold_tally (P : list Entry -> Prop) rgbs m :
  P m -> (forall q m', P m' -> P (countIn q m')) ->
  P (fold_left (fun m p => countIn (quantized p) m) rgbs m).
Proof.
  intros H0 Hstep. revert m H0. induction rgbs as [|p rest IH]; intros m H0; cbn [fold_left].
  - assumption.
  - apply IH. now apply Hstep.
Qed.

Lemma tally_distinct rgbs : distinctKeys (tally rgbs).
Proof.
  unfold tally. apply (fold_tally distinctKeys); [exact I|].
  intros q m'. apply countIn_distinct.
Qed.

Lemma tally_from rgbs :
  Forall (fun e => exists p, In p rgbs /\ e_rgb e = quantized p) (tally rgbs).
Proof.
  unfold tally.
  change (fun m p => countIn {| r := quantize (r p); g := quantize (g p); b := quantize (b p) |} m)
    with (fun m p => countIn (quantized p) m).
  assert (G : forall rest m,
             Forall (fun e => exists p, In p rgbs /\ e_rgb e = quantized p) m ->
             incl rest rgbs ->
             Forall (fun e => exists p, In p rgbs /\ e_rgb e = quantized p)
                    (fold_left (fun m p => countIn (quantized p) m) rest m)).
  { induction rest as [|p rest IH]; intros m Hm Hincl; cbn [fold_left]; [assumption|].
    apply IH; [|intros x Hx; apply Hincl; now right].
    apply Forall_forall. intros e' Hin.
    destruct (countIn_keys _ _ _ Hin) as [Hq|(e0 & H0 & E0)].
    - exists p. split; [apply Hincl; now left|assumption].
    - destruct (proj1 (Forall_forall _ _) Hm e0 H0) as (p0 & Hp0 & Ep0).
      exists p0. split; [assumption|congruence]. }
  apply G; [constructor|apply incl_refl].
Qed.

Lemma quantized_unit p : unitRgb p -> unitRgb (quantized p).
Proof.
  intros (A & B & C). unfold unitRgb, quantized. cbn [r g b].
  repeat split; now apply quantize_unit.
Qed.

End WithMath.
End ExtractFacts.

Module DeltaEFacts.
Import Image Extract ImageSpec ImageMoreSpec ImageFacts ImageMore NumFacts NumLaws.

Section WithMath.
Context {M : MathLib}.

Lemma sq_nonneg x : (0 <= sq x)%Q.
Proof. unfold sq. rewrite mul_eq. nra. Qed.

Lemma labDist2_nonneg p q : (0 <= labDist2 p q)%Q.
Proof.
  unfold labDist2. rewrite !add_eq.
  pose proof (sq_nonneg (Num.sub (L p) (L q))). pose proof (sq_nonneg (Num.sub (a p) (a q))).
  pose proof (sq_nonneg (Num.sub (b' p) (b' q))). lra.
Qed.

Lemma labDist2_self p : (labDist2 p p == 0)%Q.
Proof.
  unfold labDist2, sq. rewrite !add_eq, !mul_eq, !sub_eq. ring.
Qed.

(** The running minimum, once it is a number. *)
Lemma minDist_from c selected m0 :
  (0 <= m0)%Q ->
  exists m, fold_left (fun mn s => ext_min mn (labDist2 c s)) selected (Fin m0) = Fin m /\
            (0 <= m <= m0)%Q /\ Forall (fun s => (m <= labDist2 c s)%Q) selected.
Proof.
  revert m0. induction selected as [|s rest IH]; intros m0 H0; cbn [fold_left ext_min].
  - exists m0. split; [reflexivity|]. split; [split; [assumption|apply Qle_refl]|constructor].
  - assert (Hm : (0 <= Num.min m0 (labDist2 c s))%Q)
      by (apply min_glb; [assumption|apply labDist2_nonneg]).
    destruct (IH _ Hm) as (m & E & [Hlo Hhi] & HF).
    exists m. split; [assumption|].
    pose proof (min_l m0 (labDist2 c s)). pose proof (min_r m0 (labDist2 c s)).
    split; [split; [assumption|lra]|]. constructor; [lra|assumption].
Qed.

Lemma minDist_Fin c selected :
  selected <> [] ->
  exists m, minDist c selected = Fin m /\ (0 <= m)%Q /\
            Forall (fun s => (m <= labDist2 c s)%Q) selected.
Proof.
  destruct selected as [|s rest]; [congruence|]. intros _.
  unfold minDist. cbn [fold_left ext_min].
  destruct (minDist_from c rest (labDist2_nonneg c s)) as (m & E & [Hlo Hhi] & HF).
  exists m. split; [assumption|]. split; [assumption|]. constructor; assumption.
Qed.

Lemma minDist_member c selected :
  In c selected -> ext_isZero (minDist c selected) = true.
Proof.
  intros Hin.
  assert (Hne : selected <> []) by (intros ->; destruct Hin).
  destruct (minDist_Fin c Hne) as (m & -> & H0 & HF).
  pose proof (proj1 (Forall_forall _ _) HF c Hin) as Hc. cbv beta in Hc.
  rewrite labDist2_self in Hc. cbn [ext_isZero]. unfold Num.eqb.
  apply Qeq_bool_iff. lra.
Qed.

(** The scan returns a candidate together with its distance to the
    selection. *)
Definition scanned (selected cands : list Lab) (acc : Lab * ext) : Prop :=
  In (fst acc) cands /\ snd acc = minDist (fst acc) selected.

Lemma scan_keeps selected cands rest acc :
  incl rest cands -> scanned selected cands acc ->
  scanned selected cands
    (fold_left (fun acc c =>
                  let minD := minDist c selected in
                  if ext_gt minD (snd acc) then (c, minD) else acc) rest acc).
Proof.
  revert acc. induction rest as [|c rest IH]; intros acc Hincl Hacc; cbn [fold_left].
  - assumption.
  - apply IH; [intros x Hx; apply Hincl; now right|].
    cbv zeta. destruct (ext_gt _ _); [|assumption].
    split; [apply Hincl; now left|reflexivity].
Qed.

Lemma farthestFrom_scanned selected first rest :
  selected <> [] ->
  scanned selected (first :: rest) (farthestFrom selected (first :: rest) first).
Proof.
  intros Hne. unfold farthestFrom. cbn [fold_left snd]. cbv zeta.
  destruct (minDist_Fin first Hne) as (m & E & _).
  rewrite E. cbn [ext_gt].
  apply scan_keeps; [intros x Hx; now right|].
  split; [now left|]. cbn [fst snd]. now rewrite E.
Qed.

Definition selection (cands selected : list Lab) : Prop :=
  selected <> [] /\ NoDup selected /\ incl selected cands.

Lemma selectLoop_selection fuel k first rest selected :
  selection (first :: rest) selected ->
  selection (first :: rest) (selectLoop fuel k (first :: rest) first selected).
Proof.
  revert selected. induction fuel as [|fuel IH]; intros selected Hs; cbn [selectLoop].
  - assumption.
  - destruct (List.length selected <? k)%nat; [|assumption].
    destruct Hs as (Hne & Hnd & Hincl).
    pose proof (farthestFrom_scanned first rest Hne) as [Hin Hfd].
    destruct (farthestFrom selected (first :: rest) first) as [far fd].
    cbn [fst snd] in Hin, Hfd.
    destruct (ext_isZero fd) eqn:Ez; [repeat split; assumption|].
    apply IH. split; [|split].
    + intros E. apply (f_equal (@List.length Lab)) in E. rewrite length_app in E.
      cbn [List.length] in E. lia.
    + apply NoDup_app; [assumption|repeat constructor; intros []|].
      intros x Hx [<-|[]]. rewrite Hfd, (minDist_member _ _ Hx) in Ez. discriminate.
    + intros x Hx. apply in_app_or in Hx as [Hx|[<-|[]]]; [now apply Hincl|assumption].
Qed.

Lemma selectLoop_head fuel k cands first seed tl0 :
  exists tl, selectLoop fuel k cands first (seed :: tl0) = seed :: tl.
Proof.
  revert tl0. induction fuel as [|fuel IH]; intros tl0; cbn [selectLoop]; [eauto|].
  destruct (_ <? k)%nat; [|eauto].
  destruct (farthestFrom _ _ _) as [far fd].
  destruct (ext_isZero fd); [eauto|].
  cbn [app]. apply IH.
Qed.

Lemma everyNth_incl step i labs : incl (everyNth step i labs) labs.
Proof.
  revert i. induction labs as [|l rest IH]; intros i; cbn [everyNth]; [apply incl_refl|].
  destruct (i mod step =? 0)%nat.
  - intros x [<-|Hx]; [now left|right; exact (IH _ _ Hx)].
  - intros x Hx. right. exact (IH _ _ Hx).
Qed.

(** The seed is a candidate of greatest chroma. *)
Lemma mostChromatic_spec first rest :
  In (mostChromatic first rest) (first :: rest) /\
  Forall (fun c => (labChroma c <= labChroma (mostChromatic first rest))%Q) (first :: rest).
Proof.
  unfold mostChromatic.
  assert (G : forall rest best,
             (labChroma best <= labChroma (fold_left
                (fun best lab => if Num.gtb (labChroma lab) (labChroma best) then lab else best)
                rest best))%Q /\
             (fold_left (fun best lab => if Num.gtb (labChroma lab) (labChroma best)
                                         then lab else best) rest best = best \/
              In (fold_left (fun best lab => if Num.gtb (labChroma lab) (labChroma best)
                                             then lab else best) rest best) rest) /\
             Forall (fun c => (labChroma c <= labChroma (fold_left
                (fun best lab => if Num.gtb (labChroma lab) (labChroma best) then lab else best)
                rest best))%Q) rest).
  { clear. induction rest as [|c rest IH]; intros best; cbn [fold_left].
    - split; [apply Qle_refl|]. split; [now left|constructor].
    - destruct (Num.gtb (labChroma c) (labChroma best)) eqn:E.
      + apply gtb_lt in E. destruct (IH c) as (A & B & D).
        split; [lra|]. split; [right; destruct B as [->|B]; [now left|now right]|].
        constructor; assumption.
      + apply gtb_le in E. destruct (IH best) as (A & B & D).
        split; [assumption|]. split; [destruct B as [B|B]; [now left|right; now right]|].
        constructor; [lra|assumption]. }
  destruct (G rest first) as (A & B & D). split.
  - destruct B as [->|B]; [now left|now right].
  - constructor; assumption.
Qed.

End WithMath.
End DeltaEFacts.

Module ExtractMore.
Import Image Extract ImageSpec ImageMoreSpec ImageFacts ImageMore ExtractFacts DeltaEFacts
  NumFacts NumLaws StrFacts RadiumSpec.
Open Scope string_scope.

Section WithMath.
Context {M : MathLib}.

Lemma unit_channel_ok c :
  unit c -> byteStrOk (Str.padStart2 (Str.toString16 (Num.roundZ (Num.mul c 255%Q)))) = true.
Proof. intros H. apply byte_ok, roundZ_byte, H. Qed.

Lemma imgRgbToHex_canonical c : unitRgb c -> canonical (rgbToHex c) = true.
Proof.
  intros (Ur & Ug & Ub). unfold rgbToHex, canonical.
  pose proof (unit_channel_ok Ur) as Hr. pose proof (unit_channel_ok Ug) as Hg.
  pose proof (unit_channel_ok Ub) as Hb.
  destruct (Str.padStart2 _) as [|r1 [|r2 [|]]] in Hr |- *; try discriminate Hr.
  destruct (Str.padStart2 _) as [|g1 [|g2 [|]]] in Hg |- *; try discriminate Hg.
  destruct (Str.padStart2 _) as [|b1 [|b2 [|]]] in Hb |- *; try discriminate Hb.
  cbn in *. unfold Select.is6hex. cbn.
  apply andb_true_iff in Hr as [-> ->], Hg as [-> ->], Hb as [-> ->]. reflexivity.
Qed.

Lemma oklabToRgb_unit lab : unitRgb (oklabToRgb lab).
Proof. unfold oklabToRgb, unitRgb. cbv zeta. cbn [r g b]. repeat split; apply clamp01_unit. Qed.

Lemma labToHex_canonical lab : canonical (labToHex lab) = true.
Proof. unfold labToHex. apply imgRgbToHex_canonical, oklabToRgb_unit. Qed.

Lemma kMeansCore_ok rnd pos labs k maxIter :
  (1 <= k)%nat -> labs <> [] -> unitDraws rnd ->
  exists ranked pos',
    kMeansCore rnd pos labs k maxIter = Return (ranked, pos') /\ List.length ranked = k.
Proof.
  intros Hk Hl Hr.
  destruct (kMeansClusters_ok pos maxIter Hk Hl Hr) as (ranked & pos' & Hc & Hlen).
  exists ranked, pos'. split; [|assumption].
  unfold kMeansCore. destruct labs; [congruence|].
  rewrite Hc. cbn [bind fst snd]. now rewrite padToK_exact.
Qed.

(** [(a.length >= k ? a : b)] is not empty when [b] is not and [k >= 1]. *)
Lemma atLeastOr_nonempty (A : Type) (k : nat) (a b : list A) :
  (1 <= k)%nat -> b <> [] -> (if (k <=? List.length a)%nat then a else b) <> [].
Proof.
  intros Hk Hb. destruct (k <=? List.length a)%nat eqn:E; [|assumption].
  apply Nat.leb_le in E. destruct a; [cbn in E; lia|discriminate].
Qed.

End WithMath.
End ExtractMore.

Module ExtractProperties.
Import Image Extract ImageSpec ImageMoreSpec ImageFacts ImageMore ExtractFacts DeltaEFacts
  ExtractMore NumFacts NumLaws RadiumSpec.
Open Scope string_scope.

(** X16. [colorMomentsAlgo] returns exactly [k] colours, and all three
    coordinates of each lie between 0 and 1: besides the lightness it also
    clamps a and b, so no returned colour has a negative a or b
    coordinate. *)
Theorem colorMomentsAlgo_unit (M : MathLib) (labs : list Lab) (k : nat) :
  List.length (colorMomentsAlgo labs k) = k /\
  Forall unitLab (colorMomentsAlgo labs k).
Proof.
  unfold colorMomentsAlgo. destruct labs as [|l rest].
  - split; [apply padToK_length|apply padToK_nil_unit].
  - cbv zeta. split; [now rewrite length_map, length_seq|].
    apply Forall_forall. intros c Hc. apply in_map_iff in Hc as (i & <- & _).
    unfold unitLab. cbn [L a b']. repeat split; apply clamp01_unit.
Qed.

(** X17. [deltaEAlgo] returns (it never reads a missing candidate), and
    returns exactly [k] colours: a selection padded by [padToK].  The
    selection holds sample colours only, holds no colour twice, and for a
    non-empty sample starts with a candidate of greatest chroma. *)
Theorem deltaEAlgo_selection (M : MathLib) (labs : list Lab) (k : nat) :
  exists sel,
    deltaEAlgo labs k = Return (padToK sel k) /\
    List.length (padToK sel k) = k /\
    NoDup sel /\ incl sel labs /\
    (labs = [] \/
     exists seed more,
       sel = seed :: more /\
       Forall (fun c => (labChroma c <= labChroma seed)%Q)
              (everyNth (Nat.max 1 (List.length labs / 2000)) 0 labs)).
Proof.
  unfold deltaEAlgo. destruct labs as [|l rest].
  - exists []. split; [reflexivity|]. split; [apply padToK_length|].
    split; [constructor|]. split; [apply incl_refl|now left].
  - set (step := Nat.max 1 (List.length (l :: rest) / 2000)).
    pose proof (@everyNth_incl step 0 (l :: rest)) as Hincl.
    destruct (everyNth step 0 (l :: rest)) as [|first more] eqn:E.
    + exfalso. cbn [everyNth] in E.
      assert (E0 : (0 mod step =? 0)%nat = true) by (rewrite Nat.Div0.mod_0_l; reflexivity).
      rewrite E0 in E. discriminate.
    + cbv zeta.
      destruct (mostChromatic_spec first more) as [Hseed Hmax].
      set (seed := mostChromatic first more) in *.
      assert (Hsel : selection (first :: more) [seed]).
      { split; [discriminate|]. split; [repeat constructor; intros []|].
        intros x [<-|[]]. assumption. }
      pose proof (selectLoop_selection k k Hsel) as (Hne & Hnd & Hin).
      exists (selectLoop k k (first :: more) first [seed]).
      split; [reflexivity|]. split; [apply padToK_length|]. split; [assumption|].
      split; [intros x Hx; apply Hincl, Hin, Hx|]. right.
      destruct (selectLoop_head k k (first :: more) first seed []) as [tl Htl].
      exists seed, tl. split; assumption.
Qed.

(** X18. On a sample whose channels lie between 0 and 1, [medianCutAlgo]
    returns (its largest box is never missing), and returns exactly [k]
    colours whose channels lie between 0 and 1, so that [rgbToHex], which
    does not clamp, prints each as a canonical colour. *)
Theorem medianCutAlgo_unit (rgbs : list RGB) (k : nat) :
  Forall unitRgb rgbs ->
  exists out,
    medianCutAlgo rgbs k = Return out /\
    List.length out = k /\
    Forall unitRgb out /\
    Forall (fun c => canonical (rgbToHex c) = true) out.
Proof.
  intros H.
  assert (G : exists out, medianCutAlgo rgbs k = Return out /\ List.length out = k /\
                          Forall unitRgb out).
  { unfold medianCutAlgo. destruct rgbs as [|p rest].
    - eexists. split; [reflexivity|]. split; [apply padRgbToK_length|].
      apply padRgbToK_unit. constructor.
    - assert (Hg : goodBoxes [p :: rest]).
      { split; [discriminate|].
        apply Forall_cons; [split; [discriminate|assumption]|apply Forall_nil]. }
      destruct (cutLoop_good k k Hg) as (boxes & -> & _ & HF). cbn [bind].
      eexists. split; [reflexivity|]. split; [apply padRgbToK_length|].
      apply padRgbToK_unit. apply Forall_map.
      eapply Forall_impl; [|exact HF]. cbv beta. intros box [Hne Hu].
      now apply boxMean_unit. }
  destruct G as (out & Hout & Hlen & Hu). exists out.
  split; [assumption|]. split; [assumption|]. split; [assumption|].
  eapply Forall_impl; [|exact Hu]. apply imgRgbToHex_canonical.
Qed.

Lemma medianCutAlgo_unit_witness :
  Forall unitRgb [{| r := 1%Q; g := 0%Q; b := 0%Q |}; {| r := 0%Q; g := 0%Q; b := 1%Q |}] /\
  exists out,
    medianCutAlgo
      [{| r := 1%Q; g := 0%Q; b := 0%Q |}; {| r := 0%Q; g := 0%Q; b := 1%Q |}] 3 = Return out /\
    List.length out = 3%nat /\
    Forall unitRgb out /\
    Forall (fun c => canonical (rgbToHex c) = true) out.
Proof.
  assert (H : Forall unitRgb
                [{| r := 1%Q; g := 0%Q; b := 0%Q |}; {| r := 0%Q; g := 0%Q; b := 1%Q |}]).
  { repeat constructor; discriminate. }
  split; [exact H|].
  exact (@medianCutAlgo_unit
           [{| r := 1%Q; g := 0%Q; b := 0%Q |}; {| r := 0%Q; g := 0%Q; b := 1%Q |}] 3 H).
Defined.

(** X19. [dominantAlgo] returns exactly [k] colours: a list of levels,
    brought to length [k] by [padRgbToK].  The levels are pairwise
    different, and each is some sample colour with every channel rounded to
    sevenths.  On a sample whose channels lie between 0 and 1 so do the
    channels of every returned colour. *)
Theorem dominantAlgo_levels (rgbs : list RGB) (k : nat) :
  exists top,
    dominantAlgo rgbs k = padRgbToK top k /\
    List.length (dominantAlgo rgbs k) = k /\
    NoDup top /\
    Forall (fun c => exists p, In p rgbs /\ c = quantized p) top /\
    (Forall unitRgb rgbs -> Forall unitRgb (dominantAlgo rgbs k)).
Proof.
  unfold dominantAlgo.
  set (sorted := sortBy byCountDesc (tally rgbs)).
  assert (Hperm : Permutation (tally rgbs) sorted) by apply SortFacts.sortBy_perm.
  assert (Hfrom : Forall (fun c => exists p, In p rgbs /\ c = quantized p)
                         (map e_rgb (firstn k sorted))).
  { apply Forall_map. apply Forall_firstn.
    eapply Permutation_Forall; [exact Hperm|]. apply tally_from. }
  exists (map e_rgb (firstn k sorted)).
  split; [reflexivity|]. split; [apply padRgbToK_length|]. split; [|split; [assumption|]].
  - assert (Hnd : NoDup (map e_rgb sorted)).
    { eapply Permutation_NoDup; [apply Permutation_map; exact Hperm|].
      apply distinct_NoDup, tally_distinct. }
    rewrite <- (firstn_skipn k sorted), map_app in Hnd.
    exact (NoDup_app_remove_r _ _ Hnd).
  - intros Hu. apply padRgbToK_unit.
    apply Forall_forall. intros c Hc.
    destruct (proj1 (Forall_forall _ _) Hfrom c Hc) as (p & Hp & ->).
    apply quantized_unit. exact (proj1 (Forall_forall _ _) Hu p Hp).
Qed.

(** X20. For [k >= 1], a non-empty sample and draws in [0, 1), [vibrantAlgo]
    and [mutedAlgo] return, each exactly [k] colours, and [labToHex] prints
    every one of them as a canonical colour. *)
Theorem vibrant_muted_exactly_k (M : MathLib) (rnd : Rand) (pos : nat)
  (labs : list Lab) (k : nat) :
  (1 <= k)%nat -> labs <> [] -> unitDraws rnd ->
  exists v pos1 m pos2,
    vibrantAlgo rnd pos labs k = Return (v, pos1) /\
    mutedAlgo rnd pos1 labs k = Return (m, pos2) /\
    List.length v = k /\ List.length m = k /\
    Forall (fun c => canonical c = true) (map labToHex v ++ map labToHex m).
Proof.
  intros Hk Hl Hr. unfold vibrantAlgo, mutedAlgo.
  match goal with |- context [kMeansCore rnd pos ?pool k 25] =>
    destruct (@kMeansCore_ok M rnd pos pool k 25 Hk (@atLeastOr_nonempty _ k _ labs Hk Hl) Hr)
      as (v & pos1 & Ev & Lv) end.
  exists v, pos1.
  match goal with |- context [kMeansCore rnd pos1 ?pool k 25] =>
    destruct (@kMeansCore_ok M rnd pos1 pool k 25 Hk (@atLeastOr_nonempty _ k _ labs Hk Hl) Hr)
      as (m & pos2 & Em & Lm) end.
  exists m, pos2. repeat split; try assumption.
  apply Forall_app. split; apply Forall_map; apply Forall_forall; intros c _;
    apply labToHex_canonical.
Qed.

Lemma vibrant_muted_exactly_k_witness :
  (1 <= 2)%nat /\ [ImageExamples.pink; ImageExamples.red] <> [] /\
  unitDraws ImageExamples.halfDraws /\
  exists v pos1 m pos2,
    @vibrantAlgo refMath ImageExamples.halfDraws 0 [ImageExamples.pink; ImageExamples.red] 2
      = Return (v, pos1) /\
    @mutedAlgo refMath ImageExamples.halfDraws pos1 [ImageExamples.pink; ImageExamples.red] 2
      = Return (m, pos2) /\
    List.length v = 2%nat /\ List.length m = 2%nat /\
    Forall (fun c => canonical c = true) (map labToHex v ++ map labToHex m).
Proof.
  split; [lia|]. split; [discriminate|]. split; [exact ImageExamples.halfDraws_unit|].
  apply (@vibrant_muted_exactly_k refMath ImageExamples.halfDraws 0
           [ImageExamples.pink; ImageExamples.red] 2);
    [lia|discriminate|exact ImageExamples.halfDraws_unit].
Defined.

End ExtractProperties.

(* ================================================================== *)
(** * AlgorithmicGenerator.ts: further properties *)
(* ================================================================== *)

(** Vocabulary. *)
Module AlgorithmicSpec.
Import Algorithmic.
Open Scope string_scope.

(** The colours the generators are meant for: [#] and six hexadecimal
    digits of either case. *)
Definition isHex6 (s : string) : bool := Radium.HEX_RE_test s.


(** A number in the half-open unit interval, as [Math.random] promises. *)
Definition inUnit (x : num) : Prop := (0 <= x)%Q /\ (x < 1)%Q.

(** An array of [n] colours, each [#] and six lower-case hexadecimal digits. *)
Definition goodArray (n : nat) (l : list string) : Prop :=
  List.length l = n /\ Forall (fun c => SelectSpec.isNormalised c = true) l.


End AlgorithmicSpec.

Module AlgorithmicMore.
Import Algorithmic AlgorithmicSpec AlgorithmicFacts NumFacts NumLaws StrFacts RadiumSpec.
Open Scope string_scope.

(** Replaces every arithmetic operation of the number model by a fresh
    variable with its defining equation, so that [lra] and [nra] apply. *)
Ltac num_name t lem :=
  pose proof lem; let v := fresh "v" in set (v := t) in *; clearbody v.

Ltac num_abs :=
  repeat match goal with
  | |- context [Num.mul ?x ?y] => num_name (Num.mul x y) (mul_eq x y)
  | |- context [Num.add ?x ?y] => num_name (Num.add x y) (add_eq x y)
  | |- context [Num.sub ?x ?y] => num_name (Num.sub x y) (sub_eq x y)
  | _ : context [Num.mul ?x ?y] |- _ => num_name (Num.mul x y) (mul_eq x y)
  | _ : context [Num.add ?x ?y] |- _ => num_name (Num.add x y) (add_eq x y)
  | _ : context [Num.sub ?x ?y] |- _ => num_name (Num.sub x y) (sub_eq x y)
  end.

(** *** The generator *)

Lemma toUint32_range x : (0 <= toUint32 x < two32)%Z.
Proof. unfold toUint32. apply Z.mod_pos_bound. reflexivity. Qed.

Lemma prngOutput_unit s : inUnit (prngOutput s).
Proof.
  unfold prngOutput, inUnit. cbv zeta.
  set (u := toUint32 _). pose proof (toUint32_range (xor32 (xor32 (imul (xor32 s (ushr32 s 15)) (or32 s 1))
      (imul (xor32 s (ushr32 s 15)) (or32 s 1)
       + imul (xor32 (imul (xor32 s (ushr32 s 15)) (or32 s 1))
                     (ushr32 (imul (xor32 s (ushr32 s 15)) (or32 s 1)) 7))
              (or32 (imul (xor32 s (ushr32 s 15)) (or32 s 1)) 61)))
      (ushr32 (xor32 (imul (xor32 s (ushr32 s 15)) (or32 s 1))
      (imul (xor32 s (ushr32 s 15)) (or32 s 1)
       + imul (xor32 (imul (xor32 s (ushr32 s 15)) (or32 s 1))
                     (ushr32 (imul (xor32 s (ushr32 s 15)) (or32 s 1)) 7))
              (or32 (imul (xor32 s (ushr32 s 15)) (or32 s 1)) 61))) 14))) as Hu.
  fold u in Hu. clearbody u.
  rewrite div_eq. unfold Num.ofZ.
  assert (A : (inject_Z 0 <= inject_Z u)%Q) by (rewrite <- Zle_Qle; lia).
  assert (B : (inject_Z u < inject_Z two32)%Q) by (rewrite <- Zlt_Qlt; lia).
  assert (P : (0 < inject_Z two32)%Q) by reflexivity.
  change (inject_Z 0) with 0%Q in A.
  split.
  - apply Qle_shift_div_l; [assumption|]. lra.
  - apply Qlt_shift_div_r; [assumption|]. lra.
Qed.

(** *** The seed *)

Lemma toInt32_range x : (- 2147483648 <= toInt32 x < 2147483648)%Z.
Proof.
  unfold toInt32. cbv zeta. pose proof (toUint32_range x) as H. unfold two32 in *.
  destruct (toUint32 x <? 2147483648)%Z eqn:E.
  - apply Z.ltb_lt in E. lia.
  - apply Z.ltb_ge in E. lia.
Qed.

Lemma hashStep_range h d : (- 2147483648 <= hashStep h d < 2147483648)%Z.
Proof. unfold hashStep. destruct d; [apply toInt32_range|lia]. Qed.

Lemma hash_range (f : Z -> nat -> Z) (l : list nat) h :
  (forall x i, (- 2147483648 <= f x i < 2147483648)%Z) ->
  (- 2147483648 <= h < 2147483648)%Z ->
  (- 2147483648 <= fold_left f l h < 2147483648)%Z.
Proof.
  intros Hf. revert h. induction l as [|i l IH]; intros h Hh; cbn [fold_left]; [assumption|].
  apply IH, Hf.
Qed.

(** *** Printing *)



Definition unitRgb (c : RGB) : Prop :=
  (0 <= r c <= 1)%Q /\ (0 <= g c <= 1)%Q /\ (0 <= b c <= 1)%Q.


Section WithMath.
Context {M : MathLib}.









(** *** Value noise *)

Lemma smoothstep_unit t : (0 <= t <= 1)%Q -> (0 <= smoothstep t <= 1)%Q.
Proof.
  intros [H0 H1]. unfold smoothstep.
  assert (E : (Num.mul (Num.mul t t) (Num.sub 3 (Num.mul 2 t)) == t * t * (3 - 2 * t))%Q).
  { rewrite mul_eq, mul_eq, sub_eq, mul_eq. reflexivity. }
  rewrite E.
  assert (A : (0 <= t * t)%Q) by (apply Qmult_le_0_compat; assumption).
  assert (B : (0 <= (1 - t) * (1 - t))%Q) by (apply Qmult_le_0_compat; lra).
  assert (C : (0 <= (t * t) * (3 - 2 * t))%Q) by (apply Qmult_le_0_compat; lra).
  assert (D : (0 <= ((1 - t) * (1 - t)) * (1 + 2 * t))%Q) by (apply Qmult_le_0_compat; lra).
  split; [lra|].
  assert (F : (1 - t * t * (3 - 2 * t) == (1 - t) * (1 - t) * (1 + 2 * t))%Q) by ring.
  lra.
Qed.

Lemma lerp_between x y t :
  (0 <= x <= 1)%Q -> (0 <= y <= 1)%Q -> (0 <= t <= 1)%Q -> (0 <= lerp x y t <= 1)%Q.
Proof.
  intros [Hx0 Hx1] [Hy0 Hy1] [Ht0 Ht1]. unfold lerp. num_abs.
  split; nra.
Qed.

Lemma frac_unit x : (0 <= Num.sub x (Num.ofZ (Num.floorZ x)) <= 1)%Q.
Proof.
  rewrite sub_eq. unfold Num.ofZ, Num.floorZ.
  pose proof (Qfloor_le x) as Hlo. pose proof (Qlt_floor x) as Hhi.
  rewrite inject_Z_plus in Hhi. change (inject_Z 1) with 1%Q in Hhi.
  split; lra.
Qed.

Lemma nth_unit (table : list num) i :
  Forall (fun v => (0 <= v <= 1)%Q) table -> (0 <= nth i table 0%Q <= 1)%Q.
Proof.
  intros H. destruct (Nat.lt_ge_cases i (List.length table)) as [Hlt|Hge].
  - exact (proj1 (Forall_forall _ _) H _ (nth_In table 0%Q Hlt)).
  - rewrite nth_overflow by assumption. split; discriminate.
Qed.

Lemma valueNoise_unit table x :
  Forall (fun v => (0 <= v <= 1)%Q) table -> (0 <= valueNoise table x <= 1)%Q.
Proof.
  intros H. unfold valueNoise. cbv zeta.
  apply lerp_between; try apply nth_unit; try assumption.
  apply smoothstep_unit, frac_unit.
Qed.

Lemma noiseTable_unit seed : Forall (fun v => (0 <= v <= 1)%Q) (noiseTable seed).
Proof.
  unfold noiseTable. rewrite draws_closed. cbn [fst].
  apply Forall_map. apply Forall_forall. intros j _.
  destruct (prngOutput_unit (makePrng seed + Z.of_nat (S j) * 1831565813)) as [H0 H1].
  split; lra.
Qed.

End WithMath.
End AlgorithmicMore.

Module AlgorithmicProperties.
Import Algorithmic AlgorithmicSpec AlgorithmicFacts AlgorithmicMore NumFacts NumLaws.
Open Scope string_scope.

(** X21. Every number a generator made by [makePrng] returns lies in the
    half-open interval from 0 to 1, whatever the seed and however many calls
    came before: the results of [n] successive calls from any captured
    state, and the [j]-th result of a generator seeded with [seed]. *)
Theorem makePrng_unit_interval (seed : Z) (j n : nat) (s : Z) :
  inUnit (mulberry32 seed j) /\ Forall inUnit (fst (draws n s)).
Proof.
  split.
  - unfold mulberry32. apply prngOutput_unit.
  - rewrite draws_closed. cbn [fst]. apply Forall_map, Forall_forall.
    intros i _. apply prngOutput_unit.
Qed.

(** X22. [seedFromHex] returns an integer from 0 to 2^31 for every string:
    each round of the hash is brought back to a signed 32-bit integer by
    [| 0], and [Math.abs] of the last one is taken. *)
Theorem seedFromHex_range (hex : string) :
  (0 <= seedFromHex hex <= 2147483648)%Z.
Proof.
  unfold seedFromHex.
  pose proof (@hash_range (fun h i => hashStep h (hexDigitAt hex i)) (seq 1 6) 0%Z
                (fun x i => hashStep_range x (hexDigitAt hex i))) as H.
  specialize (H ltac:(lia)). lia.
Qed.

(** X23. The value-noise function of [makeValueNoise] stays between 0 and 1
    at every argument, negative ones included, whatever the seed: it
    interpolates between two entries of a table of generator results with a
    smoothstep weight that is itself between 0 and 1. *)
Theorem makeValueNoise_unit_interval (seed : Z) (x : num) :
  (0 <= valueNoise (noiseTable seed) x)%Q /\ (valueNoise (noiseTable seed) x <= 1)%Q.
Proof. apply valueNoise_unit, noiseTable_unit. Qed.



End AlgorithmicProperties.

(* ================================================================== *)
(** * ContrastGenerator.ts: further properties *)
(* ================================================================== *)

(** Vocabulary. *)
Module ContrastSpec.
Import Contrast.
Open Scope Q_scope.

(** A colour in gamut. *)
Definition inGamut (c : ColorRGB) : Prop :=
  0 <= r c <= 1 /\ 0 <= g c <= 1 /\ 0 <= b c <= 1.

(** The HSL triples [rgbToHsl] produces: a hue in degrees below 360, a
    saturation and a lightness between 0 and 1. *)
Definition hslRange (x : HSL) : Prop :=
  (0 <= h x /\ h x < 360) /\ 0 <= s x <= 1 /\ 0 <= l x <= 1.


End ContrastSpec.

Module ContrastMore.
Import Contrast ContrastSpec ContrastFacts NumFacts NumLaws.
Open Scope Q_scope.

(** *** Absolute value, quotients, remainders *)


Lemma div_mul x y : 0 < y -> Num.div x y * y == x.
Proof. intros Hy. rewrite div_eq. field. lra. Qed.

Lemma div_between x y lo hi :
  0 < y -> lo * y <= x -> x <= hi * y -> lo <= Num.div x y <= hi.
Proof.
  intros Hy H1 H2. rewrite div_eq. split.
  - now apply Qle_shift_div_l.
  - now apply Qle_shift_div_r.
Qed.



(** *** Largest and smallest channel *)

Lemma max3_spec x y z :
  (x <= max3 x y z /\ y <= max3 x y z /\ z <= max3 x y z) /\
  (max3 x y z = x \/ max3 x y z = y \/ max3 x y z = z).
Proof.
  unfold max3, Num.max.
  destruct (Num.leb x y) eqn:A.
  - apply leb_le in A. destruct (Num.leb y z) eqn:B.
    + apply leb_le in B. split; [repeat split; lra|auto].
    + apply leb_gt in B. split; [repeat split; lra|auto].
  - apply leb_gt in A. destruct (Num.leb x z) eqn:B.
    + apply leb_le in B. split; [repeat split; lra|auto].
    + apply leb_gt in B. split; [repeat split; lra|auto].
Qed.

Lemma min3_spec x y z :
  (min3 x y z <= x /\ min3 x y z <= y /\ min3 x y z <= z) /\
  (min3 x y z = x \/ min3 x y z = y \/ min3 x y z = z).
Proof.
  unfold min3, Num.min.
  destruct (Num.leb x y) eqn:A.
  - apply leb_le in A. destruct (Num.leb x z) eqn:B.
    + apply leb_le in B. split; [repeat split; lra|auto].
    + apply leb_gt in B. split; [repeat split; lra|auto].
  - apply leb_gt in A. destruct (Num.leb y z) eqn:B.
    + apply leb_le in B. split; [repeat split; lra|auto].
    + apply leb_gt in B. split; [repeat split; lra|auto].
Qed.

Lemma eqb_eq x y : Num.eqb x y = true <-> x == y.
Proof. apply Qeq_bool_iff. Qed.

Lemma eqb_neq x y : Num.eqb x y = false <-> ~ x == y.
Proof.
  rewrite <- eqb_eq. destruct (Num.eqb x y); split; intros H; try discriminate; auto.
  now contradiction H.
Qed.

(** *** [rgbToHsl], sector by sector *)

(** Where on the hue circle a colour with largest channel [mx] and smallest
    channel [mn] lies: the sector, and the position [hh] (in units of 60
    degrees) inside it. *)
Definition sector (c : ColorRGB) (mx mn hh : Q) : Prop :=
  let d := mx - mn in
  (r c == mx /\ b c == mn /\ (0 <= hh /\ hh <= 1) /\ hh * d == g c - b c) \/
  (r c == mx /\ g c == mn /\ (5 <= hh /\ hh < 6) /\ (hh - 6) * d == g c - b c) \/
  (g c == mx /\ b c == mn /\ (1 <= hh /\ hh < 2) /\ (hh - 2) * d == b c - r c) \/
  (g c == mx /\ r c == mn /\ (2 <= hh /\ hh <= 3) /\ (hh - 2) * d == b c - r c) \/
  (b c == mx /\ r c == mn /\ (3 <= hh /\ hh < 4) /\ (hh - 4) * d == r c - g c) \/
  (b c == mx /\ g c == mn /\ (4 <= hh /\ hh < 5) /\ (hh - 4) * d == r c - g c).

Lemma sector_pos q D X k hh d x :
  hh == q + k -> q * D == X -> D == d -> X == x -> (hh - k) * d == x.
Proof. intros E1 E2 E3 E4. rewrite E1, <- E4, <- E2, <- E3. ring. Qed.

Lemma quotient_between x y lo hi d n :
  y == d -> x == n -> 0 < d -> lo * d <= n -> n <= hi * d -> lo <= Num.div x y <= hi.
Proof.
  intros Ey Ex Hd H1 H2. apply div_between.
  - rewrite Ey. exact Hd.
  - rewrite Ey, Ex. exact H1.
  - rewrite Ey, Ex. exact H2.
Qed.

Lemma rgbToHsl_spec c :
  inGamut c ->
  let mx := max3 (r c) (g c) (b c) in
  let mn := min3 (r c) (g c) (b c) in
  l (rgbToHsl c) == (mx + mn) / 2 /\
  ((mx == mn /\ h (rgbToHsl c) = 0 /\ s (rgbToHsl c) = 0) \/
   (mn < mx /\
    (exists den, s (rgbToHsl c) * den == mx - mn /\ mx - mn <= den /\
        ((mx + mn <= 1 /\ den == mx + mn) \/ (1 < mx + mn /\ den == 2 - mx - mn))) /\
    (exists hh, h (rgbToHsl c) == hh * 60 /\ sector c mx mn hh))).
Proof.
  intros (Hr & Hg & Hb) mx mn.
  destruct (max3_spec (r c) (g c) (b c)) as [(M1 & M2 & M3) Mi].
  destruct (min3_spec (r c) (g c) (b c)) as [(L1 & L2 & L3) Li].
  fold mx in M1, M2, M3, Mi. fold mn in L1, L2, L3, Li.
  assert (Mx1 : mx <= 1) by (destruct Mi as [Mi|[Mi|Mi]]; rewrite Mi; lra).
  assert (Mn0 : 0 <= mn) by (destruct Li as [Li|[Li|Li]]; rewrite Li; lra).
  assert (El : Num.div (Num.add mx mn) 2 == (mx + mn) / 2).
  { rewrite div_eq, add_eq. reflexivity. }
  unfold rgbToHsl. cbv zeta. fold mx. fold mn.
  destruct (Num.eqb mx mn) eqn:E.
  - apply eqb_eq in E. cbn [h s l]. split; [exact El|]. left. auto.
  - apply eqb_neq in E. cbn [h s l]. split; [exact El|]. right.
    assert (Hd : mn < mx).
    { destruct (Qlt_le_dec mn mx) as [A|A]; [assumption|]. exfalso. apply E. lra. }
    split; [exact Hd|].
    pose proof (sub_eq mx mn) as ED.
    split.
    + (* the saturation *)
      destruct (Num.gtb (Num.div (Num.add mx mn) 2) 0.5) eqn:G.
      * apply gtb_lt in G. rewrite El in G.
        assert (G' : 1 < mx + mn).
        { assert (F : (mx + mn) / 2 == (mx + mn) * (1 # 2)) by (field; discriminate). lra. }
        pose proof (sub_eq (Num.sub 2 mx) mn) as E1. pose proof (sub_eq 2 mx) as E2.
        exists (Num.sub (Num.sub 2 mx) mn). split; [|split].
        -- rewrite <- ED. apply div_mul. rewrite E1, E2. lra.
        -- rewrite E1, E2. lra.
        -- right. split; [assumption|]. rewrite E1, E2. reflexivity.
      * apply gtb_le in G. rewrite El in G.
        assert (G' : mx + mn <= 1).
        { assert (F : (mx + mn) / 2 == (mx + mn) * (1 # 2)) by (field; discriminate). lra. }
        pose proof (add_eq mx mn) as E1.
        exists (Num.add mx mn). split; [|split].
        -- rewrite <- ED. apply div_mul. rewrite E1. lra.
        -- rewrite E1. lra.
        -- left. split; [assumption|]. exact E1.
    + (* the hue *)
      assert (D0 : 0 < mx - mn) by lra.
      destruct (Num.eqb mx (r c)) eqn:Er.
      * apply eqb_eq in Er.
        destruct (Num.ltb (g c) (b c)) eqn:Egb.
        -- apply ltb_lt in Egb.
           exists (Num.add (Num.div (Num.sub (g c) (b c)) (Num.sub mx mn)) 6).
           split; [apply mul_eq|]. right. left.
           assert (Q : -1 <= Num.div (Num.sub (g c) (b c)) (Num.sub mx mn) <= 0).
           { apply (quotient_between ED (sub_eq (g c) (b c)) D0); lra. }
           assert (Q' : Num.div (Num.sub (g c) (b c)) (Num.sub mx mn) < 0).
           { rewrite div_eq. apply Qlt_shift_div_r; [rewrite ED; lra|].
             rewrite (sub_eq (g c) (b c)). lra. }
           pose proof (add_eq (Num.div (Num.sub (g c) (b c)) (Num.sub mx mn)) 6) as Eh.
           split; [lra|]. split.
           { destruct Li as [Li|[Li|Li]]; rewrite Li in *; lra. }
           split; [lra|].
           apply (sector_pos Eh (div_mul (Num.sub (g c) (b c)) (y:=Num.sub mx mn) ltac:(lra))
                    ED (sub_eq (g c) (b c))).
        -- apply ltb_ge in Egb.
           exists (Num.add (Num.div (Num.sub (g c) (b c)) (Num.sub mx mn)) 0).
           split; [apply mul_eq|]. left.
           assert (Q : 0 <= Num.div (Num.sub (g c) (b c)) (Num.sub mx mn) <= 1).
           { apply (quotient_between ED (sub_eq (g c) (b c)) D0); lra. }
           pose proof (add_eq (Num.div (Num.sub (g c) (b c)) (Num.sub mx mn)) 0) as Eh.
           split; [lra|]. split.
           { destruct Li as [Li|[Li|Li]]; rewrite Li in *; lra. }
           split; [lra|].
           pose proof (sector_pos Eh
                         (div_mul (Num.sub (g c) (b c)) (y:=Num.sub mx mn) ltac:(lra))
                         ED (sub_eq (g c) (b c))) as Ep.
           rewrite <- Ep. ring.
      * apply eqb_neq in Er.
        assert (Rlt : r c < mx).
        { destruct (Qlt_le_dec (r c) mx) as [A|A]; [assumption|]. exfalso. apply Er. lra. }
        destruct (Num.eqb mx (g c)) eqn:Eg.
        -- apply eqb_eq in Eg.
           exists (Num.add (Num.div (Num.sub (b c) (r c)) (Num.sub mx mn)) 2).
           split; [apply mul_eq|].
           assert (Q : -1 <= Num.div (Num.sub (b c) (r c)) (Num.sub mx mn) <= 1).
           { apply (quotient_between ED (sub_eq (b c) (r c)) D0); lra. }
           pose proof (add_eq (Num.div (Num.sub (b c) (r c)) (Num.sub mx mn)) 2) as Eh.
           pose proof (sector_pos Eh
                         (div_mul (Num.sub (b c) (r c)) (y:=Num.sub mx mn) ltac:(lra))
                         ED (sub_eq (b c) (r c))) as Ep.
           destruct (Qlt_le_dec (b c) (r c)) as [A|A].
           ++ right. right. left. split; [lra|]. split.
              { destruct Li as [Li|[Li|Li]]; rewrite Li in *; lra. }
              split; [|exact Ep].
              split; [lra|].
              assert (Q' : Num.div (Num.sub (b c) (r c)) (Num.sub mx mn) < 0).
              { rewrite div_eq. apply Qlt_shift_div_r; [rewrite ED; lra|].
                rewrite (sub_eq (b c) (r c)). lra. }
              lra.
           ++ right. right. right. left. split; [lra|]. split.
              { destruct Li as [Li|[Li|Li]]; rewrite Li in *; lra. }
              split; [|exact Ep].
              assert (Q' : 0 <= Num.div (Num.sub (b c) (r c)) (Num.sub mx mn)).
              { rewrite div_eq. apply Qle_shift_div_l; [rewrite ED; lra|].
                rewrite (sub_eq (b c) (r c)). lra. }
              lra.
        -- apply eqb_neq in Eg.
           assert (Glt : g c < mx).
           { destruct (Qlt_le_dec (g c) mx) as [A|A]; [assumption|]. exfalso. apply Eg. lra. }
           assert (Eb : b c == mx).
           { destruct Mi as [Mi|[Mi|Mi]]; rewrite Mi in *; lra. }
           exists (Num.add (Num.div (Num.sub (r c) (g c)) (Num.sub mx mn)) 4).
           split; [apply mul_eq|].
           pose proof (add_eq (Num.div (Num.sub (r c) (g c)) (Num.sub mx mn)) 4) as Eh.
           pose proof (sector_pos Eh
                         (div_mul (Num.sub (r c) (g c)) (y:=Num.sub mx mn) ltac:(lra))
                         ED (sub_eq (r c) (g c))) as Ep.
           assert (Q : -1 <= Num.div (Num.sub (r c) (g c)) (Num.sub mx mn) /\
                       Num.div (Num.sub (r c) (g c)) (Num.sub mx mn) < 1).
           { split.
             - apply (quotient_between (hi:=1) ED (sub_eq (r c) (g c)) D0); lra.
             - rewrite div_eq. apply Qlt_shift_div_r; [rewrite ED; lra|].
               rewrite (sub_eq (r c) (g c)). lra. }
           destruct (Qlt_le_dec (r c) (g c)) as [A|A].
           ++ right. right. right. right. left. split; [exact Eb|]. split.
              { destruct Li as [Li|[Li|Li]]; rewrite Li in *; lra. }
              split; [|exact Ep].
              assert (Q' : Num.div (Num.sub (r c) (g c)) (Num.sub mx mn) < 0).
              { rewrite div_eq. apply Qlt_shift_div_r; [rewrite ED; lra|].
                rewrite (sub_eq (r c) (g c)). lra. }
              lra.
           ++ right. right. right. right. right. split; [exact Eb|]. split.
              { destruct Li as [Li|[Li|Li]]; rewrite Li in *; lra. }
              split; [|exact Ep].
              assert (Q' : 0 <= Num.div (Num.sub (r c) (g c)) (Num.sub mx mn)).
              { rewrite div_eq. apply Qle_shift_div_l; [rewrite ED; lra|].
                rewrite (sub_eq (r c) (g c)). lra. }
              lra.
Qed.

(** *** [hslToRgb], sector by sector *)









(** *** [rgbToHsl] stays in range *)

(** X25. For a colour in gamut [rgbToHsl] returns a hue from 0 up to, but
    not including, 360 degrees, and a saturation and a lightness between 0
    and 1. *)
Theorem rgbToHsl_range (c : ColorRGB) : inGamut c -> hslRange (rgbToHsl c).
Proof.
  intros Hc. pose proof Hc as (Hr & Hg & Hb).
  destruct (rgbToHsl_spec Hc) as [El Hcase].
  destruct (max3_spec (r c) (g c) (b c)) as [(M1 & M2 & M3) Mi].
  destruct (min3_spec (r c) (g c) (b c)) as [(L1 & L2 & L3) Li].
  set (mx := max3 (r c) (g c) (b c)) in *. set (mn := min3 (r c) (g c) (b c)) in *.
  assert (Mx1 : mx <= 1) by (destruct Mi as [Mi|[Mi|Mi]]; rewrite Mi; lra).
  assert (Mn0 : 0 <= mn) by (destruct Li as [Li|[Li|Li]]; rewrite Li; lra).
  assert (El' : l (rgbToHsl c) == (mx + mn) * (1 # 2)) by (rewrite El; field).
  unfold hslRange.
  destruct Hcase as [(Eg & -> & ->)|(Hd & (den & Hsd & Hdd & Hden) & (hh & Ehh & Hsec))].
  - repeat split; lra.
  - split; [|split].
    + unfold sector in Hsec.
      destruct Hsec as [(_ & _ & B & _)|[(_ & _ & B & _)|[(_ & _ & B & _)|
                       [(_ & _ & B & _)|[(_ & _ & B & _)|(_ & _ & B & _)]]]]]; lra.
    + set (sv := s (rgbToHsl c)) in *. clearbody sv.
      assert (P : 0 < den) by lra.
      assert (E : sv == (mx - mn) / den).
      { rewrite <- Hsd. unfold num, Num.num in *. field. lra. }
      rewrite E. split.
      * apply Qle_shift_div_l; [assumption|]. lra.
      * apply Qle_shift_div_r; [assumption|]. lra.
    + lra.
Qed.

Lemma rgbToHsl_range_witness :
  inGamut {| r := 0.2; g := 0.6; b := 0.86 |} /\
  hslRange (rgbToHsl {| r := 0.2; g := 0.6; b := 0.86 |}).
Proof.
  assert (A : inGamut {| r := 0.2; g := 0.6; b := 0.86 |}).
  { unfold inGamut. cbn [r g b]. repeat split; discriminate. }
  split; [exact A|].
  exact (@rgbToHsl_range {| r := 0.2; g := 0.6; b := 0.86 |} A).
Defined.

(** *** From RGB to HSL and back *)



End ContrastMore.

Module ContrastShape.
Import Contrast ContrastSpec ContrastFacts ContrastMore NumFacts NumLaws StrFacts RadiumSpec.
Import AlgorithmicSpec.
Open Scope string_scope.

Lemma clamped_byte z : (0 <= Z.max 0 (Z.min 255 z) <= 255)%Z.
Proof. lia. Qed.

Lemma contrastHex_canonical c : canonical (rgbToHex c) = true.
Proof.
  unfold rgbToHex, canonical.
  pose proof (byte_ok (clamped_byte (Num.roundZ (Num.mul (r c) 255%Q)))) as Hr.
  pose proof (byte_ok (clamped_byte (Num.roundZ (Num.mul (g c) 255%Q)))) as Hg.
  pose proof (byte_ok (clamped_byte (Num.roundZ (Num.mul (b c) 255%Q)))) as Hb.
  destruct (Str.padStart2 _) as [|r1 [|r2 [|]]] in Hr |- *; try discriminate Hr.
  destruct (Str.padStart2 _) as [|g1 [|g2 [|]]] in Hg |- *; try discriminate Hg.
  destruct (Str.padStart2 _) as [|b1 [|b2 [|]]] in Hb |- *; try discriminate Hb.
  cbn in *. unfold Select.is6hex. cbn.
  apply andb_true_iff in Hr as [-> ->], Hg as [-> ->], Hb as [-> ->]. reflexivity.
Qed.

Lemma slots_good (x : nat) (f : nat -> ColorRGB) :
  goodArray x (map (fun i => rgbToHex (f i)) (seq 0 x)).
Proof.
  split; [now rewrite length_map, length_seq|].
  apply Forall_map, Forall_forall. intros i _. apply contrastHex_canonical.
Qed.


End ContrastShape.

Module ContrastProperties.
Import Contrast ContrastSpec ContrastFacts ContrastMore ContrastShape NumFacts NumLaws.
Import AlgorithmicSpec.
Open Scope string_scope.



(** X28. For an input with a non-empty array whose first colour is [#] and
    six hexadecimal digits, [generateContrastPalettes] returns its three
    WCAG-targeted arrays [accessible], [wcag] and [highContrast] with
    exactly [x] colours each, every colour [#] followed by six lower-case
    hexadecimal digits, whatever the searches found and whatever the host's
    [Math.pow] returns. *)
Theorem generateContrastPalettes_arrays (M : MathLib) (input : list (string * list string))
    (x : nat) (colours : list string) :
  firstNonEmpty input = Some colours ->
  isHex6 (nth 0 colours "") = true ->
  exists out,
    generateContrastPalettes input x = Some out /\
    Forall (goodArray x) [out_accessible out; out_wcag out; out_highContrast out].
Proof.
  intros Hf _. unfold generateContrastPalettes. rewrite Hf.
  eexists. split; [reflexivity|].
  cbn [out_accessible out_wcag out_highContrast].
  repeat apply Forall_cons; try apply Forall_nil.
  - unfold accessible. apply slots_good.
  - unfold wcag. apply slots_good.
  - unfold highContrast. apply slots_good.
Qed.

Lemma generateContrastPalettes_arrays_witness :
  firstNonEmpty [("triangle", []); ("square", ["#3498DB"; "#000000"])]
    = Some ["#3498DB"; "#000000"] /\
  isHex6 (nth 0 ["#3498DB"; "#000000"] "") = true /\
  exists out,
    @generateContrastPalettes refMath
      [("triangle", []); ("square", ["#3498DB"; "#000000"])] 5 = Some out /\
    Forall (goodArray 5) [out_accessible out; out_wcag out; out_highContrast out].
Proof.
  assert (A : firstNonEmpty [("triangle", []); ("square", ["#3498DB"; "#000000"])]
              = Some ["#3498DB"; "#000000"]) by reflexivity.
  assert (B : isHex6 (nth 0 ["#3498DB"; "#000000"] "") = true) by reflexivity.
  split; [exact A|]. split; [exact B|].
  exact (@generateContrastPalettes_arrays refMath _ 5%nat _ A B).
Defined.

End ContrastProperties.

(* ================================================================== *)
(** * DataVisualsGenerator.ts: hue interpolation *)
(* ================================================================== *)

Module DataVisualsFacts.
Import DataVisuals NumFacts NumLaws.
Open Scope Q_scope.







End DataVisualsFacts.

Module DataVisualsProperties.
Import DataVisuals DataVisualsFacts NumFacts NumLaws.
Open Scope Q_scope.



End DataVisualsProperties.
